(** * Rideau Canal dashboard: a shallow embedding of server.js and public/app.js

    The development follows the two source files:
    - [Js]      the fragment of the JavaScript runtime the code relies on
                (values, coercions, number formatting, plain objects);
    - [Date]    time values and their ISO text;
    - [Cosmos]  the document store as the code queries it;
    - [Server]  the two route handlers of server.js;
    - [Client]  the renderers of public/app.js;
    - [Wire]    what the page's [fetch] receives for a handler's response.

    Numbers.  A finite JavaScript number is represented by its exact rational
    value, which is a binary64 value: what a literal denotes and what an
    arithmetic operation returns is rounded to the nearest binary64 value,
    the even one of two that are equally near, overflows to an infinity and
    underflows to zero.  The sign of a zero is not represented.

    Strings.  A JavaScript string is represented by the bytes of its UTF-8
    encoding. *)

From Stdlib Require Import ZArith QArith Qabs Qround Qpower String Ascii List Bool.
From Stdlib Require Import Lia Lqa.
From Stdlib Require Import Sorting.Sorted Sorting.Permutation.
From Stdlib Require Import Structures.OrderedTypeEx.
Import ListNotations.

Close Scope Q_scope.
Local Open Scope string_scope.
Local Open Scope list_scope.
Local Open Scope Z_scope.

(* ================================================================== *)
(** * The JavaScript runtime fragment *)
(* ================================================================== *)

Module Js.

(** ** Numbers *)

Inductive number : Type :=
| NaN
| PosInf
| NegInf
| Fin (q : Q).

(** The least magnitude that rounds to an infinity: 2^1024 - 2^970. *)
Definition overflow_threshold : Z := 2 ^ 1024 - 2 ^ 970.

(** The greatest magnitude that rounds to zero is 2^-1075. *)
Definition underflow_denominator : positive := (2 ^ 1075)%positive.

(** The exponent of a positive real: the greatest [e] with [2^e <= a]. *)
Definition binary_exponent (a : Q) : Z :=
  let e := Z.log2 (Qnum a) - Z.log2 (Zpos (Qden a)) in
  if Qle_bool (2 ^ e) a then e else e - 1.

(** The nearest integer, the even one of two that are equally near. *)
Definition nearest_even (x : Q) : Z :=
  let f := Qfloor x in
  match (x - inject_Z f ?= 1 # 2)%Q with
  | Lt => f
  | Gt => f + 1
  | Datatypes.Eq => if Z.even f then f else f + 1
  end.

(** The unit in the last place of a significand of 53 bits at the exponent
    of [a], or at the least exponent, -1022. *)
Definition ulp (a : Q) : Q := (2 ^ (Z.max (binary_exponent a) (-1022) - 52))%Q.

(** Rounding a magnitude to binary64: the nearest multiple of the unit in
    the last place. *)
Definition round_magnitude (a : Q) : Q :=
  (inject_Z (nearest_even (a / ulp a)) * ulp a)%Q.

Definition round53 (q : Q) : Q :=
  if Qle_bool 0 q then round_magnitude (Qabs q)
  else (- round_magnitude (Qabs q))%Q.

(** The number a real value denotes once it is stored: the nearest binary64
    value. *)
Definition fl (x : Q) : number :=
  let q := Qred x in
  let a := Qabs q in
  if Qle_bool (inject_Z overflow_threshold) a then
    (if Qle_bool 0%Q q then PosInf else NegInf)
  else if Qle_bool a (1 # underflow_denominator) then Fin 0%Q
  else Fin (Qred (round53 q)).

Definition of_Z (z : Z) : number := fl (inject_Z z).

Definition is_zero (q : Q) : bool := Qeq_bool q 0%Q.
Definition is_neg (q : Q) : bool := negb (Qle_bool 0%Q q).

Definition mul (a b : number) : number :=
  match a, b with
  | NaN, _ | _, NaN => NaN
  | Fin x, Fin y => fl (x * y)%Q
  | Fin x, PosInf | PosInf, Fin x =>
      if is_zero x then NaN else if is_neg x then NegInf else PosInf
  | Fin x, NegInf | NegInf, Fin x =>
      if is_zero x then NaN else if is_neg x then PosInf else NegInf
  | PosInf, PosInf | NegInf, NegInf => PosInf
  | PosInf, NegInf | NegInf, PosInf => NegInf
  end.

Definition sub (a b : number) : number :=
  match a, b with
  | NaN, _ | _, NaN => NaN
  | Fin x, Fin y => fl (x - y)%Q
  | Fin _, PosInf => NegInf
  | Fin _, NegInf => PosInf
  | PosInf, PosInf | NegInf, NegInf => NaN
  | PosInf, _ => PosInf
  | NegInf, _ => NegInf
  end.

(** [Number.isNaN] *)
Definition isNaN (n : number) : bool :=
  match n with NaN => true | _ => false end.

(** ** Characters and digit strings *)

Definition code (c : ascii) : N := N_of_ascii c.

Definition is_digit (c : ascii) : bool :=
  (N.leb 48 (code c) && N.leb (code c) 57)%N.

Definition digit_value (c : ascii) : Z := Z.of_N (code c) - 48.

(** The value of a hexadecimal digit, if the character is one. *)
Definition hex_value (c : ascii) : option Z :=
  let n := code c in
  if (N.leb 48 n && N.leb n 57)%N then Some (Z.of_N n - 48)
  else if (N.leb 97 n && N.leb n 102)%N then Some (Z.of_N n - 87)
  else if (N.leb 65 n && N.leb n 70)%N then Some (Z.of_N n - 55)
  else None.

Fixpoint span_digits (l : list ascii) : list ascii * list ascii :=
  match l with
  | c :: r =>
      if is_digit c then let (d, rest) := span_digits r in (c :: d, rest)
      else ([], l)
  | [] => ([], [])
  end.

Definition digits_value (ds : list ascii) : Z :=
  fold_left (fun acc c => 10 * acc + digit_value c) ds 0.

(** Digits of a literal in radix [r]; [None] when a character is no digit of it. *)
Fixpoint radix_value (r : Z) (ds : list ascii) (acc : Z) : option Z :=
  match ds with
  | [] => Some acc
  | c :: rest =>
      match hex_value c with
      | Some v => if v <? r then radix_value r rest (r * acc + v) else None
      | None => None
      end
  end.

Definition digit_char (d : Z) : ascii := ascii_of_N (Z.to_N (48 + d)).

Fixpoint pos_digits (fuel : nat) (z : Z) (acc : list ascii) : list ascii :=
  match fuel with
  | O => acc
  | S f =>
      if z <? 10 then digit_char z :: acc
      else pos_digits f (z / 10) (digit_char (z mod 10) :: acc)
  end.

(** The decimal digits of a natural number, most significant first. *)
Definition nat_digits (z : Z) : list ascii :=
  pos_digits (S (Z.to_nat (Z.log2 z))) z [].

Fixpoint strip_zeros (l : list ascii) : list ascii :=
  match l with
  | c :: r => if Ascii.eqb c "0" then strip_zeros r else l
  | [] => []
  end.

Definition zeros (n : nat) : list ascii := repeat "0"%char n.

Definition pad_left (n : nat) (l : list ascii) : list ascii :=
  (zeros (n - length l) ++ l)%list.

(** ** White space, as [StringToNumber] trims it *)

(** One white-space or line-terminator character at the head of the text:
    TAB, LF, VT, FF, CR, SP, and in UTF-8 U+00A0, U+1680, U+2000..U+200A,
    U+2028, U+2029, U+202F, U+205F, U+3000 and U+FEFF. *)
Definition drop_space (l : list ascii) : option (list ascii) :=
  match map code l with
  | (9 | 10 | 11 | 12 | 13 | 32)%N :: _ => Some (skipn 1 l)
  | 194%N :: 160%N :: _ => Some (skipn 2 l)
  | 225%N :: 154%N :: 128%N :: _ => Some (skipn 3 l)
  | 226%N :: 128%N :: c :: _ =>
      if (N.leb 128 c && N.leb c 138)%N || N.eqb c 168 || N.eqb c 169 || N.eqb c 175
      then Some (skipn 3 l) else None
  | 226%N :: 129%N :: 159%N :: _ => Some (skipn 3 l)
  | 227%N :: 128%N :: 128%N :: _ => Some (skipn 3 l)
  | 239%N :: 187%N :: 191%N :: _ => Some (skipn 3 l)
  | _ => None
  end.

Fixpoint trim_start (fuel : nat) (l : list ascii) : list ascii :=
  match fuel with
  | O => l
  | S f => match drop_space l with Some r => trim_start f r | None => l end
  end.

(** The same characters at the end of the text, read backwards. *)
Definition drop_space_rev (l : list ascii) : option (list ascii) :=
  match map code l with
  | (9 | 10 | 11 | 12 | 13 | 32)%N :: _ => Some (skipn 1 l)
  | 160%N :: 194%N :: _ => Some (skipn 2 l)
  | 128%N :: 154%N :: 225%N :: _ => Some (skipn 3 l)
  | c :: 128%N :: 226%N :: _ =>
      if (N.leb 128 c && N.leb c 138)%N || N.eqb c 168 || N.eqb c 169 || N.eqb c 175
      then Some (skipn 3 l) else None
  | 159%N :: 129%N :: 226%N :: _ => Some (skipn 3 l)
  | 128%N :: 128%N :: 227%N :: _ => Some (skipn 3 l)
  | 191%N :: 187%N :: 239%N :: _ => Some (skipn 3 l)
  | _ => None
  end.

Fixpoint trim_end_rev (fuel : nat) (l : list ascii) : list ascii :=
  match fuel with
  | O => l
  | S f => match drop_space_rev l with Some r => trim_end_rev f r | None => l end
  end.

Definition trim (l : list ascii) : list ascii :=
  let l1 := trim_start (length l) l in
  rev (trim_end_rev (length l1) (rev l1)).

(** ** StringToNumber: the coercion [Number(s)] of a string *)

Definition chars (s : string) : list ascii := list_ascii_of_string s.
Definition text (l : list ascii) : string := string_of_list_ascii l.

Definition is_char (c : ascii) (n : N) : bool := N.eqb (code c) n.

(** The value of the decimal literal [int_ds.frac_ds e exp10].  A magnitude of
    at least 10^309 is infinite and one below 10^-324 is zero, whatever the
    digits; between the two the value is computed and stored. *)
Definition decimal_value (neg : bool) (int_ds frac_ds : list ascii) (exp10 : Z)
  : number :=
  let ds := strip_zeros (int_ds ++ frac_ds) in
  let m := digits_value ds in
  if m =? 0 then Fin 0%Q
  else
    let e := exp10 - Z.of_nat (length frac_ds) in
    let nd := Z.of_nat (length ds) in
    if 309 <=? nd - 1 + e then (if neg then NegInf else PosInf)
    else if nd + e <=? -324 then Fin 0%Q
    else
      let q := if 0 <=? e then inject_Z (m * 10 ^ e)
               else Qmake m (Z.to_pos (10 ^ (- e))) in
      fl (if neg then Qopp q else q).

(** The exponent part, which must reach the end of the text. *)
Definition parse_exponent (l : list ascii) : option Z :=
  match l with
  | [] => Some 0
  | c :: r =>
      if is_char c 101 || is_char c 69 then
        let (neg, r') :=
          match r with
          | s :: t => if is_char s 43 then (false, t)
                      else if is_char s 45 then (true, t) else (false, r)
          | [] => (false, r)
          end in
        let (ds, rest) := span_digits r' in
        match ds, rest with
        | _ :: _, [] => Some (if neg then - digits_value ds else digits_value ds)
        | _, _ => None
        end
      else None
  end.

Definition unsigned_decimal (neg : bool) (l : list ascii) : number :=
  if String.eqb (text l) "Infinity" then (if neg then NegInf else PosInf)
  else
    let (int_ds, r1) := span_digits l in
    let (frac_ds, r2) :=
      match r1 with
      | c :: t => if is_char c 46 then span_digits t else ([], r1)
      | [] => ([], r1)
      end in
    match int_ds, frac_ds with
    | [], [] => NaN
    | _, _ =>
        match parse_exponent r2 with
        | Some e => decimal_value neg int_ds frac_ds e
        | None => NaN
        end
    end.

(** [0x], [0o] and [0b] literals: the radix and the digits after the prefix. *)
Definition radix_prefix (l : list ascii) : option (Z * list ascii) :=
  match l with
  | z :: p :: (_ :: _) as ds =>
      if is_char z 48 then
        if is_char p 120 || is_char p 88 then Some (16, ds)
        else if is_char p 111 || is_char p 79 then Some (8, ds)
        else if is_char p 98 || is_char p 66 then Some (2, ds)
        else None
      else None
  | _ => None
  end.

Definition StringToNumber (s : string) : number :=
  let l := trim (chars s) in
  match l with
  | [] => Fin 0%Q
  | c :: r =>
      match radix_prefix l with
      | Some (radix, ds) =>
          match radix_value radix ds 0 with
          | Some v => of_Z v
          | None => NaN
          end
      | None =>
          if is_char c 43 then unsigned_decimal false r
          else if is_char c 45 then unsigned_decimal true r
          else unsigned_decimal false l
      end
  end.

(** ** Number::toString and Number.prototype.toFixed *)

(** The decimal exponent of a positive real: the greatest [n] with
    [10^n <= a]. *)
Definition decimal_exponent (a : Q) : Z :=
  let est := binary_exponent a * 30103 / 100000 in
  if Qle_bool (10 ^ (est + 1)) a then est + 1
  else if Qle_bool (10 ^ est) a then est
  else est - 1.

(** Of the two decimals of [k] digits next to [a], [s * 10^(n-k)], one that
    denotes [a] once it is stored: the nearer one of two, the even one of
    two that are equally near. *)
Definition round_trip (a : Q) (n k : Z) : option Z :=
  let scale := (10 ^ (n - k))%Q in
  let lo := Qfloor (a / scale) in
  let hi := lo + 1 in
  let denotes s :=
    match fl (inject_Z s * scale) with
    | Fin r => Qeq_bool r a
    | _ => false
    end in
  match denotes lo, denotes hi with
  | true, true =>
      match (a - inject_Z lo * scale ?= inject_Z hi * scale - a)%Q with
      | Lt => Some lo
      | Gt => Some hi
      | Datatypes.Eq => Some (if Z.even lo then lo else hi)
      end
  | true, false => Some lo
  | false, true => Some hi
  | false, false => None
  end.

(** The decimal of the fewest digits that denotes [a]: the count [kfrac] of
    its digits after the point, and its digits as an integer.  A binary64
    value has one of 17 digits at most. *)
Fixpoint shortest_from (fuel : nat) (a : Q) (n k : Z) : Z * Z :=
  match fuel with
  | O => (k - n, Qfloor (a / 10 ^ (n - k)))
  | S f =>
      match round_trip a n k with
      | Some s => (k - n, s)
      | None => shortest_from f a n (k + 1)
      end
  end.

Definition shortest (a : Q) : Z * Z :=
  shortest_from 17 a (decimal_exponent a + 1) 1.

Definition exponent_text (c : Z) : list ascii :=
  (if 0 <=? c then "+"%char else "-"%char) :: nat_digits (Z.abs c).

(** The text of a positive number. *)
Definition positive_text (q : Q) : list ascii :=
  let (kfrac, N) := shortest q in
  let all := nat_digits N in
  let s := rev (strip_zeros (rev all)) in
  let k := Z.of_nat (length s) in
  let n := Z.of_nat (length all) - kfrac in
  if (-5 <=? n) && (n <=? 21) then
    if k <=? n then s ++ zeros (Z.to_nat (n - k))
    else if 0 <? n then firstn (Z.to_nat n) s ++ "."%char :: skipn (Z.to_nat n) s
    else "0"%char :: "."%char :: zeros (Z.to_nat (- n)) ++ s
  else
    match s with
    | [] => []
    | [d] => d :: "e"%char :: exponent_text (n - 1)
    | d :: rest => d :: "."%char :: rest ++ "e"%char :: exponent_text (n - 1)
    end.

Definition number_text (x : number) : string :=
  match x with
  | NaN => "NaN"
  | PosInf => "Infinity"
  | NegInf => "-Infinity"
  | Fin q =>
      if is_zero q then "0"
      else if is_neg q then text ("-"%char :: positive_text (Qopp q))
      else text (positive_text q)
  end.

(** The nearest number of tenths of a non-negative [x], the larger of two
    that are equally near. *)
Definition nearest_tenths (x : Q) : Z := Qfloor (x * inject_Z 10 + (1 # 2))%Q.

(** [x.toFixed(1)] *)
Definition toFixed1 (x : number) : string :=
  match x with
  | Fin q =>
      let a := Qabs q in
      if Qle_bool (inject_Z (10 ^ 21)) a then number_text x
      else
        let m := pad_left 2 (nat_digits (nearest_tenths a)) in
        let k := length m in
        text ((if is_neg q then ["-"%char] else []) ++
              firstn (k - 1) m ++ "."%char :: skipn (k - 1) m)
  | _ => number_text x
  end.

(** ** String.prototype.toLowerCase

    Letters A to Z are mapped; every other byte is kept.  Outside ASCII the
    runtime also maps letters, but only onto text that is not ASCII, except
    U+212A, which becomes [k], and U+0130, which becomes [i] followed by
    U+0307. *)
Definition lower (c : ascii) : ascii :=
  let n := code c in
  if (N.leb 65 n && N.leb n 90)%N then ascii_of_N (n + 32) else c.

Definition toLowerCase (s : string) : string := text (map lower (chars s)).

(** ** Values held by a field of a JSON document *)

Inductive value : Type :=
| Undefined                (* the field is absent *)
| Null
| Bool (b : bool)
| Num (n : number)
| Str (s : string).

(** ToBoolean *)
Definition truthy (v : value) : bool :=
  match v with
  | Undefined | Null => false
  | Bool b => b
  | Num NaN => false
  | Num (Fin q) => negb (is_zero q)
  | Num _ => true
  | Str s => negb (String.eqb s "")
  end.

(** [a || b] *)
Definition or_else (a b : value) : value := if truthy a then a else b.

(** [a ?? b] *)
Definition nullish_else (a b : value) : value :=
  match a with
  | Undefined | Null => b
  | _ => a
  end.

(** [Number(v)] *)
Definition Number (v : value) : number :=
  match v with
  | Undefined => NaN
  | Null => Fin 0%Q
  | Bool true => Fin 1%Q
  | Bool false => Fin 0%Q
  | Num n => n
  | Str s => StringToNumber s
  end.

(** ToString, as a template literal or a property access applies it. *)
Definition ToString (v : value) : string :=
  match v with
  | Undefined => "undefined"
  | Null => "null"
  | Bool true => "true"
  | Bool false => "false"
  | Num n => number_text n
  | Str s => s
  end.

(** [a === b] for a string [b] *)
Definition strict_eq_string (a : value) (b : string) : bool :=
  match a with
  | Str s => String.eqb s b
  | _ => false
  end.

(** [arr.indexOf(v)] on an array of strings; -1 when absent. *)
Fixpoint indexOf_from (arr : list string) (v : value) (i : Z) : Z :=
  match arr with
  | [] => -1
  | x :: rest => if strict_eq_string v x then i else indexOf_from rest v (i + 1)
  end.

Definition indexOf (arr : list string) (v : value) : Z := indexOf_from arr v 0.

(** ** Plain objects used as maps

    An object literal inherits from [Object.prototype]: reading a property
    the object does not own finds the inherited one, a function (or, for
    [__proto__], the prototype itself), all of them truthy. *)
Definition Object_prototype_names : list string :=
  [ "constructor"; "__defineGetter__"; "__defineSetter__"; "hasOwnProperty";
    "__lookupGetter__"; "__lookupSetter__"; "isPrototypeOf";
    "propertyIsEnumerable"; "toString"; "valueOf"; "__proto__";
    "toLocaleString" ].

Definition inherited (k : string) : bool :=
  existsb (String.eqb k) Object_prototype_names.

(** Own properties, in the order of their creation. *)
Definition object (V : Type) : Type := list (string * V).

Fixpoint own {V : Type} (o : object V) (k : string) : option V :=
  match o with
  | [] => None
  | (k', v) :: rest => if String.eqb k' k then Some v else own rest k
  end.

(** What [o[k]] reads. *)
Inductive property (V : Type) : Type :=
| Own (v : V)
| Inherited
| Missing.
Arguments Own {V} v.
Arguments Inherited {V}.
Arguments Missing {V}.

Definition get {V : Type} (o : object V) (k : string) : property V :=
  match own o k with
  | Some v => Own v
  | None => if inherited k then Inherited else Missing
  end.

(** [o[k] = v] for a key that names no accessor of the prototype: the own
    property is overwritten in place, or created last. *)
Fixpoint set {V : Type} (o : object V) (k : string) (v : V) : object V :=
  match o with
  | [] => [(k, v)]
  | (k', v') :: rest =>
      if String.eqb k' k then (k', v) :: rest else (k', v') :: set rest k v
  end.

(** An array index: the canonical text of an integer from 0 to 2^32 - 2. *)
Definition array_index (k : string) : option Z :=
  let l := chars k in
  match l with
  | [] => None
  | c :: r =>
      if forallb is_digit l && (negb (is_char c 48) || (length r =? 0)%nat) then
        let v := digits_value l in
        if v <=? 4294967294 then Some v else None
      else None
  end.

Fixpoint insert_index {V : Type} (i : Z) (v : V) (l : list (Z * V)) : list (Z * V) :=
  match l with
  | [] => [(i, v)]
  | (j, w) :: rest =>
      if i <? j then (i, v) :: l else (j, w) :: insert_index i v rest
  end.

Fixpoint indexed {V : Type} (o : object V) : list (Z * V) :=
  match o with
  | [] => []
  | (k, v) :: rest =>
      match array_index k with
      | Some i => insert_index i v (indexed rest)
      | None => indexed rest
      end
  end.

Fixpoint named {V : Type} (o : object V) : list V :=
  match o with
  | [] => []
  | (k, v) :: rest =>
      match array_index k with
      | Some _ => named rest
      | None => v :: named rest
      end
  end.

(** [Object.values(o)]: array indices in ascending order, then the other
    keys in the order of their creation. *)
Definition Object_values {V : Type} (o : object V) : list V :=
  map snd (indexed o) ++ named o.

(** ** Exceptions *)

Inductive exn : Type :=
| RangeError (message : string)
| TypeError (message : string)
| Error (message : string).

Inductive completion (A : Type) : Type :=
| Normal (a : A)
| Throw (e : exn).
Arguments Normal {A} a.
Arguments Throw {A} e.

Definition bind {A B : Type} (c : completion A) (k : A -> completion B)
  : completion B :=
  match c with
  | Normal a => k a
  | Throw e => Throw e
  end.

Notation "x <- c ;; k" := (bind c (fun x => k))
  (at level 61, c at next level, right associativity).

Fixpoint forEach {A B : Type} (f : A -> completion B) (l : list A)
  : completion (list B) :=
  match l with
  | [] => Normal []
  | x :: rest =>
      y <- f x ;;
      ys <- forEach f rest ;;
      Normal (y :: ys)
  end.


End Js.

(* ================================================================== *)
(** * Date *)
(* ================================================================== *)

Module Date.

Import Js.

(** The largest time value, in milliseconds from the epoch. *)
Definition max_time : Z := 8640000000000000.

(** The integral part of a real, its fraction dropped. *)
Definition truncate (q : Q) : Z :=
  if is_neg q then - Qfloor (- q) else Qfloor q.

(** TimeClip: the time value of [new Date(x)]; [None] is the invalid date. *)
Definition TimeClip (x : number) : option Z :=
  match x with
  | Fin q =>
      if Qle_bool (Qabs q) (inject_Z max_time) then Some (truncate q) else None
  | _ => None
  end.

Definition msPerDay : Z := 86400000.

(** Year, month and day of the proleptic Gregorian calendar for a day
    number counted from 1970-01-01. *)
Definition civil_from_days (day : Z) : Z * Z * Z :=
  let z := day + 719468 in
  let era := z / 146097 in
  let doe := z - era * 146097 in
  let yoe := (doe - doe / 1460 + doe / 36524 - doe / 146096) / 365 in
  let doy := doe - (365 * yoe + yoe / 4 - yoe / 100) in
  let mp := (5 * doy + 2) / 153 in
  let d := doy - (153 * mp + 2) / 5 + 1 in
  let m := if mp <? 10 then mp + 3 else mp - 9 in
  let y := yoe + era * 400 + (if m <=? 2 then 1 else 0) in
  (y, m, d).

Definition padded (width : nat) (z : Z) : list ascii :=
  pad_left width (nat_digits z).

Definition year_text (y : Z) : list ascii :=
  if (0 <=? y) && (y <=? 9999) then padded 4 y
  else (if 0 <=? y then "+"%char else "-"%char) :: padded 6 (Z.abs y).

(** The text [YYYY-MM-DDTHH:mm:ss.sssZ] of a time value. *)
Definition iso_text (t : Z) : string :=
  let '(y, m, d) := civil_from_days (t / msPerDay) in
  let ms := t mod msPerDay in
  text (year_text y ++ "-"%char :: padded 2 m ++ "-"%char :: padded 2 d ++
        "T"%char :: padded 2 (ms / 3600000) ++
        ":"%char :: padded 2 (ms / 60000 mod 60) ++
        ":"%char :: padded 2 (ms / 1000 mod 60) ++
        "."%char :: padded 3 (ms mod 1000) ++ ["Z"%char]).

(** [new Date(x).toISOString()] *)
Definition toISOString (x : number) : completion string :=
  match TimeClip x with
  | Some t => Normal (iso_text t)
  | None => Throw (RangeError "Invalid time value")
  end.

End Date.

(* ================================================================== *)
(** * Aggregation documents *)
(* ================================================================== *)

(** The fields of an aggregation document that the code reads.  A field
    holds a JSON scalar, or [Undefined] when the document lacks it. *)
Record document : Type := {
  location : Js.value;
  windowEnd : Js.value;
  avgIceThickness : Js.value;
  avgSurfaceTemperature : Js.value;
  maxSnowAccumulation : Js.value;
  safetyStatus : Js.value;
  readingCount : Js.value
}.

(* ================================================================== *)
(** * The document store *)
(* ================================================================== *)

Module Cosmos.

Import Js.

(** The container: its documents, or a store that cannot be reached. *)
Inductive container : Type :=
| Reachable (items : list document)
| Unreachable.

(** The two query texts of server.js, as syntax. *)
Inductive path : Type := c_windowEnd | c_location.

Inductive predicate : Type :=
| Ge (p : path) (parameter : string)       (* p >= @parameter *)
| Eq (p : path) (parameter : string).      (* p = @parameter *)

Inductive direction : Type := ASC | DESC.

Record querySpec : Type := {
  top : option nat;                        (* SELECT TOP n *)
  where_ : list predicate;                 (* WHERE ... AND ... *)
  orderBy : path * direction;              (* ORDER BY p ASC | DESC *)
  parameters : list (string * value)
}.

Definition field (p : path) (d : document) : value :=
  match p with
  | c_windowEnd => windowEnd d
  | c_location => location d
  end.

Fixpoint parameter (ps : list (string * value)) (name : string) : value :=
  match ps with
  | [] => Undefined
  | (n, v) :: rest => if String.eqb n name then v else parameter rest name
  end.

Definition compare_numbers (a b : number) : comparison :=
  match a, b with
  | Fin x, Fin y => Qcompare x y
  | NegInf, NegInf | PosInf, PosInf | NaN, NaN => Datatypes.Eq
  | NegInf, _ => Lt
  | _, NegInf => Gt
  | Fin _, _ => Lt
  | _, Fin _ => Gt
  | PosInf, _ => Lt
  | _, PosInf => Gt
  end.

(** The order of values of one type; [None] across types, where the store
    leaves a comparison undefined. *)
Definition compare_same_type (a b : value) : option comparison :=
  match a, b with
  | Null, Null => Some Datatypes.Eq
  | Bool x, Bool y => Some (Bool.compare x y)
  | Num x, Num y => Some (compare_numbers x y)
  | Str x, Str y => Some (String.compare x y)
  | _, _ => None
  end.

Definition holds (ps : list (string * value)) (d : document) (c : predicate)
  : bool :=
  match c with
  | Ge p name =>
      match compare_same_type (field p d) (parameter ps name) with
      | Some Lt | None => false
      | Some _ => true
      end
  | Eq p name =>
      match compare_same_type (field p d) (parameter ps name) with
      | Some Datatypes.Eq => true
      | _ => false
      end
  end.

(** ORDER BY ranks values of different types by type. *)
Definition type_rank (v : value) : Z :=
  match v with
  | Undefined => 0
  | Null => 1
  | Bool _ => 2
  | Num _ => 3
  | Str _ => 4
  end.

Definition order_leb (a b : value) : bool :=
  match compare_same_type a b with
  | Some Gt => false
  | Some _ => true
  | None => type_rank a <=? type_rank b
  end.

Definition defined (v : value) : bool :=
  match v with Undefined => false | _ => true end.

Section Sorting.
Context {A : Type} (leb : A -> A -> bool).

Fixpoint insert (x : A) (l : list A) : list A :=
  match l with
  | [] => [x]
  | y :: rest => if leb x y then x :: l else y :: insert x rest
  end.

Fixpoint sort (l : list A) : list A :=
  match l with
  | [] => []
  | x :: rest => insert x (sort rest)
  end.
End Sorting.

Definition doc_leb (o : path * direction) (a b : document) : bool :=
  match o with
  | (p, ASC) => order_leb (field p a) (field p b)
  | (p, DESC) => order_leb (field p b) (field p a)
  end.

Definition matching (q : querySpec) (items : list document) : list document :=
  filter (fun d => forallb (holds (parameters q) d) (where_ q)) items.

(** The documents a query selects: those that satisfy every predicate and
    define the ordering field, in order, cut to the first [n] when the
    query says TOP n. *)
Definition select (q : querySpec) (items : list document) : list document :=
  let ordered :=
    sort (doc_leb (orderBy q))
      (filter (fun d => defined (field (fst (orderBy q)) d)) (matching q items)) in
  match top q with
  | Some n => firstn n ordered
  | None => ordered
  end.

(** [container.items.query(querySpec).fetchAll()]: the promise is fulfilled
    with the resources or rejected. *)
Definition fetchAll (q : querySpec) (c : container) : completion (list document) :=
  match c with
  | Reachable items => Normal (select q items)
  | Unreachable => Throw (Error "request failed")
  end.

End Cosmos.

(* ================================================================== *)
(** * server.js *)
(* ================================================================== *)

Module Server.

Import Js Cosmos.

(** What a request ends in: [res.json(body)], [res.status(500).json(...)],
    or an exception that leaves the handler before any response is sent. *)
Inductive response : Type :=
| json (body : list document)
| status500 (error : string)
| unhandled (e : exn).

(** ** /api/latest *)

(** SELECT TOP 100 * FROM c ORDER BY c.windowEnd DESC *)
Definition latestQuery : querySpec :=
  {| top := Some 100%nat;
     where_ := [];
     orderBy := (c_windowEnd, DESC);
     parameters := [] |}.

(** The key under which a document is recorded: [doc.location || "Unknown"],
    as a property name. *)
Definition loc (doc : document) : string :=
  ToString (or_else (location doc) (Str "Unknown")).

(** The body of the loop: [if (!latestByLocation[loc]) latestByLocation[loc] = doc].
    A document is an object, hence truthy, and so is an inherited property. *)
Definition keep (latestByLocation : object document) (doc : document)
  : object document :=
  match get latestByLocation (loc doc) with
  | Missing => set latestByLocation (loc doc) doc
  | Own _ | Inherited => latestByLocation
  end.

Definition latestByLocation (resources : list document) : object document :=
  fold_left keep resources [].

(** The result computed from the fetched sample. *)
Definition getLatest (resources : list document) : list document :=
  Object_values (latestByLocation resources).

Definition api_latest (c : container) : response :=
  match fetchAll latestQuery c with
  | Normal resources => json (getLatest resources)
  | Throw _ => status500 "Failed to fetch latest data"
  end.

(** ** /api/history *)

(** A query-string parameter: absent, or a string. *)
Definition param (p : option string) : value :=
  match p with
  | Some s => Str s
  | None => Undefined
  end.

(** [Number(req.query.hours) || 6] *)
Definition hours_of (p : option string) : number :=
  let n := Number (param p) in
  if truthy (Num n) then n else Fin 6%Q.

(** [new Date(Date.now() - hours * 60 * 60 * 1000).toISOString()] *)
Definition since_of (now : Z) (hours : number) : completion string :=
  Date.toISOString
    (sub (of_Z now) (mul (mul (mul hours (Fin 60%Q)) (Fin 60%Q)) (Fin 1000%Q))).

(** SELECT * FROM c WHERE c.windowEnd >= @since [AND c.location = @location]
    ORDER BY c.windowEnd ASC *)
Definition historyQuery (location : value) (since : string) : querySpec :=
  {| top := None;
     where_ := Ge c_windowEnd "@since" ::
               (if truthy location then [Eq c_location "@location"] else []);
     orderBy := (c_windowEnd, ASC);
     parameters := ("@since", Str since) ::
                   (if truthy location then [("@location", location)] else []) |}.

(** The handler.  [since] is computed before the [try] block, so what
    [toISOString] throws escapes the handler. *)
Definition api_history (query_location query_hours : option string)
    (now : Z) (c : container) : response :=
  let location := or_else (param query_location) (Str "") in
  let hours := hours_of query_hours in
  match since_of now hours with
  | Throw e => unhandled e
  | Normal since =>
      match fetchAll (historyQuery location since) c with
      | Normal resources => json resources
      | Throw _ => status500 "Failed to fetch history"
      end
  end.

End Server.

(* ================================================================== *)
(** * public/app.js *)
(* ================================================================== *)

Module Client.

Import Js.

(** What [fetch] and [res.json()] hand to a renderer. *)
Inductive fetched : Type :=
| Rejected                                  (* fetch or res.json() rejected *)
| NotOk (status : Z)                        (* res.ok is false *)
| Body (data : option (list document)).     (* the parsed body; [None] when it is no array *)

(** ** Latest status *)

Definition preferredOrder : list string := ["Dows Lake"; "Fifth Avenue"; "NAC"].

(** The sort key of a location: its index in [preferredOrder], else 999. *)
Definition order (l : value) : Z :=
  let idx := indexOf preferredOrder l in
  if idx =? -1 then 999 else idx.

(** The comparator handed to [sort].  [localeCompare] is the collation of
    the browser's locale; only a string has the method. *)
Definition compare (localeCompare : string -> string -> Z) (a b : document)
  : completion Z :=
  let locA := or_else (location a) (Str "") in
  let locB := or_else (location b) (Str "") in
  let orderA := order locA in
  let orderB := order locB in
  if negb (orderA =? orderB) then Normal (orderA - orderB)
  else
    match locA with
    | Str s => Normal (localeCompare s (ToString locB))
    | _ => Throw (TypeError "locA.localeCompare is not a function")
    end.

(** [Array.prototype.sort] with a comparator.  The sort is stable, so for a
    consistent comparator that returns, the result is determined, and this
    insertion sort computes it.  An element is compared with elements that
    follow it in the array, and the comparator is given the later element
    first, as it is when an engine inserts an element into the sorted run
    before it.  Which pairs an engine compares is its own choice, and so is
    whether a comparator that throws for some pairs is called on one of
    them; the properties of the order are stated for comparators that
    return. *)
Section Sort.
Context {A : Type} (cmp : A -> A -> completion Z).

Fixpoint insert (x : A) (l : list A) : completion (list A) :=
  match l with
  | [] => Normal [x]
  | y :: rest =>
      v <- cmp y x ;;
      if v <? 0 then (r <- insert x rest ;; Normal (y :: r))
      else Normal (x :: l)
  end.

Fixpoint sort (l : list A) : completion (list A) :=
  match l with
  | [] => Normal []
  | x :: rest => s <- sort rest ;; insert x s
  end.
End Sort.

(** The em dash placeholder. *)
Definition dash : string := "—".

Definition numOrDash (v : value) : string :=
  let n := Number v in
  if isNaN n then dash else toFixed1 n.

(** The texts a status card shows; the window-end time, which the locale
    formats, is left out. *)
Record card : Type := {
  card_location : string;
  badgeClass : string;
  label : string;
  avgIce : string;
  avgSurface : string;
  maxSnow : string;
  readings : string
}.

(** [s.toLowerCase()]: only a string has the method. *)
Definition lowered (v : value) : completion string :=
  match v with
  | Str s => Normal (toLowerCase s)
  | _ => Throw (TypeError "toLowerCase is not a function")
  end.

Definition badge (status : string) : string :=
  if String.eqb status "safe" then "status-safe"
  else if String.eqb status "warning" || String.eqb status "caution"
  then "status-warning"
  else if String.eqb status "unsafe" || String.eqb status "closed"
  then "status-danger"
  else "status-warning".

Definition buildStatusCard (doc : document) : completion card :=
  let location := or_else (location doc) (Str "Unknown") in
  status <- lowered (or_else (safetyStatus doc) (Str "Unknown")) ;;
  let avgIce := numOrDash (avgIceThickness doc) in
  let avgSurface := numOrDash (avgSurfaceTemperature doc) in
  let maxSnow := numOrDash (maxSnowAccumulation doc) in
  let readingCount := nullish_else (readingCount doc) (Str dash) in
  let label := or_else (safetyStatus doc) (Str "Unknown") in
  Normal {| card_location := ToString location;
            badgeClass := badge status;
            label := ToString label;
            avgIce := avgIce;
            avgSurface := avgSurface;
            maxSnow := maxSnow;
            readings := ToString readingCount |}.

(** What the cards container shows after a refresh. *)
Inductive cards_view : Type :=
| ErrorLoading                   (* "Error loading data from API." *)
| NoData                         (* "No data available yet." *)
| Cards (cs : list card).

Definition fetchAndRenderLatest (localeCompare : string -> string -> Z)
    (r : fetched) : cards_view :=
  match r with
  | Rejected | NotOk _ => ErrorLoading
  | Body None | Body (Some []) => NoData
  | Body (Some data) =>
      match (sorted <- sort (compare localeCompare) data ;;
             forEach buildStatusCard sorted) with
      | Normal cs => Cards cs
      | Throw _ => ErrorLoading
      end
  end.

(** ** History charts *)

Definition canvasIdToKey (id : string) : string :=
  if String.eqb id "chart-dows" then "dows"
  else if String.eqb id "chart-fifth" then "fifth"
  else if String.eqb id "chart-nac" then "nac"
  else id.

(** The two series of a chart. *)
Definition iceValues (data : list document) : list number :=
  map (fun doc => Number (or_else (avgIceThickness doc) (Num (Fin 0%Q)))) data.

Definition tempValues (data : list document) : list number :=
  map (fun doc => Number (or_else (avgSurfaceTemperature doc) (Num (Fin 0%Q)))) data.

(** A Chart.js instance: the canvas it is attached to and its two datasets;
    the labels, which the locale formats, are left out. *)
Record chart : Type := {
  canvas : string;
  ice : list number;
  temp : list number
}.

Inductive effect : Type :=
| Destroyed (handle : nat)
| Attached (handle : nat) (canvasId : string)
| Cleared (canvasId : string)
| Logged (location : string).

(** The page: its canvas elements, the global [charts], the instances
    Chart.js keeps attached, and what has happened so far, oldest first. *)
Record page : Type := {
  canvases : list string;
  charts : object (option nat);            (* [null], or the handle of a chart *)
  attached : list (nat * chart);
  constructed : nat;                       (* the charts constructed so far *)
  trace : list effect
}.

Definition initial (canvases : list string) : page :=
  {| canvases := canvases;
     charts := [("dows", None); ("fifth", None); ("nac", None)];
     attached := [];
     constructed := 0;
     trace := [] |}.

Definition log (location : string) (p : page) : page :=
  {| canvases := canvases p; charts := charts p; attached := attached p;
     constructed := constructed p;
     trace := trace p ++ [Logged location] |}.

Definition clearRect (canvasId : string) (p : page) : page :=
  {| canvases := canvases p; charts := charts p; attached := attached p;
     constructed := constructed p;
     trace := trace p ++ [Cleared canvasId] |}.

(** [chart.destroy()]: Chart.js detaches the instance from its canvas. *)
Definition destroy (h : nat) (p : page) : page :=
  {| canvases := canvases p; charts := charts p;
     attached := filter (fun e => negb (Nat.eqb (fst e) h)) (attached p);
     constructed := constructed p;
     trace := trace p ++ [Destroyed h] |}.

(** [charts[key] = new Chart(ctx, ...)] *)
Definition newChart (key : string) (c : chart) (p : page) : page :=
  let h := constructed p in
  {| canvases := canvases p;
     charts := set (charts p) key (Some h);
     attached := (h, c) :: attached p;
     constructed := S h;
     trace := trace p ++ [Attached h (canvas c)] |}.

Definition renderHistoryForLocation (location canvasId : string)
    (r : fetched) (p : page) : page :=
  if negb (existsb (String.eqb canvasId) (canvases p)) then p
  else
    match r with
    | Rejected | NotOk _ => log location p
    | Body None | Body (Some []) => clearRect canvasId p
    | Body (Some data) =>
        let c := {| canvas := canvasId;
                    ice := iceValues data;
                    temp := tempValues data |} in
        let key := canvasIdToKey canvasId in
        match get (charts p) key with
        | Own (Some h) => newChart key c (destroy h p)
        | Own None | Missing => newChart key c p
        | Inherited => log location p     (* destroy is not a function *)
        end
    end.

(** The three calls of [fetchAndRenderHistory]. *)
Definition history_calls : list (string * string) :=
  [("Dows Lake", "chart-dows"); ("Fifth Avenue", "chart-fifth"); ("NAC", "chart-nac")].

(** A completed fetch of one call, and a run of the page over the fetches
    in the order in which they complete. *)
Definition completion_event : Type := (string * string) * fetched.

Definition step (p : page) (e : completion_event) : page :=
  renderHistoryForLocation (fst (fst e)) (snd (fst e)) (snd e) p.

Definition run (es : list completion_event) (p : page) : page :=
  fold_left step es p.

End Client.

(* ================================================================== *)
(** * The page and the server together *)
(* ================================================================== *)

Module Wire.

Import Js.

(** [JSON.stringify] of a field: a number that is not finite is written as
    [null]; an absent field stays absent. *)
Definition json_value (v : value) : value :=
  match v with
  | Num (Fin q) => Num (Fin q)
  | Num _ => Null
  | _ => v
  end.

Definition over_json (d : document) : document :=
  {| location := json_value (location d);
     windowEnd := json_value (windowEnd d);
     avgIceThickness := json_value (avgIceThickness d);
     avgSurfaceTemperature := json_value (avgSurfaceTemperature d);
     maxSnowAccumulation := json_value (maxSnowAccumulation d);
     safetyStatus := json_value (safetyStatus d);
     readingCount := json_value (readingCount d) |}.

(** What [fetch] and [res.json()] hand to the page for the response of a
    handler; nothing, when the handler sends no response. *)
Definition received (r : Server.response) : option Client.fetched :=
  match r with
  | Server.json body => Some (Client.Body (Some (map over_json body)))
  | Server.status500 _ => Some (Client.NotOk 500)
  | Server.unhandled _ => None
  end.

(** The request of [renderHistoryForLocation]:
    [/api/history?location=<location>&hours=24].  [URLSearchParams] encodes
    the two texts and the server decodes them: the handler receives them as
    they are. *)
Definition history_fetch (location : string) (now : Z) (c : Cosmos.container)
  : option Client.fetched :=
  received (Server.api_history (Some location) (Some "24") now c).

(** The request of [fetchAndRenderLatest]: [/api/latest]. *)
Definition latest_fetch (c : Cosmos.container) : option Client.fetched :=
  received (Server.api_latest c).

End Wire.

(* ================================================================== *)
(** * The terms of the properties *)
(* ================================================================== *)

Import Js.

(** ** Sample documents *)

(** A document that carries a location and a window end only. *)
Definition reading (location windowEnd : value) : document :=
  {| location := location;
     windowEnd := windowEnd;
     avgIceThickness := Undefined;
     avgSurfaceTemperature := Undefined;
     maxSnowAccumulation := Undefined;
     safetyStatus := Undefined;
     readingCount := Undefined |}.

(** A document with a status and nothing else. *)
Definition with_status (status : value) : document :=
  {| location := Str "NAC";
     windowEnd := Undefined;
     avgIceThickness := Undefined;
     avgSurfaceTemperature := Undefined;
     maxSnowAccumulation := Undefined;
     safetyStatus := status;
     readingCount := Undefined |}.

(** A document with its four measurements. *)
Definition measured (ice surface snow count : value) : document :=
  {| location := Str "NAC";
     windowEnd := Undefined;
     avgIceThickness := ice;
     avgSurfaceTemperature := surface;
     maxSnowAccumulation := snow;
     safetyStatus := Str "Safe";
     readingCount := count |}.

(** A container: three readings at Dows Lake and one at the NAC. *)
Definition canal : list document :=
  [ reading (Str "Dows Lake") (Str "2025-01-10T11:00:00.000Z");
    reading (Str "NAC") (Str "2025-01-10T10:00:00.000Z");
    reading (Str "Dows Lake") (Str "2025-01-09T13:00:00.000Z");
    reading (Str "Dows Lake") (Str "2025-01-08T09:00:00.000Z") ].

(** 2025-01-10T12:00:00.000Z *)
Definition noon : Z := 1736510400000.

(** ** Plain objects *)

Definition keys {V : Type} (o : object V) : list string := map fst o.

(** ** The newest document per location *)

(** The document is recorded under the key [k]. *)
Definition keyed (k : string) (d : document) : bool := String.eqb (Server.loc d) k.

(** What [latestByLocation] holds under [k]: nothing for a name that
    [Object.prototype] defines, else the first document keyed [k]. *)
Definition first_keyed (k : string) (resources : list document) : option document :=
  if inherited k then None else find (keyed k) resources.

(** Every entry is stored under the key of its document, and no key is
    stored twice. *)
Definition well_keyed (o : object document) : Prop :=
  NoDup (keys o) /\ forall k d, In (k, d) o -> k = Server.loc d.

(** ** Orders *)

Definition not_gt (c : comparison) : bool :=
  match c with Gt => false | _ => true end.

(** ** Binary64 numbers *)

Definition tiny : Q := 1 # underflow_denominator.
Definition huge : Q := inject_Z overflow_threshold.

(** A binary64 value: a significand below 2^53 at an exponent of -1074 at
    least. *)
Definition binary64 (q : Q) : Prop :=
  exists m k : Z, Z.abs m < 2 ^ 53 /\ -1074 <= k /\ (q == inject_Z m * 2 ^ k)%Q.

(** The unit roundoff of binary64, 2^-53. *)
Definition roundoff : Q := 1 # (2 ^ 53).

(** A number above zero, the infinite one included. *)
Definition above_zero (n : number) : Prop :=
  match n with
  | Fin q => (0 < q)%Q
  | PosInf => True
  | NaN | NegInf => False
  end.

(** ** The documents of a time window *)

(** The window end is a string not before [since], in the store's order of
    strings. *)
Definition on_or_after (since : string) (d : document) : bool :=
  match windowEnd d with
  | Str w => String.leb since w
  | _ => false
  end.

(** The location is the string [l]. *)
Definition located (l : string) (d : document) : bool :=
  match location d with
  | Str s => String.eqb s l
  | _ => false
  end.

(** The documents the request asks for. *)
Definition wanted (query_location : option string) (since : string)
    (d : document) : bool :=
  on_or_after since d &&
  match query_location with
  | None | Some "" => true
  | Some l => located l d
  end.

(** One window end is not after the other, both being strings. *)
Definition ascending (a b : document) : Prop :=
  exists x y, windowEnd a = Str x /\ windowEnd b = Str y /\ String.leb x y = true.

(** The location is the requested one, when one is requested. *)
Definition requested (query_location : option string) (d : document) : Prop :=
  match query_location with
  | None | Some "" => True
  | Some l => location d = Str l
  end.

(** The start of the window, [now - h * 3600 s], in milliseconds: the real
    number, before any rounding. *)
Definition window_start (now : Z) (h : Q) : Q :=
  (inject_Z now - h * 3600000)%Q.

(** How far the handler's date may be from the start of the window: the
    fraction of a millisecond that a date drops, and the rounding of the
    three products and of the difference. *)
Definition slack (h : Q) : Q := (2 + Qabs h * (3600000 # 2251799813685248))%Q.

(** The time value [T] is within the slack of the start of the window. *)
Definition near_start (now : Z) (h : Q) (T : Z) : Prop :=
  (Qabs (inject_Z T - window_start now h) < slack h)%Q.

(** ** The style of a status *)

(** The character is the small letter [w] or its capital. *)
Definition same_letter (c w : ascii) : bool :=
  Ascii.eqb c w ||
  (N.eqb (code c + 32) (code w) && N.leb 97 (code w) && N.leb (code w) 122).

(** The status spells the word, in letters of either case. *)
Fixpoint spells (status word : string) : bool :=
  match status, word with
  | EmptyString, EmptyString => true
  | String c s, String w ws => same_letter c w && spells s ws
  | _, _ => false
  end.

(** A word of small letters. *)
Fixpoint small (word : string) : Prop :=
  match word with
  | EmptyString => True
  | String w ws => (97 <= code w <= 122)%N /\ small ws
  end.

(** The style of a status, whatever the case of its letters. *)
Definition style (status : string) : string :=
  if spells status "safe" then "status-safe"
  else if spells status "warning" || spells status "caution" then "status-warning"
  else if spells status "unsafe" || spells status "closed" then "status-danger"
  else "status-warning".

(** ** The text of numbers *)

(** A character below 'f': the digits, the signs, the point and 'e'. *)
Definition low (c : ascii) : Prop := (code c < 102)%N.

(** The text of [n] tenths: the digits of the whole part, a point, and one
    digit. *)
Definition tenths_text (negative : bool) (n : Z) : string :=
  text ((if negative then ["-"%char] else []) ++
        nat_digits (n / 10) ++ ["."%char; digit_char (n mod 10)]).

(** The value a field contributes to a series: [Number(v || 0)]. *)
Definition series (v : value) : number := Number (or_else v (Num (Fin 0%Q))).

(** ** The order of the status cards *)

(** What the comparator reads of a document: its location, and the empty
    string when the location is absent or otherwise falsy. *)
Definition sort_location (d : document) : value := or_else (location d) (Str "").

(** The location is a string, or is absent or otherwise falsy. *)
Definition named (d : document) : Prop := exists s, sort_location d = Str s.

(** The text the comparator collates: the location, and the empty text for
    a document without one.  It is not the name on the card, which is
    "Unknown" then. *)
Definition sort_key (d : document) : string := ToString (sort_location d).

(** The name on the card of a document. *)
Definition shown (d : document) : string :=
  ToString (or_else (location d) (Str "Unknown")).

Definition priority (d : document) : Z := Client.order (sort_location d).

(** What the comparator returns for two named documents, for a collation. *)
Definition compared (localeCompare : string -> string -> Z) (a b : document) : Z :=
  if negb (priority a =? priority b) then priority a - priority b
  else localeCompare (sort_key a) (sort_key b).

Definition before (localeCompare : string -> string -> Z) (a b : document) : bool :=
  compared localeCompare a b <=? 0.

(** [a] is rendered before [b]: by priority, then by the collation of the
    sort keys. *)
Definition precedes (localeCompare : string -> string -> Z) (a b : document) : Prop :=
  priority a < priority b \/
  (priority a = priority b /\ localeCompare (sort_key a) (sort_key b) <= 0).

(** A collation for the examples: the order of the code units. *)
Definition ordinal (a b : string) : Z :=
  match String.compare a b with
  | Lt => -1
  | Datatypes.Eq => 0
  | Gt => 1
  end.

(** ** The charts of a page *)

Definition on_canvas (canvasId : string) (e : nat * Client.chart) : bool :=
  String.eqb (Client.canvas (snd e)) canvasId.

(** The handles of the instances attached to a canvas. *)
Definition live_on (canvasId : string) (p : Client.page) : list nat :=
  map fst (filter (on_canvas canvasId) (Client.attached p)).

(** Every attached instance is the one [charts] holds for its canvas, was
    constructed earlier, and is attached once. *)
Record consistent (p : Client.page) : Prop := {
  registered : forall h c, In (h, c) (Client.attached p) ->
               own (Client.charts p) (Client.canvasIdToKey (Client.canvas c))
               = Some (Some h);
  numbered : forall h c, In (h, c) (Client.attached p) ->
             (h < Client.constructed p)%nat;
  distinct : NoDup (map fst (Client.attached p))
}.

(** Every chart that [charts] holds is attached, to a canvas of its key. *)
Definition backed (p : Client.page) : Prop :=
  forall k h, own (Client.charts p) k = Some (Some h) ->
  exists c, In (h, c) (Client.attached p) /\
            Client.canvasIdToKey (Client.canvas c) = k.

(** The chart attached to a canvas, when one is. *)
Definition drawn (canvasId : string) (p : Client.page) : option Client.chart :=
  option_map snd (find (on_canvas canvasId) (Client.attached p)).

(** The chart that [renderHistoryForLocation] constructs from the data. *)
Definition chart_of (canvasId : string) (data : list document) : Client.chart :=
  {| Client.canvas := canvasId;
     Client.ice := Client.iceValues data;
     Client.temp := Client.tempValues data |}.

(** The event completes one of the three calls of [fetchAndRenderHistory]. *)
Definition issued (e : Client.completion_event) : Prop :=
  In (fst e) Client.history_calls.

(** The data of the fetch for a canvas that completed last, among those
    that brought data. *)
Fixpoint last_data (canvasId : string) (events : list Client.completion_event)
  : option (list document) :=
  match events with
  | [] => None
  | ((_, c), r) :: rest =>
      match last_data canvasId rest, r with
      | Some data, _ => Some data
      | None, Client.Body (Some (d :: data)) =>
          if String.eqb c canvasId then Some (d :: data) else None
      | None, _ => None
      end
  end.

(** The charts destroyed and the charts constructed, as the trace counts
    them. *)
Definition destructions (t : list Client.effect) : nat :=
  length (filter (fun e => match e with Client.Destroyed _ => true | _ => false end) t).

Definition constructions (t : list Client.effect) : nat :=
  length (filter (fun e => match e with Client.Attached _ _ => true | _ => false end) t).

(** Every construction is in the trace, and every chart constructed is
    attached or was destroyed. *)
Definition balanced (p : Client.page) : Prop :=
  constructions (Client.trace p) = Client.constructed p /\
  (length (Client.attached p) + destructions (Client.trace p)
   = Client.constructed p)%nat.

(** ** The sample of /api/latest *)

(** The window end of [x] ranks after that of [d]: the descending query
    returns [x] before [d]. *)
Definition later_than (d x : document) : bool :=
  negb (Cosmos.order_leb (windowEnd x) (windowEnd d)).

(** ** The order of the answer of /api/latest *)

(** The documents of a sample that are the first of their key, in the order
    of the sample; the keys that [Object.prototype] defines and the keys
    [seen] before are passed over. *)
Fixpoint first_of_each (seen : list string) (resources : list document)
  : list document :=
  match resources with
  | [] => []
  | d :: rest =>
      if inherited (Server.loc d) || existsb (String.eqb (Server.loc d)) seen
      then first_of_each seen rest
      else d :: first_of_each (Server.loc d :: seen) rest
  end.

(** The key of the document is an array index. *)
Definition index_keyed (d : document) : bool :=
  match array_index (Server.loc d) with
  | Some _ => true
  | None => false
  end.

(** ** Dates as texts *)

(** The time values of the years 0000 to 9999, whose ISO text has a year of
    four digits: from 0000-01-01T00:00:00.000Z to 9999-12-31T23:59:59.999Z. *)
Definition four_digit_year (t : Z) : Prop :=
  -62167219200000 <= t <= 253402300799999.

(** A date as one number that orders dates as the calendar does. *)
Definition date_key (date : Z * Z * Z) : Z :=
  let '(y, m, d) := date in (y * 16 + m) * 32 + d.

(** The next day has a later date, in a month from 1 to 12 and on a day
    from 1 to 31. *)
Definition next_day_is_later (day : Z) : bool :=
  let '(y, m, d) := Date.civil_from_days (day + 1) in
  (date_key (Date.civil_from_days day) <? date_key (y, m, d)) &&
  (1 <=? m) && (m <=? 12) && (1 <=? d) && (d <=? 31).

(** The quotients that [civil_from_days] computes for a day. *)
Definition quotients (day : Z) : list Z :=
  let z := day + 719468 in
  let era := z / 146097 in
  let doe := z - era * 146097 in
  let yoe := (doe - doe / 1460 + doe / 36524 - doe / 146096) / 365 in
  let doy := doe - (365 * yoe + yoe / 4 - yoe / 100) in
  [era; doe / 1460; doe / 36524; doe / 146096; yoe; (5 * doy + 2) / 153].

Definition agree (p q : list Z) : bool :=
  forallb (fun c => fst c =? snd c) (combine p q).

(** The last day of a stretch of days from [a] with the quotients of [a]:
    the first of the days 30, 29, 28, 27, 16, 8, 4, 2 and 1 days on that
    has them, or [a] itself. *)
Definition stretch (a : Z) : Z :=
  let q := quotients a in
  match find (fun k => agree q (quotients (a + k))) [30; 29; 28; 27; 16; 8; 4; 2; 1] with
  | Some k => a + k
  | None => a
  end.

Definition in_calendar (day : Z) : bool :=
  let '(y, m, d) := Date.civil_from_days day in
  (1 <=? m) && (m <=? 12) && (1 <=? d) && (d <=? 31).

(** The day after [count] stretches from [a], when each stretch ends in
    the calendar and is followed by a later date. *)
Fixpoint walk (a : Z) (count : nat) : option Z :=
  match count with
  | O => Some a
  | S n =>
      let b := stretch a in
      if in_calendar b && next_day_is_later b then walk (b + 1) n else None
  end.

(* ================================================================== *)
(** * The runtime fragment at work *)
(* ================================================================== *)

Example numbers_of_strings :
  map StringToNumber
    ["6"; ""; "  12.5 "; "soon"; "0x1F"; "-Infinity"; "1e400"; "1e-400"; ".5"; "1e"]
  = [Fin 6%Q; Fin 0%Q; Fin (25 # 2); NaN; Fin 31%Q; NegInf; PosInf; Fin 0%Q;
     Fin (1 # 2); NaN].
Proof. reflexivity. Qed.

Example binary64_values :
  StringToNumber "0.1" = Fin (3602879701896397 # 36028797018963968) /\
  StringToNumber "9007199254740993" = Fin 9007199254740992%Q /\
  StringToNumber "1.7976931348623158e308" = Fin (inject_Z (2 ^ 1024 - 2 ^ 971)) /\
  StringToNumber "1.7976931348623159e308" = PosInf /\
  StringToNumber "2.5e-324" = Fin (1 # 2 ^ 1074) /\
  StringToNumber "2.4e-324" = Fin 0%Q.
Proof. repeat split; vm_compute; reflexivity. Qed.

Example one_decimal :
  map (fun s => toFixed1 (StringToNumber s))
    ["12.34"; "-1.5"; "0.05"; "-0.04"; "0"; "0.15"; "9.95"; "12.25"; "1e21"; "soon"]
  = ["12.3"; "-1.5"; "0.1"; "-0.0"; "0.0"; "0.1"; "9.9"; "12.3"; "1e+21"; "NaN"].
Proof. vm_compute. reflexivity. Qed.

Example texts_of_numbers :
  map (fun s => number_text (StringToNumber s))
    ["0"; "12"; "-12.50"; "0.0000001"; "1e21"; "0.1"; "1e23"; "5e-324";
     "123456789012345678901"; "Infinity"]
  = ["0"; "12"; "-12.5"; "1e-7"; "1e+21"; "0.1"; "1e+23"; "5e-324";
     "123456789012345680000"; "Infinity"] /\
  number_text (mul (StringToNumber "0.1") (Fin 3%Q)) = "0.30000000000000004".
Proof. split; vm_compute; reflexivity. Qed.

Example since_texts :
  map (fun h => Server.since_of 1736510400000 (StringToNumber h))
    ["24"; "0.0000001"; "1e-17"; "266679.4"; "-526848.48079"]
  = [Normal "2025-01-09T12:00:00.000Z"; Normal "2025-01-10T11:59:59.999Z";
     Normal "2025-01-10T12:00:00.000Z"; Normal "1994-08-09T20:35:59.999Z";
     Normal "2085-02-16T12:28:50.843Z"].
Proof. vm_compute. reflexivity. Qed.

Example iso_texts :
  map Date.iso_text [0; 1700000000000; -1; 951782400000; 8640000000000000]
  = ["1970-01-01T00:00:00.000Z"; "2023-11-14T22:13:20.000Z";
     "1969-12-31T23:59:59.999Z"; "2000-02-29T00:00:00.000Z";
     "+275760-09-13T00:00:00.000Z"].
Proof. reflexivity. Qed.

Example values_in_key_order :
  Object_values [("b", 1); ("10", 2); ("2", 3); ("a", 4); ("01", 5)] = [3; 2; 1; 4; 5].
Proof. reflexivity. Qed.

Example inherited_reads :
  get ([] : object document) "constructor" = Inherited /\
  get ([] : object document) "Unknown" = Missing.
Proof. split; reflexivity. Qed.

(* ================================================================== *)
(** * Facts about plain objects *)
(* ================================================================== *)

Module ObjectFacts.

Import Js.

Section Own.
Context {V : Type}.
Implicit Types (o : object V) (k : string) (v : V).

Lemma own_set_same o k v : own (set o k v) k = Some v.
Proof.
  induction o as [|[k' v'] o IH]; simpl.
  - now rewrite String.eqb_refl.
  - destruct (String.eqb k' k) eqn:E; simpl; rewrite E; auto.
Qed.

Lemma own_set_other o k k' v : k <> k' -> own (set o k v) k' = own o k'.
Proof.
  intros Hne. induction o as [|[k0 v0] o IH]; simpl.
  - destruct (String.eqb k k') eqn:E; auto.
    apply String.eqb_eq in E. contradiction.
  - destruct (String.eqb k0 k) eqn:E; simpl.
    + apply String.eqb_eq in E. subst k0.
      destruct (String.eqb k k') eqn:E'; auto.
      apply String.eqb_eq in E'. contradiction.
    + now rewrite IH.
Qed.

Lemma own_none_keys o k : own o k = None <-> ~ In k (keys o).
Proof.
  induction o as [|[k' v'] o IH]; simpl.
  - tauto.
  - destruct (String.eqb k' k) eqn:E.
    + apply String.eqb_eq in E. split; [discriminate | intros H; exfalso; auto].
    + apply String.eqb_neq in E. rewrite IH. tauto.
Qed.

Lemma set_fresh o k v : own o k = None -> set o k v = o ++ [(k, v)].
Proof.
  induction o as [|[k' v'] o IH]; simpl; auto.
  destruct (String.eqb k' k); [discriminate|].
  intros H. now rewrite IH.
Qed.

Lemma own_in o k v : own o k = Some v -> In (k, v) o.
Proof.
  induction o as [|[k' v'] o IH]; simpl; [discriminate|].
  destruct (String.eqb k' k) eqn:E.
  - apply String.eqb_eq in E. intros [= ->]. subst. now left.
  - auto.
Qed.

Lemma in_own o k v : NoDup (keys o) -> In (k, v) o -> own o k = Some v.
Proof.
  induction o as [|[k' v'] o IH]; simpl; [tauto|].
  intros Hnd [H|H].
  - injection H as -> ->. now rewrite String.eqb_refl.
  - inversion Hnd as [|? ? Hnotin Hnd']; subst.
    destruct (String.eqb k' k) eqn:E.
    + apply String.eqb_eq in E. subst k'.
      exfalso. apply Hnotin. unfold keys. change k with (fst (k, v)).
      now apply in_map.
    + auto.
Qed.

Lemma insert_index_perm i v (l : list (Z * V)) :
  Permutation (insert_index i v l) ((i, v) :: l).
Proof.
  induction l as [|[j w] l IH]; simpl; auto.
  destruct (i <? j); auto.
  rewrite IH. apply perm_swap.
Qed.

(** [Object.values] lists the own values, each once. *)
Lemma Object_values_perm o : Permutation (Object_values o) (map snd o).
Proof.
  unfold Object_values.
  induction o as [|[k v] o IH]; simpl; auto.
  destruct (array_index k).
  - rewrite insert_index_perm. simpl. now constructor.
  - rewrite <- Permutation_middle. now constructor.
Qed.
End Own.

Lemma NoDup_snoc {A : Type} (l : list A) x :
  NoDup l -> ~ In x l -> NoDup (l ++ [x]).
Proof.
  induction l as [|a l IH]; simpl; intros Hnd Hx.
  - constructor; auto.
  - inversion Hnd; subst. constructor.
    + rewrite in_app_iff. simpl. intuition congruence.
    + apply IH; auto.
Qed.

Lemma filter_perm {A : Type} (f : A -> bool) (l l' : list A) :
  Permutation l l' -> Permutation (filter f l) (filter f l').
Proof.
  induction 1; simpl; auto.
  - destruct (f x); auto.
  - destruct (f x), (f y); auto. apply perm_swap.
  - etransitivity; eauto.
Qed.

End ObjectFacts.

(* ================================================================== *)
(** * /api/latest: the newest document per location *)
(* ================================================================== *)

Module LatestFacts.

Import Js Cosmos Server ObjectFacts.

Lemma get_missing (o : object document) k :
  get o k = Missing <-> own o k = None /\ inherited k = false.
Proof.
  unfold get. destruct (own o k); [split; [discriminate | intros [? ?]; discriminate]|].
  destruct (inherited k); split; try discriminate; auto.
  intros [_ ?]; discriminate.
Qed.

Lemma own_fold_keep resources : forall (acc : object document) k,
  own (fold_left keep resources acc) k =
  match own acc k with
  | Some d => Some d
  | None => first_keyed k resources
  end.
Proof.
  unfold first_keyed.
  induction resources as [|a rs IH]; intros acc k; simpl.
  - destruct (own acc k); auto. now destruct (inherited k).
  - rewrite IH. unfold keep, keyed at 2.
    destruct (get acc (loc a)) eqn:G.
    + destruct (own acc k) eqn:O; auto.
      destruct (inherited k) eqn:I; auto.
      destruct (String.eqb (loc a) k) eqn:E; auto.
      apply String.eqb_eq in E. subst k.
      unfold get in G. rewrite O, I in G. discriminate.
    + destruct (own acc k) eqn:O; auto.
      destruct (inherited k) eqn:I; auto.
      destruct (String.eqb (loc a) k) eqn:E; auto.
      apply String.eqb_eq in E. subst k.
      unfold get in G. rewrite O, I in G. discriminate.
    + apply get_missing in G. destruct G as [O I].
      destruct (String.eqb (loc a) k) eqn:E.
      * apply String.eqb_eq in E. subst k.
        now rewrite own_set_same, O, I.
      * apply String.eqb_neq in E. now rewrite own_set_other.
  Qed.

Lemma keep_well_keyed o d : well_keyed o -> well_keyed (keep o d).
Proof.
  intros [Hnd Hk]. unfold keep.
  destruct (get o (loc d)) eqn:G; try (split; assumption).
  apply get_missing in G. destruct G as [O _].
  rewrite (set_fresh _ _ _ O). split.
  - unfold keys. rewrite map_app. simpl.
    apply NoDup_snoc; auto. now apply own_none_keys.
  - intros k d' Hin. apply in_app_or in Hin. destruct Hin as [Hin|[Hin|[]]].
    + eauto.
    + now injection Hin as <- <-.
Qed.

Lemma latestByLocation_well_keyed resources :
  well_keyed (latestByLocation resources).
Proof.
  unfold latestByLocation.
  assert (H : forall acc, well_keyed acc -> well_keyed (fold_left keep resources acc)).
  { induction resources as [|a rs IH]; simpl; auto.
    intros acc Hacc. apply IH. now apply keep_well_keyed. }
  apply H. split; [constructor | intros ? ? []].
Qed.

Lemma filter_keyed_values (o : object document) k :
  well_keyed o ->
  filter (keyed k) (map snd o) =
  match own o k with Some d => [d] | None => [] end.
Proof.
  intros [Hnd Hk].
  induction o as [|[k' d] o IH]; simpl; auto.
  inversion Hnd as [|? ? Hnotin Hnd']; subst.
  assert (Hk' : k' = loc d) by (apply Hk; now left).
  assert (IH' := IH Hnd' (fun k0 d0 H => Hk k0 d0 (or_intror H))).
  unfold keyed at 1. rewrite <- Hk'.
  destruct (String.eqb k' k) eqn:E.
  - apply String.eqb_eq in E. rewrite IH'.
    replace (own o k) with (@None document); [reflexivity|].
    symmetry. rewrite <- E. now apply own_none_keys.
  - exact IH'.
Qed.

(** The result holds, for each key, the first document of the sample keyed
    by it and no other, unless [Object.prototype] defines the key. *)
Lemma getLatest_keyed resources k :
  filter (keyed k) (getLatest resources) =
  match first_keyed k resources with Some d => [d] | None => [] end.
Proof.
  unfold getLatest.
  pose proof (filter_perm (keyed k) _ _
                (Object_values_perm (latestByLocation resources))) as P.
  rewrite (filter_keyed_values _ k (latestByLocation_well_keyed resources)) in P.
  unfold latestByLocation in P at 2. rewrite own_fold_keep in P. simpl in P.
  destruct (first_keyed k resources).
  - now apply Permutation_sym, Permutation_length_1_inv in P.
  - now apply Permutation_sym, Permutation_nil in P.
Qed.

Lemma in_getLatest resources d :
  In d (getLatest resources) <-> first_keyed (loc d) resources = Some d.
Proof.
  pose proof (getLatest_keyed resources (loc d)) as F.
  split.
  - intros Hin.
    assert (Hf : In d (filter (keyed (loc d)) (getLatest resources))).
    { apply filter_In. split; auto. unfold keyed. apply String.eqb_refl. }
    rewrite F in Hf. destruct (first_keyed (loc d) resources); simpl in Hf.
    + destruct Hf as [->|[]]. reflexivity.
    + contradiction.
  - intros E. rewrite E in F.
    assert (Hf : In d (filter (keyed (loc d)) (getLatest resources)))
      by (rewrite F; now left).
    now apply filter_In in Hf.
Qed.

(** A document found first precedes every other document of its key. *)
Lemma find_splits {A : Type} (f : A -> bool) l d :
  find f l = Some d ->
  exists pre post, l = pre ++ d :: post /\ f d = true /\
                   forall x, In x pre -> f x = false.
Proof.
  induction l as [|a l IH]; simpl; [discriminate|].
  destruct (f a) eqn:E.
  - intros [= ->]. exists [], l. simpl. repeat split; auto. intros ? [].
  - intros H. destruct (IH H) as (pre & post & -> & Hd & Hpre).
    exists (a :: pre), post. repeat split; auto.
    intros x [<-|Hx]; auto.
Qed.

End LatestFacts.

(* ================================================================== *)
(** * The store's order, and its sort *)
(* ================================================================== *)

Module OrderFacts.

Import Js Cosmos.

Lemma string_compare_refl s : String.compare s s = Datatypes.Eq.
Proof. now apply String_as_OT.cmp_eq. Qed.

Lemma string_le_trans a b c :
  not_gt (String.compare a b) = true -> not_gt (String.compare b c) = true ->
  not_gt (String.compare a c) = true.
Proof.
  intros Hab Hbc.
  destruct (String.compare a b) eqn:Eab; try discriminate;
  destruct (String.compare b c) eqn:Ebc; try discriminate.
  - apply String.compare_eq_iff in Eab, Ebc. subst. now rewrite string_compare_refl.
  - apply String.compare_eq_iff in Eab. subst. now rewrite Ebc.
  - apply String.compare_eq_iff in Ebc. subst. now rewrite Eab.
  - apply String_as_OT.cmp_lt in Eab, Ebc.
    pose proof (String_as_OT.lt_trans _ _ _ Eab Ebc) as H.
    apply String_as_OT.cmp_lt in H. unfold String_as_OT.cmp in H. now rewrite H.
Qed.

Lemma string_le_total a b :
  not_gt (String.compare a b) = true \/ not_gt (String.compare b a) = true.
Proof.
  rewrite (String.compare_antisym b a).
  destruct (String.compare a b); simpl; auto.
Qed.

Lemma numbers_le_trans a b c :
  not_gt (compare_numbers a b) = true -> not_gt (compare_numbers b c) = true ->
  not_gt (compare_numbers a c) = true.
Proof.
  destruct a as [| | |x], b as [| | |y], c as [| | |z]; simpl; try easy.
  intros Hxy Hyz.
  assert (Lxy : (x <= y)%Q) by (apply Qle_alt; intros E; now rewrite E in Hxy).
  assert (Lyz : (y <= z)%Q) by (apply Qle_alt; intros E; now rewrite E in Hyz).
  pose proof (Qle_trans _ _ _ Lxy Lyz) as L.
  destruct (x ?= z)%Q eqn:E; auto.
Qed.

Lemma numbers_le_total a b :
  not_gt (compare_numbers a b) = true \/ not_gt (compare_numbers b a) = true.
Proof.
  destruct a as [| | |x], b as [| | |y]; simpl; auto.
  rewrite <- (Qcompare_antisym x y). destruct (x ?= y)%Q; simpl; auto.
Qed.

Lemma order_leb_total a b : order_leb a b = true \/ order_leb b a = true.
Proof.
  unfold order_leb.
  destruct a as [| |x|x|x], b as [| |y|y|y]; simpl; auto.
  - destruct x, y; simpl; auto.
  - destruct (numbers_le_total x y) as [H|H]; [left|right];
      destruct (compare_numbers _ _); auto.
  - destruct (string_le_total x y) as [H|H]; [left|right];
      destruct (String.compare _ _); auto.
Qed.

Lemma order_leb_trans a b c :
  order_leb a b = true -> order_leb b c = true -> order_leb a c = true.
Proof.
  unfold order_leb.
  destruct a as [| |x|x|x], b as [| |y|y|y], c as [| |z|z|z]; simpl; try easy.
  - destruct x, y, z; simpl; easy.
  - intros Hxy Hyz. pose proof (numbers_le_trans x y z) as T.
    destruct (compare_numbers x y); try discriminate;
    destruct (compare_numbers y z); try discriminate;
    specialize (T eq_refl eq_refl); destruct (compare_numbers x z); auto.
  - intros Hxy Hyz. pose proof (string_le_trans x y z) as T.
    destruct (String.compare x y); try discriminate;
    destruct (String.compare y z); try discriminate;
    specialize (T eq_refl eq_refl); destruct (String.compare x z); auto.
Qed.

(** Insertion sort: a permutation, sorted for a total order. *)
Section SortFacts.
Context {A : Type} (leb : A -> A -> bool).
Hypothesis leb_total : forall a b, leb a b = true \/ leb b a = true.
Hypothesis leb_trans :
  forall a b c, leb a b = true -> leb b c = true -> leb a c = true.

Lemma insert_perm x l : Permutation (x :: l) (insert leb x l).
Proof.
  induction l as [|y l IH]; simpl; auto.
  destruct (leb x y); auto.
  rewrite perm_swap. now constructor.
Qed.

Lemma sort_perm l : Permutation l (sort leb l).
Proof.
  induction l as [|x l IH]; simpl; auto.
  rewrite <- insert_perm. now constructor.
Qed.

Lemma insert_sorted x l :
  StronglySorted (fun a b => leb a b = true) l ->
  StronglySorted (fun a b => leb a b = true) (insert leb x l).
Proof.
  induction 1 as [|y l Hl IH Hy]; simpl.
  - repeat constructor.
  - destruct (leb x y) eqn:E.
    + constructor; [now constructor|].
      constructor; [exact E|].
      rewrite Forall_forall in *. intros z Hz. eapply leb_trans; eauto.
    + constructor; auto.
      assert (Hyx : leb y x = true) by (destruct (leb_total x y); [congruence | auto]).
      rewrite Forall_forall in *. intros z Hz.
      apply (Permutation_in _ (Permutation_sym (insert_perm x l))) in Hz.
      destruct Hz as [<-|Hz]; auto.
Qed.

Lemma sort_sorted l : StronglySorted (fun a b => leb a b = true) (sort leb l).
Proof.
  induction l as [|x l IH]; simpl; [constructor | now apply insert_sorted].
Qed.
End SortFacts.

Lemma doc_leb_total o a b : doc_leb o a b = true \/ doc_leb o b a = true.
Proof. destruct o as [p [|]]; simpl; apply order_leb_total. Qed.

Lemma doc_leb_trans o a b c :
  doc_leb o a b = true -> doc_leb o b c = true -> doc_leb o a c = true.
Proof.
  destruct o as [p [|]]; simpl; intros H1 H2.
  - eapply order_leb_trans; eauto.
  - eapply order_leb_trans; eauto.
Qed.

Lemma in_firstn {A : Type} (x : A) n l : In x (firstn n l) -> In x l.
Proof.
  revert n. induction l as [|a l IH]; intros [|n]; simpl; try tauto.
  intros [H|H]; eauto.
Qed.

Lemma firstn_sorted {A : Type} (R : A -> A -> Prop) n l :
  StronglySorted R l -> StronglySorted R (firstn n l).
Proof.
  intros H. revert n. induction H as [|x l Hl IH Hx]; intros [|n]; simpl;
    try constructor; auto.
  rewrite Forall_forall in *. intros y Hy. apply Hx.
  eapply in_firstn; eauto.
Qed.

(** What a query selects is in the order it asks for. *)
Lemma select_sorted q items :
  StronglySorted (fun a b => doc_leb (orderBy q) a b = true) (select q items).
Proof.
  unfold select.
  pose proof (sort_sorted (doc_leb (orderBy q)) (doc_leb_total _) (doc_leb_trans _)
               (filter (fun d => defined (field (fst (orderBy q)) d)) (matching q items)))
    as S.
  destruct (top q); [now apply firstn_sorted | exact S].
Qed.

(** Without TOP, a query selects every matching document that defines the
    ordering field, each as often as the container holds it. *)
Lemma select_all q items :
  top q = None ->
  Permutation
    (filter (fun d => defined (field (fst (orderBy q)) d)) (matching q items))
    (select q items).
Proof.
  intros H. unfold select. rewrite H. apply sort_perm.
Qed.

End OrderFacts.

(* ================================================================== *)
(** * Properties of /api/latest *)
(* ================================================================== *)

Lemma sorted_after {A : Type} (R : A -> A -> Prop) pre x post :
  StronglySorted R (pre ++ x :: post) -> forall y, In y post -> R x y.
Proof.
  induction pre as [|a pre IH]; simpl; intros H y Hy.
  - inversion H as [|? ? _ Hall]; subst.
    rewrite Forall_forall in Hall. auto.
  - inversion H; subst. auto.
Qed.

Lemma find_keyed_some k d sample :
  In d sample -> Server.loc d = k ->
  exists first, find (keyed k) sample = Some first.
Proof.
  intros Hin Hk.
  destruct (find (keyed k) sample) eqn:F; eauto.
  exfalso. apply (find_none _ _ F) in Hin.
  unfold keyed in Hin. rewrite Hk, String.eqb_refl in Hin. discriminate.
Qed.

(** In a sample in descending order of window end, the first document of a
    key has the greatest window end among the documents of that key. *)
Lemma first_is_newest k sample first :
  StronglySorted
    (fun a b => Cosmos.order_leb (windowEnd b) (windowEnd a) = true) sample ->
  find (keyed k) sample = Some first ->
  forall d, In d sample -> Server.loc d = k ->
            Cosmos.order_leb (windowEnd d) (windowEnd first) = true.
Proof.
  intros Hs F d Hin Hk.
  destruct (LatestFacts.find_splits _ _ _ F) as (pre & post & -> & _ & Hpre).
  apply in_app_or in Hin. destruct Hin as [Hin|[<-|Hin]].
  - apply Hpre in Hin. unfold keyed in Hin.
    rewrite Hk, String.eqb_refl in Hin. discriminate.
  - destruct (OrderFacts.order_leb_total (windowEnd first) (windowEnd first)); auto.
  - exact (sorted_after _ _ _ _ Hs d Hin).
Qed.

(** C1.  The claim promises one entry for every location key of the sample.
    A sample whose newest document is located at "constructor" yields no
    entry for that key: [latestByLocation["constructor"]] reads the function
    inherited from [Object.prototype], which is truthy, so the document is
    never recorded.  The handler answers with the other locations only. *)
Theorem C1_inherited_key_is_dropped :
  let top := reading (Str "constructor") (Str "2025-01-10T12:10:00.000Z") in
  let dows := reading (Str "Dows Lake") (Str "2025-01-10T12:05:00.000Z") in
  let old := reading (Str "constructor") (Str "2025-01-10T12:00:00.000Z") in
  Cosmos.fetchAll Server.latestQuery (Cosmos.Reachable [dows; old; top])
    = Normal [top; dows; old] /\
  Server.getLatest [top; dows; old] = [dows] /\
  Server.api_latest (Cosmos.Reachable [dows; old; top]) = Server.json [dows] /\
  Server.getLatest [top] = [].
Proof. repeat split; reflexivity. Qed.

(** The newest document per location.  Whatever the container holds, the
    handler of /api/latest answers from a sample of at most 100 documents;
    its answer holds at most one document per location key; and for a key
    that [Object.prototype] does not define and that occurs in the sample,
    it holds exactly one, the first of that key in the sample, whose window
    end is the greatest among the sample's documents of that key. *)
Theorem latest_is_newest_per_location (items : list document) :
  exists sample,
    Cosmos.fetchAll Server.latestQuery (Cosmos.Reachable items) = Normal sample /\
    Server.api_latest (Cosmos.Reachable items) = Server.json (Server.getLatest sample) /\
    (length sample <= 100)%nat /\
    (forall k, (length (filter (keyed k) (Server.getLatest sample)) <= 1)%nat) /\
    (forall d, In d (Server.getLatest sample) -> In d sample) /\
    (forall k d, inherited k = false -> In d sample -> Server.loc d = k ->
       exists newest,
         filter (keyed k) (Server.getLatest sample) = [newest] /\
         find (keyed k) sample = Some newest /\
         Cosmos.order_leb (windowEnd d) (windowEnd newest) = true).
Proof.
  exists (Cosmos.select Server.latestQuery items).
  split; [reflexivity|]. split; [reflexivity|]. split; [|split; [|split]].
  - unfold Cosmos.select.
    change (Cosmos.top Server.latestQuery) with (Some 100%nat).
    cbv iota. apply firstn_le_length.
  - intros k. rewrite LatestFacts.getLatest_keyed.
    destruct (first_keyed k _); simpl; lia.
  - intros d Hin. apply LatestFacts.in_getLatest in Hin.
    unfold first_keyed in Hin.
    destruct (inherited (Server.loc d)); [discriminate|].
    now apply find_some in Hin.
  - intros k d Hk Hin Hloc.
    destruct (find_keyed_some k d _ Hin Hloc) as [newest F].
    exists newest. rewrite LatestFacts.getLatest_keyed.
    unfold first_keyed. rewrite Hk, F.
    repeat split; auto.
    eapply first_is_newest; eauto.
    exact (OrderFacts.select_sorted Server.latestQuery items).
Qed.

(** C9.  A document without a location, or with an empty one, is keyed
    "Unknown", as is a document located at the string "Unknown".  Of all the
    documents of a sample keyed "Unknown", the result holds the first in the
    sample's order and no other; so when the sample holds a document of each
    kind, at most one of the two is in the result. *)
Theorem C9_unknown_key_is_shared :
  (forall d, truthy (location d) = false -> Server.loc d = "Unknown") /\
  (forall d, location d = Undefined \/ location d = Str "" \/
             location d = Str "Unknown" -> Server.loc d = "Unknown") /\
  (forall sample,
     filter (keyed "Unknown") (Server.getLatest sample) =
     match find (keyed "Unknown") sample with
     | Some first => [first]
     | None => []
     end) /\
  (forall sample a b,
     In a sample -> In b sample ->
     location a = Undefined \/ location a = Str "" ->
     location b = Str "Unknown" ->
     exists first,
       find (keyed "Unknown") sample = Some first /\
       In first (Server.getLatest sample) /\
       (In a (Server.getLatest sample) -> a = first) /\
       (In b (Server.getLatest sample) -> b = first)).
Proof.
  assert (K1 : forall d, truthy (location d) = false -> Server.loc d = "Unknown").
  { intros d H. unfold Server.loc, or_else. now rewrite H. }
  assert (K2 : forall d, location d = Undefined \/ location d = Str "" \/
                         location d = Str "Unknown" -> Server.loc d = "Unknown").
  { intros d [H|[H|H]]; unfold Server.loc, or_else; now rewrite H. }
  assert (K3 : forall sample,
     filter (keyed "Unknown") (Server.getLatest sample) =
     match find (keyed "Unknown") sample with
     | Some first => [first]
     | None => []
     end).
  { intros sample. now rewrite LatestFacts.getLatest_keyed. }
  repeat split; auto.
  intros sample a b Ha Hb La Lb.
  assert (Ka : Server.loc a = "Unknown") by (apply K2; tauto).
  assert (Kb : Server.loc b = "Unknown") by (apply K2; tauto).
  destruct (find_keyed_some _ _ _ Ha Ka) as [first F].
  exists first. split; auto.
  assert (Only : forall x, In x (Server.getLatest sample) ->
                           Server.loc x = "Unknown" -> x = first).
  { intros x Hx Kx. apply LatestFacts.in_getLatest in Hx.
    unfold first_keyed in Hx. rewrite Kx in Hx. simpl in Hx.
    congruence. }
  split; [|split; auto].
  apply LatestFacts.in_getLatest.
  destruct (LatestFacts.find_splits _ _ _ F) as (_ & _ & _ & Kf & _).
  unfold keyed in Kf. apply String.eqb_eq in Kf.
  unfold first_keyed. rewrite Kf. exact F.
Qed.

(* ================================================================== *)
(** * Facts about numbers and time values *)
(* ================================================================== *)

Module NumberFacts.

Import Js Date.

Local Open Scope Q_scope.

Lemma Qle_bool_false x y : Qle_bool x y = false <-> y < x.
Proof.
  split.
  - intros H. apply Qnot_le_lt. intros L. apply Qle_bool_iff in L. congruence.
  - intros H. destruct (Qle_bool x y) eqn:E; auto.
    apply Qle_bool_iff in E. exfalso. exact (Qlt_not_le _ _ H E).
Qed.

(** ** Powers of two *)

Lemma two_neq_0 : ~ 2 == 0.
Proof. discriminate. Qed.

Lemma pow2_pos k : 0 < 2 ^ k.
Proof. apply Qpower_0_lt. reflexivity. Qed.

Lemma pow2_add j k : 2 ^ (j + k) == 2 ^ j * 2 ^ k.
Proof. apply Qpower_plus, two_neq_0. Qed.

Lemma pow2_le j k : (j <= k)%Z -> 2 ^ j <= 2 ^ k.
Proof. intros H. apply Qpower_le_compat_l; [exact H | discriminate]. Qed.

Lemma pow2_Z k : (0 <= k)%Z -> inject_Z (2 ^ k) == 2 ^ k.
Proof. intros H. now rewrite Zpower_Qpower. Qed.

Lemma pow2_lt j k : (j < k)%Z -> 2 ^ j < 2 ^ k.
Proof.
  intros H. replace k with (j + (k - j))%Z by lia. rewrite pow2_add.
  assert (P := pow2_pos j).
  assert (L : 2 <= 2 ^ (k - j)).
  { change 2 with (2 ^ 1) at 1. apply pow2_le. lia. }
  nra.
Qed.

Lemma Qmake_div n d : n # d == inject_Z n / inject_Z (Zpos d).
Proof. apply Qmake_Qdiv. Qed.

(** ** The exponent of a real *)

Lemma binary_exponent_le a : 0 < a -> 2 ^ binary_exponent a <= a.
Proof.
  intros Ha. unfold binary_exponent. destruct a as [n d]. cbn [Qnum Qden].
  assert (Hn : (0 < n)%Z) by (unfold Qlt in Ha; simpl in Ha; lia).
  destruct (Z.log2_spec n Hn) as [N1 _].
  destruct (Z.log2_spec (Zpos d) ltac:(lia)) as [_ D2].
  set (l1 := Z.log2 n) in *. set (l2 := Z.log2 (Zpos d)) in *.
  destruct (Qle_bool (2 ^ (l1 - l2)) (n # d)) eqn:E; [now apply Qle_bool_iff|].
  assert (L1 : (0 <= l1)%Z) by apply Z.log2_nonneg.
  assert (L2 : (0 <= l2)%Z) by apply Z.log2_nonneg.
  rewrite (Qmake_div n d). apply Qle_shift_div_l; [reflexivity|].
  apply Qle_trans with (2 ^ (l1 - l2 - 1) * 2 ^ (Z.succ l2)).
  - assert (P := pow2_pos (l1 - l2 - 1)).
    assert (D : inject_Z (Zpos d) <= 2 ^ Z.succ l2).
    { rewrite <- pow2_Z by lia. rewrite <- Zle_Qle. lia. }
    nra.
  - rewrite <- pow2_add. replace (l1 - l2 - 1 + Z.succ l2)%Z with l1 by lia.
    rewrite <- pow2_Z by lia. now rewrite <- Zle_Qle.
Qed.

(** ** The nearest integer *)

Lemma nearest_even_near x :
  inject_Z (nearest_even x) - x <= 1 # 2 /\ x - inject_Z (nearest_even x) <= 1 # 2.
Proof.
  unfold nearest_even.
  pose proof (Qfloor_le x) as L. pose proof (Qlt_floor x) as U.
  rewrite inject_Z_plus in U. change (inject_Z 1) with 1 in U.
  destruct (x - inject_Z (Qfloor x) ?= 1 # 2) eqn:C.
  - apply Qeq_alt in C.
    destruct (Z.even (Qfloor x)); [|rewrite inject_Z_plus; change (inject_Z 1) with 1];
      split; lra.
  - apply Qlt_alt in C. split; lra.
  - apply Qgt_alt in C. rewrite inject_Z_plus. change (inject_Z 1) with 1.
    split; lra.
Qed.

Lemma integers_apart i j : inject_Z i < inject_Z j + 1 -> (i <= j)%Z.
Proof.
  intros H. change 1 with (inject_Z 1) in H. rewrite <- inject_Z_plus in H.
  rewrite <- Zlt_Qlt in H. lia.
Qed.

Lemma nearest_even_ge j x : inject_Z j <= x -> (j <= nearest_even x)%Z.
Proof.
  intros H. destruct (nearest_even_near x) as [_ N].
  apply integers_apart. lra.
Qed.

Lemma nearest_even_le j x : x <= inject_Z j -> (nearest_even x <= j)%Z.
Proof.
  intros H. destruct (nearest_even_near x) as [N _].
  apply integers_apart. lra.
Qed.


(** ** Rounding a magnitude *)

Lemma tiny_pow : tiny == 2 ^ (-1075).
Proof. apply Qeq_alt. vm_compute. reflexivity. Qed.

Lemma roundoff_pow : roundoff == 2 ^ (-53).
Proof. apply Qeq_alt. reflexivity. Qed.

Lemma binary64_comp q q' : q == q' -> binary64 q -> binary64 q'.
Proof. intros E (m & k & M & K & V). exists m, k. now rewrite <- E. Qed.

Lemma binary64_opp q : binary64 q -> binary64 (- q).
Proof.
  intros (m & k & M & K & V). exists (- m)%Z, k. split; [lia|]. split; [lia|].
  rewrite V, inject_Z_opp. ring.
Qed.

Lemma binary64_0 : binary64 0.
Proof. exists 0%Z, 0%Z. split; [reflexivity|]. split; [lia | reflexivity]. Qed.

Lemma binary64_int z : (Z.abs z < 2 ^ 53)%Z -> binary64 (inject_Z z).
Proof.
  intros H. exists z, 0%Z. split; [exact H|]. split; [lia|].
  change (2 ^ 0) with 1. ring.
Qed.

(** A binary64 value above zero is 2^-1074 at least. *)
Lemma binary64_least d : binary64 d -> 0 < d -> 2 ^ (-1074) <= d.
Proof.
  intros (m & k & M & K & V) P. rewrite V in *.
  assert (Pk := pow2_pos k).
  assert (Hm : (1 <= m)%Z).
  { destruct (Z.le_gt_cases m 0) as [L|L]; [|lia].
    rewrite Zle_Qle in L. change (inject_Z 0) with 0 in L. nra. }
  rewrite Zle_Qle in Hm. change (inject_Z 1) with 1 in Hm.
  pose proof (pow2_le _ _ K). nra.
Qed.

(** A binary64 value is a multiple of the unit in the last place at an
    exponent [e], or it is below 2^e. *)
Lemma binary64_grid d e :
  binary64 d -> (-1022 <= e)%Z ->
  (exists j, d == inject_Z j * 2 ^ (e - 52)) \/
  ((-1022 < e)%Z /\ Qabs d < 2 ^ e).
Proof.
  intros (m & k & M & K & V) E.
  destruct (Z.le_gt_cases (e - 52) k) as [L|L].
  - left. exists (m * 2 ^ (k - (e - 52)))%Z.
    rewrite inject_Z_mult, pow2_Z by lia. rewrite V.
    rewrite <- Qmult_assoc, <- pow2_add.
    now replace (k - (e - 52) + (e - 52))%Z with k by lia.
  - right. split; [lia|]. rewrite V, Qabs_Qmult.
    rewrite (Qabs_pos (2 ^ k)) by (apply Qlt_le_weak, pow2_pos).
    assert (A : Qabs (inject_Z m) < 2 ^ 53).
    { rewrite <- pow2_Z by lia. change (Qabs (inject_Z m)) with (inject_Z (Z.abs m)).
      now rewrite <- Zlt_Qlt. }
    assert (P := pow2_pos k). pose proof (Qabs_nonneg (inject_Z m)) as N.
    apply Qlt_le_trans with (2 ^ 53 * 2 ^ k); [nra|].
    rewrite <- pow2_add. apply pow2_le. lia.
Qed.

Section Magnitude.

Variable a : Q.
Hypothesis a_pos : 0 < a.

Lemma ulp_pos : 0 < ulp a.
Proof. apply pow2_pos. Qed.

Lemma ratio : a / ulp a * ulp a == a.
Proof. field. pose proof ulp_pos. lra. Qed.

Lemma ulp_exponent :
  exists e, (-1022 <= e)%Z /\ ulp a = 2 ^ (e - 52) /\
            ((-1022 < e)%Z -> 2 ^ e <= a).
Proof.
  exists (Z.max (binary_exponent a) (-1022)). split; [lia|]. split; [reflexivity|].
  intros H. replace (Z.max (binary_exponent a) (-1022)) with (binary_exponent a) by lia.
  now apply binary_exponent_le.
Qed.

Lemma half_ulp : (1 # 2) * ulp a <= roundoff * a + tiny.
Proof.
  destruct ulp_exponent as (e & E & -> & X).
  replace (e - 52)%Z with (1 + (e - 53))%Z by lia.
  rewrite pow2_add. change (2 ^ 1) with 2.
  assert (R : 0 < roundoff) by reflexivity.
  assert (T : 0 < tiny) by reflexivity.
  assert (H : 2 ^ (e - 53) <= roundoff * a + tiny).
  { destruct (Z.eq_dec e (-1022)) as [->|N].
    - change (-1022 - 53)%Z with (-1075)%Z. rewrite <- tiny_pow. nra.
    - replace (e - 53)%Z with (-53 + e)%Z by lia.
      rewrite pow2_add, <- roundoff_pow.
      assert (2 ^ e <= a) by (apply X; lia). nra. }
  lra.
Qed.

Lemma round_magnitude_near :
  round_magnitude a - a <= roundoff * a + tiny /\
  a - round_magnitude a <= roundoff * a + tiny.
Proof.
  unfold round_magnitude.
  destruct (nearest_even_near (a / ulp a)) as [N1 N2].
  pose proof ulp_pos as U. pose proof ratio as R. pose proof half_ulp as H.
  split; nra.
Qed.

Lemma round_magnitude_ge d : binary64 d -> d <= a -> d <= round_magnitude a.
Proof.
  intros B L. unfold round_magnitude.
  pose proof ulp_pos as U. pose proof ratio as R.
  destruct ulp_exponent as (e & E & Eu & X).
  destruct (binary64_grid d e B E) as [[j J]|[E' S]].
  - rewrite <- Eu in J. rewrite J in *.
    assert (G : (j <= nearest_even (a / ulp a))%Z).
    { apply nearest_even_ge. apply Qle_shift_div_l; auto. }
    rewrite Zle_Qle in G. nra.
  - specialize (X E').
    assert (T : 2 ^ e == 2 ^ 52 * ulp a).
    { rewrite Eu, <- pow2_add. now replace (52 + (e - 52))%Z with e by lia. }
    assert (G : (2 ^ 52 <= nearest_even (a / ulp a))%Z).
    { apply nearest_even_ge. apply Qle_shift_div_l; auto.
      rewrite pow2_Z by lia. now rewrite <- T. }
    rewrite Zle_Qle, pow2_Z in G by lia.
    apply Qabs_Qlt_condition in S. nra.
Qed.

Lemma round_magnitude_le d : binary64 d -> a <= d -> round_magnitude a <= d.
Proof.
  intros B L. unfold round_magnitude.
  pose proof ulp_pos as U. pose proof ratio as R.
  destruct ulp_exponent as (e & E & Eu & X).
  destruct (binary64_grid d e B E) as [[j J]|[E' S]].
  - rewrite <- Eu in J. rewrite J in *.
    assert (G : (nearest_even (a / ulp a) <= j)%Z).
    { apply nearest_even_le. apply Qle_shift_div_r; auto. }
    rewrite Zle_Qle in G. nra.
  - exfalso. specialize (X E').
    apply Qabs_Qlt_condition in S. lra.
Qed.

End Magnitude.

(** ** Storing a real *)

Lemma tiny_lt_least : tiny < 2 ^ (-1074).
Proof. rewrite tiny_pow. apply pow2_lt. lia. Qed.

Lemma binary64_small d : binary64 d -> d <= tiny -> d <= 0.
Proof.
  intros B L. destruct (Qlt_le_dec 0 d) as [P|N]; [|exact N].
  pose proof (binary64_least d B P). pose proof tiny_lt_least. lra.
Qed.

(** What is stored for a real below the overflow threshold lies on the same
    side of every binary64 value as the real, and near the real. *)
Lemma fl_Fin q :
  Qabs q < huge ->
  exists r, fl q = Fin r /\
    (forall d, binary64 d -> d <= q -> d <= r) /\
    (forall d, binary64 d -> q <= d -> r <= d) /\
    r - q <= roundoff * Qabs q + tiny /\
    q - r <= roundoff * Qabs q + tiny.
Proof.
  intros H. unfold fl.
  pose proof (Qred_correct q) as E. set (q' := Qred q) in *.
  pose proof (Qabs_wd _ _ E) as Ea.
  change (inject_Z overflow_threshold) with huge.
  change (1 # underflow_denominator) with tiny.
  assert (T1 : Qle_bool huge (Qabs q') = false).
  { apply Qle_bool_false. now rewrite Ea. }
  rewrite T1.
  assert (R : 0 < roundoff) by reflexivity.
  assert (T : 0 < tiny) by reflexivity.
  pose proof (Qabs_nonneg q) as A0.
  destruct (Qle_bool (Qabs q') tiny) eqn:T2.
  - apply Qle_bool_iff in T2. rewrite Ea in T2.
    pose proof (Qle_Qabs q) as U1.
    assert (U2 : - q <= Qabs q) by (rewrite <- Qabs_opp; apply Qle_Qabs).
    exists 0. split; [reflexivity|]. split; [|split; [|split]].
    + intros d B L. apply binary64_small; [exact B | lra].
    + intros d B L. apply binary64_opp in B.
      assert (- d <= 0) by (apply binary64_small; [exact B | lra]). lra.
    + nra.
    + nra.
  - apply Qle_bool_false in T2.
    exists (Qred (round53 q')). split; [reflexivity|].
    pose proof (Qred_correct (round53 q')) as Er.
    set (r := Qred (round53 q')) in *. clearbody r. unfold round53 in Er.
    destruct (Qle_bool 0 q') eqn:S.
    + apply Qle_bool_iff in S.
      assert (Eq : Qabs q' == q) by (rewrite Qabs_pos; auto).
      assert (P : 0 < Qabs q') by lra.
      destruct (round_magnitude_near _ P) as [N1 N2].
      rewrite <- Ea. split; [|split; [|split]]; try lra.
      * intros d B L. pose proof (round_magnitude_ge _ P d B). lra.
      * intros d B L. pose proof (round_magnitude_le _ P d B). lra.
    + apply Qle_bool_false in S.
      assert (Eq : Qabs q' == - q) by (rewrite Qabs_neg; lra).
      assert (P : 0 < Qabs q') by lra.
      destruct (round_magnitude_near _ P) as [N1 N2].
      rewrite <- Ea. split; [|split; [|split]]; try lra.
      * intros d B L. apply binary64_opp in B.
        pose proof (round_magnitude_le _ P (- d) B). lra.
      * intros d B L. apply binary64_opp in B.
        pose proof (round_magnitude_ge _ P (- d) B). lra.
Qed.

(** A binary64 value is stored as it is. *)
Lemma fl_binary64 q :
  binary64 q -> Qabs q < huge -> exists r, fl q = Fin r /\ r == q.
Proof.
  intros B H. destruct (fl_Fin q H) as (r & E & G & L & _).
  exists r. split; [exact E|].
  pose proof (G q B (Qle_refl q)). pose proof (L q B (Qle_refl q)). lra.
Qed.

Lemma int_abs z b : (Z.abs z <= b)%Z -> Qabs (inject_Z z) <= inject_Z b.
Proof.
  intros H. change (Qabs (inject_Z z)) with (inject_Z (Z.abs z)).
  now rewrite <- Zle_Qle.
Qed.

Lemma safe_lt_huge : inject_Z (2 ^ 54) < huge.
Proof. apply Qlt_alt. vm_compute. reflexivity. Qed.

Lemma fl_int q z :
  q == inject_Z z -> (Z.abs z < 2 ^ 53)%Z -> exists r, fl q = Fin r /\ r == inject_Z z.
Proof.
  intros E H.
  destruct (fl_binary64 q) as (r & F & V).
  - apply (binary64_comp (inject_Z z)); [now symmetry | now apply binary64_int].
  - rewrite (Qabs_wd _ _ E).
    eapply Qle_lt_trans; [apply (int_abs z (2 ^ 53)); lia|].
    eapply Qlt_trans; [|exact safe_lt_huge]. rewrite <- Zlt_Qlt. lia.
  - exists r. split; [exact F | now rewrite V].
Qed.

(** ** Numerals *)

Lemma roundoff_value : roundoff = 1 # 9007199254740992.
Proof. reflexivity. Qed.

Lemma tiny_le : tiny <= 1 # 100000000000000000000.
Proof. apply Qle_bool_iff. vm_compute. reflexivity. Qed.

Lemma huge_ge : 100000000000000000 <= huge.
Proof. apply Qle_bool_iff. vm_compute. reflexivity. Qed.

(** Storing a real of a magnitude up to [c]. *)
Lemma fl_within q c :
  - c <= q -> q <= c -> c <= 100000000000000000 - 1 ->
  exists r, fl q = Fin r /\
    (forall d, binary64 d -> d <= q -> d <= r) /\
    (forall d, binary64 d -> q <= d -> r <= d) /\
    r - q <= roundoff * c + tiny /\
    q - r <= roundoff * c + tiny.
Proof.
  intros L U B.
  assert (A : Qabs q <= c) by (apply Qabs_Qle_condition; split; assumption).
  destruct (fl_Fin q) as (r & E & G1 & G2 & N1 & N2).
  { pose proof huge_ge. lra. }
  exists r. split; [exact E|]. split; [exact G1|]. split; [exact G2|].
  assert (R : 0 < roundoff) by reflexivity.
  split; nra.
Qed.

(** ** [hours * 60 * 60 * 1000] *)

Lemma milliseconds h H :
  - H <= h -> h <= H -> H * 3600000 <= 20000000000000000 ->
  exists x,
    mul (mul (mul (Fin h) (Fin 60)) (Fin 60)) (Fin 1000) = Fin x /\
    x - h * 3600000 <= H * (3600000 # 2251799813685248) + (1 # 1000000000) /\
    h * 3600000 - x <= H * (3600000 # 2251799813685248) + (1 # 1000000000) /\
    (h <= 0 -> x <= 0) /\ (0 <= h -> 0 <= x).
Proof.
  intros L U B.
  pose proof tiny_le as T. assert (T0 : 0 < tiny) by reflexivity.
  pose proof binary64_0 as Z.
  destruct (fl_within (h * 60) (H * 60)) as (r1 & E1 & G1 & L1 & N1 & M1);
    [lra | lra | lra |].
  destruct (fl_within (r1 * 60) (H * 3601 + 1)) as (r2 & E2 & G2 & L2 & N2 & M2);
    [rewrite roundoff_value in *; lra .. |].
  destruct (fl_within (r2 * 1000) (H * 3601000 + 1)) as (r3 & E3 & G3 & L3 & N3 & M3);
    [rewrite roundoff_value in *; lra .. |].
  exists r3. cbn [mul]. rewrite E1. cbn [mul]. rewrite E2. cbn [mul].
  split; [exact E3|].
  split; [rewrite roundoff_value in *; lra|].
  split; [rewrite roundoff_value in *; lra|].
  split.
  - intros S.
    assert (r1 <= 0) by (apply L1; [exact Z | lra]).
    assert (r2 <= 0) by (apply L2; [exact Z | lra]).
    apply L3; [exact Z | lra].
  - intros S.
    assert (0 <= r1) by (apply G1; [exact Z | lra]).
    assert (0 <= r2) by (apply G2; [exact Z | lra]).
    apply G3; [exact Z | lra].
Qed.

(** ** Truncation *)

Lemma is_neg_spec q : is_neg q = true <-> q < 0.
Proof. unfold is_neg. rewrite negb_true_iff. apply Qle_bool_false. Qed.

Lemma is_neg_false q : is_neg q = false <-> 0 <= q.
Proof. unfold is_neg. rewrite negb_false_iff. apply Qle_bool_iff. Qed.

Lemma truncate_comp q q' : q == q' -> truncate q = truncate q'.
Proof.
  intros E. unfold truncate, is_neg.
  rewrite (Qleb_comp 0 0 (Qeq_refl 0) q q' E).
  rewrite (Qfloor_comp q q' E).
  assert (E' : - q == - q') by now rewrite E.
  now rewrite (Qfloor_comp _ _ E').
Qed.

Lemma floor_ge n w : inject_Z n <= w -> (n <= Qfloor w)%Z.
Proof. intros H. rewrite <- (Qfloor_Z n). now apply Qfloor_resp_le. Qed.

Lemma floor_le n w : w <= inject_Z n -> (Qfloor w <= n)%Z.
Proof. intros H. rewrite <- (Qfloor_Z n). now apply Qfloor_resp_le. Qed.

(** An integer below a real is below its integral part, when either is
    below; likewise above. *)
Lemma truncate_ge n w : inject_Z n <= w -> (n <= truncate w)%Z.
Proof.
  intros H. unfold truncate. destruct (is_neg w) eqn:N.
  - assert (L : (Qfloor (- w) <= - n)%Z).
    { apply floor_le. rewrite inject_Z_opp. lra. }
    lia.
  - now apply floor_ge.
Qed.

Lemma truncate_le n w : w <= inject_Z n -> (truncate w <= n)%Z.
Proof.
  intros H. unfold truncate. destruct (is_neg w) eqn:N.
  - assert (L : (- n <= Qfloor (- w))%Z).
    { apply floor_ge. rewrite inject_Z_opp. lra. }
    lia.
  - now apply floor_le.
Qed.

(** The integral part is less than one away. *)
Lemma truncate_near w :
  w - 1 < inject_Z (truncate w) /\ inject_Z (truncate w) < w + 1.
Proof.
  unfold truncate. destruct (is_neg w) eqn:N.
  - pose proof (Qfloor_le (- w)) as L. pose proof (Qlt_floor (- w)) as U.
    rewrite inject_Z_plus in U. change (inject_Z 1) with 1 in U.
    rewrite inject_Z_opp. split; lra.
  - pose proof (Qfloor_le w) as L. pose proof (Qlt_floor w) as U.
    rewrite inject_Z_plus in U. change (inject_Z 1) with 1 in U.
    split; lra.
Qed.

(** ** The date [Date.now() - hours * 60 * 60 * 1000] *)

Lemma max_time_value : inject_Z max_time = 8640000000000000.
Proof. reflexivity. Qed.

Lemma time_binary64 z : (Z.abs z <= max_time + 1)%Z -> binary64 (inject_Z z).
Proof. intros H. apply binary64_int. unfold max_time in H. lia. Qed.

Lemma since_within now h :
  (Z.abs now <= max_time)%Z ->
  0 <= h \/ inject_Z now - h * 3600000 <= inject_Z max_time - 8 ->
  h <= 0 \/ - (inject_Z max_time - 8) <= inject_Z now - h * 3600000 ->
  exists T,
    Server.since_of now (Fin h) = Normal (iso_text T) /\
    (Z.abs T <= max_time)%Z /\
    Qabs (inject_Z T - (inject_Z now - h * 3600000))
      < 2 + Qabs h * (3600000 # 2251799813685248) /\
    (h <= 0 -> (now <= T)%Z) /\
    (0 <= h -> (T <= now)%Z) /\
    (h * 3600000 <= - 2 -> (now < T)%Z) /\
    (2 <= h * 3600000 -> (T < now)%Z).
Proof.
  intros Hn Hup Hlo.
  pose proof (int_abs now _ Hn) as Qn. rewrite max_time_value in *.
  apply Qabs_Qle_condition in Qn.
  set (H := Qabs h).
  assert (Hh : - H <= h /\ h <= H /\ (H == h \/ H == - h)).
  { unfold H. destruct (Qlt_le_dec h 0) as [N|P].
    - rewrite Qabs_neg by lra. repeat split; try lra.
    - rewrite Qabs_pos by lra. repeat split; try lra. }
  destruct Hh as (H1 & H2 & H3).
  assert (HB : H * 3600000 <= 17280000000000000)
    by (destruct H3 as [-> | ->]; destruct Hup, Hlo; lra).
  destruct (milliseconds h H H1 H2) as (x & Ex & X1 & X2 & X3 & X4); [lra|].
  destruct (fl_int (inject_Z now) now (Qeq_refl _)) as (rn & En & Vn).
  { unfold max_time in Hn. lia. }
  pose proof tiny_le as T. assert (T0 : 0 < tiny) by reflexivity.
  assert (Y : - (8640000000000000) <= rn - x /\ rn - x <= 8640000000000000).
  { split.
    - destruct Hlo as [S0|S0]; [specialize (X3 S0)|]; lra.
    - destruct Hup as [S0|S0]; [specialize (X4 S0)|]; lra. }
  destruct Y as [Y1 Y2].
  destruct (fl_within (rn - x) 8640000000000000) as (r & Er & G & L & N1 & N2);
    [lra | lra | lra |].
  rewrite roundoff_value in N1, N2.
  assert (Bmax : binary64 8640000000000000).
  { rewrite <- max_time_value. apply time_binary64. unfold max_time. lia. }
  pose proof (binary64_opp _ Bmax) as Bmin.
  assert (R1 : r <= 8640000000000000) by (apply L; [exact Bmax | lra]).
  assert (R2 : - (8640000000000000) <= r) by (apply G; [exact Bmin | lra]).
  exists (truncate r).
  assert (S : Server.since_of now (Fin h) = Normal (iso_text (truncate r))).
  { unfold Server.since_of. rewrite Ex. unfold of_Z. rewrite En.
    cbn [sub]. rewrite Er. unfold toISOString, TimeClip.
    assert (C : Qle_bool (Qabs r) (inject_Z max_time) = true).
    { apply Qle_bool_iff. rewrite max_time_value.
      apply Qabs_Qle_condition. split; assumption. }
    now rewrite C. }
  split; [exact S|].
  destruct (truncate_near r) as [K1 K2].
  split; [|split; [|split; [|split; [|split]]]].
  - assert (A1 : (truncate r <= max_time)%Z).
    { apply truncate_le. rewrite max_time_value. exact R1. }
    assert (A2 : (- max_time <= truncate r)%Z).
    { apply truncate_ge. rewrite inject_Z_opp, max_time_value. exact R2. }
    lia.
  - fold H. apply Qabs_Qlt_condition. split; lra.
  - intros S0. apply truncate_ge. apply G; [now apply time_binary64; lia|].
    specialize (X3 S0). lra.
  - intros S0. apply truncate_le. apply L; [now apply time_binary64; lia|].
    specialize (X4 S0). lra.
  - intros S0.
    assert (A : (now + 1 <= truncate r)%Z).
    { apply truncate_ge. apply G; [apply time_binary64; lia|].
      rewrite inject_Z_plus. change (inject_Z 1) with 1.
      assert (H == - h) by (destruct H3 as [E|E]; [lra | exact E]). lra. }
    lia.
  - intros S0.
    assert (A : (truncate r <= now - 1)%Z).
    { apply truncate_le. apply L; [apply time_binary64; lia|].
      unfold Z.sub. rewrite inject_Z_plus, inject_Z_opp. change (inject_Z 1) with 1.
      assert (H == h) by (destruct H3 as [E|E]; [exact E | lra]). lra. }
    lia.
Qed.

Lemma truncate_int q z : q == inject_Z z -> truncate q = z.
Proof.
  intros E. rewrite (truncate_comp _ _ E).
  unfold truncate. destruct (is_neg (inject_Z z)).
  - rewrite <- inject_Z_opp, Qfloor_Z. lia.
  - apply Qfloor_Z.
Qed.

(** The date when the milliseconds to take off are a whole number. *)
Lemma since_of_whole now hours x k :
  mul (mul (mul hours (Fin 60)) (Fin 60)) (Fin 1000) = Fin x ->
  x == inject_Z k ->
  (Z.abs now <= max_time)%Z -> (Z.abs (now - k) <= max_time)%Z ->
  Server.since_of now hours = Normal (iso_text (now - k)).
Proof.
  intros Ex Vx Hn Hw.
  destruct (fl_int (inject_Z now) now (Qeq_refl _)) as (rn & En & Vn).
  { unfold max_time in Hn. lia. }
  assert (V : rn - x == inject_Z (now - k)).
  { unfold Z.sub. rewrite inject_Z_plus, inject_Z_opp, Vn, Vx. ring. }
  destruct (fl_int (rn - x) (now - k) V) as (r & Er & Vr).
  { unfold max_time in Hw. lia. }
  unfold Server.since_of. rewrite Ex. unfold of_Z. rewrite En.
  cbn [sub]. rewrite Er. unfold toISOString, TimeClip.
  assert (C : Qle_bool (Qabs r) (inject_Z max_time) = true).
  { apply Qle_bool_iff. rewrite (Qabs_wd _ _ Vr). now apply int_abs. }
  rewrite C. now rewrite (truncate_int _ _ Vr).
Qed.

End NumberFacts.

(* ================================================================== *)
(** * /api/history: the documents of a time window *)
(* ================================================================== *)

Module HistoryFacts.

Import Js Cosmos Server.

Lemma compare_eq_eqb s l :
  match String.compare s l with Datatypes.Eq => true | _ => false end = String.eqb s l.
Proof.
  destruct (String.eqb s l) eqn:E.
  - apply String.eqb_eq in E. subst. now rewrite OrderFacts.string_compare_refl.
  - destruct (String.compare s l) eqn:C; auto.
    apply String.compare_eq_iff in C. subst. now rewrite String.eqb_refl in E.
Qed.

Lemma ge_is_leb w since :
  match String.compare w since with Lt => false | _ => true end = String.leb since w.
Proof.
  unfold String.leb. rewrite (String.compare_antisym w since).
  now destruct (String.compare since w).
Qed.

Lemma matching_wanted ql since items :
  matching (historyQuery (or_else (param ql) (Str "")) since) items =
  filter (wanted ql since) items.
Proof.
  unfold matching. apply filter_ext. intros d.
  unfold wanted, on_or_after, located.
  destruct ql as [[|c l]|]; simpl.
  - destruct (windowEnd d); simpl; auto.
    rewrite ge_is_leb. now rewrite andb_true_r.
  - destruct (windowEnd d) as [| | | |w]; simpl; auto.
    rewrite ge_is_leb.
    destruct (location d) as [| | | |s]; simpl;
      try (now rewrite andb_false_r).
    rewrite andb_true_r. now rewrite <- compare_eq_eqb.
  - destruct (windowEnd d); simpl; auto.
    rewrite ge_is_leb. now rewrite andb_true_r.
Qed.

Lemma wanted_defined ql since d :
  wanted ql since d = true -> defined (windowEnd d) = true.
Proof.
  unfold wanted, on_or_after. destruct (windowEnd d); simpl; auto; discriminate.
Qed.

Lemma filter_implied {A : Type} (f g : A -> bool) l :
  (forall x, f x = true -> g x = true) -> filter g (filter f l) = filter f l.
Proof.
  intros H. induction l as [|a l IH]; simpl; auto.
  destruct (f a) eqn:E; auto. simpl. rewrite (H a E). now rewrite IH.
Qed.

Lemma sorted_among {A : Type} (P : A -> Prop) (R R' : A -> A -> Prop) l :
  (forall a b, P a -> P b -> R a b -> R' a b) ->
  Forall P l -> StronglySorted R l -> StronglySorted R' l.
Proof.
  intros H HP HS. induction HS as [|a l HS IH Ha]; [constructor|].
  inversion HP as [|? ? Pa Pl]; subst.
  constructor; auto.
  rewrite Forall_forall in *. intros b Hb. apply H; auto.
Qed.

(** What the history query selects: every wanted document, as often as the
    container holds it, in ascending order of window end. *)
Lemma history_select ql since items :
  let body := select (historyQuery (or_else (param ql) (Str "")) since) items in
  Permutation (filter (wanted ql since) items) body /\
  StronglySorted ascending body /\
  (forall d, In d body -> wanted ql since d = true).
Proof.
  intros body.
  set (q := historyQuery (or_else (param ql) (Str "")) since) in *.
  assert (P : Permutation (filter (wanted ql since) items) body).
  { pose proof (OrderFacts.select_all q items eq_refl) as P.
    unfold q in P at 2. rewrite matching_wanted in P.
    rewrite filter_implied in P; [exact P|].
    intros d. apply wanted_defined. }
  assert (W : forall d, In d body -> wanted ql since d = true).
  { intros d Hd. apply (Permutation_in _ (Permutation_sym P)) in Hd.
    now apply filter_In in Hd. }
  split; [exact P|]. split; [|exact W].
  apply (sorted_among (fun d => wanted ql since d = true)
           (fun a b => doc_leb (orderBy q) a b = true)).
  - intros a b Ha Hb. unfold ascending. simpl.
    unfold wanted, on_or_after in Ha, Hb.
    destruct (windowEnd a) as [| | | |x]; try discriminate.
    destruct (windowEnd b) as [| | | |y]; try discriminate.
    intros L. exists x, y. repeat split. unfold order_leb in L. simpl in L.
    unfold String.leb. now destruct (String.compare x y).
  - apply Forall_forall. exact W.
  - apply OrderFacts.select_sorted.
Qed.

Lemma wanted_window ql since d :
  wanted ql since d = true ->
  exists w, windowEnd d = Str w /\ String.leb since w = true.
Proof.
  unfold wanted, on_or_after. intros H. apply andb_prop in H. destruct H as [H _].
  destruct (windowEnd d); try discriminate. eauto.
Qed.

Lemma wanted_location l since d :
  l <> "" -> wanted (Some l) since d = true -> location d = Str l.
Proof.
  unfold wanted, located. intros Hl H. apply andb_prop in H. destruct H as [_ H].
  destruct l as [|c l]; [congruence|].
  destruct (location d); try discriminate.
  apply String.eqb_eq in H. now subst.
Qed.

(** The handler's answer when the date is valid. *)
Lemma api_history_answer ql qh now c since :
  since_of now (hours_of qh) = Normal since ->
  api_history ql qh now c =
  match c with
  | Reachable items =>
      json (select (historyQuery (or_else (param ql) (Str "")) since) items)
  | Unreachable => status500 "Failed to fetch history"
  end.
Proof.
  intros H. unfold api_history. rewrite H. now destruct c.
Qed.

Lemma hours_of_number s h :
  Number (Str s) = Fin h -> ~ (h == 0)%Q -> hours_of (Some s) = Fin h.
Proof.
  intros E N. unfold hours_of. simpl param. rewrite E. simpl.
  destruct (is_zero h) eqn:Z; auto.
  unfold is_zero in Z. apply Qeq_bool_eq in Z. contradiction.
Qed.

End HistoryFacts.

(* ================================================================== *)
(** * Properties of /api/history *)
(* ================================================================== *)

Lemma six_hours :
  mul (mul (mul (Fin 6%Q) (Fin 60%Q)) (Fin 60%Q)) (Fin 1000%Q) = Fin 21600000%Q.
Proof. vm_compute. reflexivity. Qed.

(** C7.  A value of [hours] that does not coerce to a non-zero number is
    replaced by 6: the handler answers as for [hours=6], and for any clock
    reading from which six hours can be taken it answers with the window's
    documents, or with status 500 when the store fails; no exception leaves
    the handler. *)
Theorem C7_hours_falls_back_to_six
    (ql : option string) (s : string) (now : Z) (c : Cosmos.container) :
  truthy (Num (Number (Str s))) = false ->
  Server.hours_of (Some s) = Fin 6%Q /\
  Server.api_history ql (Some s) now c = Server.api_history ql (Some "6") now c /\
  ((- Date.max_time + 21600000 <= now <= Date.max_time)%Z ->
   Server.api_history ql (Some s) now c =
   match c with
   | Cosmos.Reachable items =>
       Server.json
         (Cosmos.select
            (Server.historyQuery (or_else (Server.param ql) (Str ""))
               (Date.iso_text (now - 21600000))) items)
   | Cosmos.Unreachable => Server.status500 "Failed to fetch history"
   end).
Proof.
  intros F.
  assert (H6 : Server.hours_of (Some s) = Fin 6%Q).
  { unfold Server.hours_of. simpl Server.param. now rewrite F. }
  assert (H6' : Server.hours_of (Some "6") = Fin 6%Q) by reflexivity.
  split; [exact H6|]. split.
  - unfold Server.api_history. now rewrite H6, H6'.
  - intros Hn. apply HistoryFacts.api_history_answer. rewrite H6.
    apply (NumberFacts.since_of_whole now (Fin 6%Q) _ 21600000 six_hours).
    + reflexivity.
    + unfold Date.max_time in *. lia.
    + unfold Date.max_time in *. lia.
Qed.

Lemma C7_witness :
  Server.api_history None (Some "soon") noon (Cosmos.Reachable canal)
  = Server.api_history None (Some "6") noon (Cosmos.Reachable canal).
Proof.
  exact (proj1 (proj2 (C7_hours_falls_back_to_six None "soon" noon
                         (Cosmos.Reachable canal) eq_refl))).
Defined.

(* ================================================================== *)
(** * Facts about the text of numbers *)
(* ================================================================== *)

Module TextFacts.

Import Js.

Lemma log2_tenth z : 10 <= z -> Z.log2 (z / 10) < Z.log2 z.
Proof.
  intros H.
  assert (P : 0 < z / 10) by (apply Z.div_str_pos; lia).
  apply Z.log2_lt_pow2; auto.
  destruct (Z.log2_spec z ltac:(lia)) as [_ U].
  rewrite Z.pow_succ_r in U by apply Z.log2_nonneg.
  apply Z.div_lt_upper_bound; lia.
Qed.

Lemma pos_digits_acc fuel : forall z acc,
  (Z.to_nat (Z.log2 z) < fuel)%nat ->
  pos_digits fuel z acc = pos_digits fuel z [] ++ acc.
Proof.
  induction fuel as [|f IH]; intros z acc Hf; [lia|].
  simpl. destruct (z <? 10) eqn:E; [reflexivity|].
  apply Z.ltb_ge in E.
  pose proof (log2_tenth z E) as L.
  pose proof (Z.log2_nonneg (z / 10)) as N.
  rewrite IH by lia.
  rewrite (IH (z / 10) [digit_char (z mod 10)]) by lia.
  now rewrite <- app_assoc.
Qed.

Lemma pos_digits_fuel f1 : forall f2 z,
  (Z.to_nat (Z.log2 z) < f1)%nat -> (Z.to_nat (Z.log2 z) < f2)%nat ->
  pos_digits f1 z [] = pos_digits f2 z [].
Proof.
  induction f1 as [|f1 IH]; intros [|f2] z H1 H2; try lia.
  simpl. destruct (z <? 10) eqn:E; [reflexivity|].
  apply Z.ltb_ge in E.
  pose proof (log2_tenth z E) as L.
  pose proof (Z.log2_nonneg (z / 10)) as N.
  rewrite (pos_digits_acc f1), (pos_digits_acc f2) by lia.
  now rewrite (IH f2) by lia.
Qed.

Lemma pos_digits_enough fuel z acc :
  (Z.to_nat (Z.log2 z) < fuel)%nat ->
  pos_digits fuel z acc = nat_digits z ++ acc.
Proof.
  intros H. rewrite pos_digits_acc by auto. unfold nat_digits.
  now rewrite (pos_digits_fuel fuel (S (Z.to_nat (Z.log2 z)))) by lia.
Qed.

Lemma nat_digits_small z : z < 10 -> nat_digits z = [digit_char z].
Proof.
  intros H. unfold nat_digits. simpl.
  apply Z.ltb_lt in H. now rewrite H.
Qed.

Lemma nat_digits_step z :
  10 <= z -> nat_digits z = nat_digits (z / 10) ++ [digit_char (z mod 10)].
Proof.
  intros H. unfold nat_digits at 1. simpl.
  apply Z.ltb_ge in H. rewrite H. apply Z.ltb_ge in H.
  apply pos_digits_enough.
  pose proof (log2_tenth z H). pose proof (Z.log2_nonneg (z / 10)). lia.
Qed.

Lemma nat_digits_nonempty z : nat_digits z <> [].
Proof.
  destruct (Z.lt_ge_cases z 10) as [H|H].
  - now rewrite nat_digits_small.
  - rewrite nat_digits_step by auto. now destruct (nat_digits (z / 10)).
Qed.

(** The digits of a count of tenths, split before the last. *)
Lemma tenths_split n :
  0 <= n ->
  let m := pad_left 2 (nat_digits n) in
  firstn (length m - 1) m = nat_digits (n / 10) /\
  skipn (length m - 1) m = [digit_char (n mod 10)].
Proof.
  intros Hn. destruct (Z.lt_ge_cases n 10) as [H|H].
  - rewrite (nat_digits_small n H).
    rewrite Z.div_small, Z.mod_small by lia.
    now rewrite (nat_digits_small 0).
  - rewrite (nat_digits_step n H).
    set (hi := nat_digits (n / 10)).
    assert (L : (1 <= length hi)%nat).
    { pose proof (nat_digits_nonempty (n / 10)). fold hi in H0.
      destruct hi; simpl; [congruence | lia]. }
    assert (P : pad_left 2 (hi ++ [digit_char (n mod 10)]) =
                hi ++ [digit_char (n mod 10)]).
    { unfold pad_left. rewrite length_app. simpl length.
      now replace (2 - (length hi + 1))%nat with 0%nat by lia. }
    rewrite P. cbv zeta. rewrite length_app. simpl length.
    replace (length hi + 1 - 1)%nat with (length hi) by lia.
    rewrite firstn_app, skipn_app, Nat.sub_diag, firstn_all, skipn_all.
    simpl. now rewrite app_nil_r.
Qed.

(** Every character of a number's digits is below ':'. *)
Lemma digit_char_low z : z < 10 -> (code (digit_char z) < 58)%N.
Proof.
  intros H. unfold code, digit_char.
  rewrite N_ascii_embedding; lia.
Qed.

Lemma pos_digits_low fuel : forall z acc,
  Forall (fun c => (code c < 58)%N) acc ->
  Forall (fun c => (code c < 58)%N) (pos_digits fuel z acc).
Proof.
  induction fuel as [|f IH]; intros z acc Ha; simpl; auto.
  destruct (z <? 10) eqn:E.
  - constructor; auto. apply digit_char_low. now apply Z.ltb_lt.
  - apply IH. constructor; auto. apply digit_char_low.
    pose proof (Z.mod_pos_bound z 10). lia.
Qed.

Lemma nat_digits_low z : Forall (fun c => (code c < 58)%N) (nat_digits z).
Proof. apply pos_digits_low. constructor. Qed.

(** ** The text of a number is never the placeholder *)

Lemma low_digits z : Forall low (nat_digits z).
Proof.
  eapply Forall_impl; [|apply nat_digits_low]. unfold low. intros; lia.
Qed.

Lemma low_zeros n : Forall low (zeros n).
Proof.
  unfold zeros. induction n; simpl; constructor; auto. unfold low. reflexivity.
Qed.

Lemma low_strip l : Forall low l -> Forall low (strip_zeros l).
Proof.
  induction 1 as [|c l Hc Hl IH]; simpl; auto.
  destruct (Ascii.eqb c "0"); auto.
Qed.

Lemma low_firstn n l : Forall low l -> Forall low (firstn n l).
Proof.
  intros H. revert n. induction H; intros [|n]; simpl; auto.
Qed.

Lemma low_skipn n l : Forall low l -> Forall low (skipn n l).
Proof.
  intros H. revert n. induction H; intros [|n]; simpl; auto.
Qed.

Lemma low_exponent c : Forall low (exponent_text c).
Proof.
  unfold exponent_text. constructor; [|apply low_digits].
  destruct (0 <=? c); unfold low; reflexivity.
Qed.

Lemma low_positive_text q : Forall low (positive_text q).
Proof.
  unfold positive_text.
  destruct (shortest q) as [kfrac N].
  set (all := nat_digits N).
  assert (Hs : Forall low (rev (strip_zeros (rev all)))).
  { apply Forall_rev, low_strip, Forall_rev, low_digits. }
  set (s := rev (strip_zeros (rev all))) in *.
  assert (Hdot : low ".") by (unfold low; reflexivity).
  assert (He : low "e") by (unfold low; reflexivity).
  assert (H0 : low "0") by (unfold low; reflexivity).
  destruct ((-5 <=? _) && (_ <=? 21)).
  - destruct (_ <=? _).
    + apply Forall_app. split; [exact Hs | apply low_zeros].
    + destruct (0 <? _).
      * apply Forall_app. split; [now apply low_firstn|].
        constructor; [exact Hdot | now apply low_skipn].
      * constructor; [exact H0|]. constructor; [exact Hdot|].
        apply Forall_app. split; [apply low_zeros | exact Hs].
  - destruct s as [|d [|d' rest]]; [constructor| |].
    + inversion Hs; subst. constructor; auto. constructor; auto. apply low_exponent.
    + inversion Hs; subst. constructor; auto. constructor; auto.
      apply Forall_app. split; auto. constructor; auto. apply low_exponent.
Qed.

Lemma low_text_not_dash l : Forall low l -> text l <> Client.dash.
Proof.
  intros H. destruct H as [|c l Hc Hl]; simpl; [discriminate|].
  intros E. injection E as E _. rewrite E in Hc. unfold low in Hc.
  vm_compute in Hc. discriminate.
Qed.

Lemma number_text_not_dash n : number_text n <> Client.dash.
Proof.
  destruct n as [| | |q]; try (simpl; discriminate).
  unfold number_text.
  destruct (is_zero q); [discriminate|].
  destruct (is_neg q).
  - apply low_text_not_dash. constructor; [unfold low; reflexivity|].
    apply low_positive_text.
  - apply low_text_not_dash, low_positive_text.
Qed.

End TextFacts.

(* ================================================================== *)
(** * Properties of the status cards *)
(* ================================================================== *)

Lemma buildStatusCard_inv doc c :
  Client.buildStatusCard doc = Normal c ->
  exists status,
    or_else (safetyStatus doc) (Str "Unknown") = Str status /\
    c = {| Client.card_location := ToString (or_else (location doc) (Str "Unknown"));
           Client.badgeClass := Client.badge (toLowerCase status);
           Client.label := status;
           Client.avgIce := Client.numOrDash (avgIceThickness doc);
           Client.avgSurface := Client.numOrDash (avgSurfaceTemperature doc);
           Client.maxSnow := Client.numOrDash (maxSnowAccumulation doc);
           Client.readings :=
             ToString (nullish_else (readingCount doc) (Str Client.dash)) |}.
Proof.
  unfold Client.buildStatusCard.
  destruct (or_else (safetyStatus doc) (Str "Unknown")) as [| | | |status];
    simpl; try discriminate.
  intros [= <-]. exists status. split; reflexivity.
Qed.

Lemma code_inj a b : code a = code b -> a = b.
Proof.
  unfold code. intros H.
  rewrite <- (ascii_N_embedding a), <- (ascii_N_embedding b). now rewrite H.
Qed.

Lemma code_lt c : (code c < 256)%N.
Proof. apply N_ascii_bounded. Qed.

(** A character is mapped to a small letter exactly when it is that letter
    or its capital. *)
Lemma lower_same c w :
  (97 <= code w <= 122)%N -> Ascii.eqb (lower c) w = same_letter c w.
Proof.
  intros R. apply Bool.eq_iff_eq_true.
  unfold same_letter, lower.
  rewrite orb_true_iff, !andb_true_iff, !Ascii.eqb_eq, N.eqb_eq, !N.leb_le.
  pose proof (code_lt c) as B.
  destruct (N.leb 65 (code c) && N.leb (code c) 90)%N eqn:C.
  - apply andb_prop in C. destruct C as [C1 C2]. apply N.leb_le in C1, C2.
    split.
    + intros <-. right. unfold code in *. rewrite N_ascii_embedding by lia. lia.
    + intros [-> | ((E & _) & _)]; [lia|].
      apply code_inj. unfold code in *. rewrite N_ascii_embedding by lia. exact E.
  - split; [auto|]. intros [E | ((E & _) & _)]; [exact E|].
    exfalso. apply andb_false_iff in C.
    destruct C as [C|C]; [apply N.leb_gt in C | apply N.leb_gt in C]; lia.
Qed.

Lemma toLowerCase_spells word : forall status,
  small word -> String.eqb (toLowerCase status) word = spells status word.
Proof.
  induction word as [|w ws IH]; intros [|c s] Hw; try reflexivity.
  destruct Hw as [R Hw].
  change (toLowerCase (String c s)) with (String (lower c) (toLowerCase s)).
  simpl. rewrite (lower_same c w R), (IH s Hw).
  now destruct (same_letter c w).
Qed.

(** The badge of a lower-cased status is the style of the status. *)
Lemma badge_style status : Client.badge (toLowerCase status) = style status.
Proof.
  unfold Client.badge, style.
  rewrite !toLowerCase_spells; [reflexivity | ..];
    simpl; unfold code; simpl; repeat split; lia.
Qed.

(** C5.  The badge class of a card is read off the lower-cased status: a
    status that spells "safe", in letters of either case, gives the safe
    style, "warning" and "caution" the warning style, "unsafe" and "closed"
    the danger style, anything else the warning style.  The label is the
    status as it is written, and "Unknown" when the document has none.  A
    status "CAUTION" gives the warning style and the label "CAUTION".  A
    card is built for every document whose status is a string or is
    missing. *)
Theorem C5_badge_follows_status (doc : document) :
  ((truthy (safetyStatus doc) = true -> exists s, safetyStatus doc = Str s) ->
   exists c, Client.buildStatusCard doc = Normal c) /\
  (forall c,
     Client.buildStatusCard doc = Normal c ->
     (exists status,
        or_else (safetyStatus doc) (Str "Unknown") = Str status /\
        Client.label c = status /\
        Client.badgeClass c = Client.badge (toLowerCase status) /\
        Client.badgeClass c = style status /\
        (safetyStatus doc = Undefined -> status = "Unknown") /\
        (forall s, safetyStatus doc = Str s -> s <> "" -> status = s)) /\
     (safetyStatus doc = Str "CAUTION" ->
      Client.badgeClass c = "status-warning" /\ Client.label c = "CAUTION")) /\
  (Client.badge "safe" = "status-safe" /\
   Client.badge "warning" = "status-warning" /\
   Client.badge "caution" = "status-warning" /\
   Client.badge "unsafe" = "status-danger" /\
   Client.badge "closed" = "status-danger" /\
   forall other, other <> "safe" -> other <> "unsafe" -> other <> "closed" ->
                 Client.badge other = "status-warning") /\
  (forall status,
     (spells status "safe" = true -> style status = "status-safe") /\
     (spells status "warning" = true \/ spells status "caution" = true ->
      style status = "status-warning") /\
     (spells status "unsafe" = true \/ spells status "closed" = true ->
      style status = "status-danger") /\
     (spells status "safe" = false -> spells status "unsafe" = false ->
      spells status "closed" = false -> style status = "status-warning")) /\
  (spells "SAFE" "safe" = true /\ spells "Unsafe" "unsafe" = true /\
   spells "cLoSeD" "closed" = true /\ spells "safe" "safe" = true /\
   spells "safer" "safe" = false /\ spells "unsafe" "safe" = false /\
   spells "S@FE" "safe" = false).
Proof.
  split; [|split; [|split; [|split]]].
  - intros T. unfold Client.buildStatusCard, or_else.
    destruct (truthy (safetyStatus doc)) eqn:B.
    + destruct (T eq_refl) as [s ->]. simpl. eauto.
    + simpl. eauto.
  - intros c H. destruct (buildStatusCard_inv doc c H) as (status & E & ->). simpl.
    split.
    + exists status. repeat split; auto.
      * apply badge_style.
      * intros U. rewrite U in E. unfold or_else in E. simpl in E. congruence.
      * intros s S Hs. rewrite S in E. unfold or_else in E. simpl in E.
        destruct (String.eqb s "") eqn:B.
        -- apply String.eqb_eq in B. contradiction.
        -- simpl in E. congruence.
    + intros S. rewrite S in E. injection E as <-. split; reflexivity.
  - repeat split; try reflexivity.
    intros other H1 H2 H3. unfold Client.badge.
    apply String.eqb_neq in H1, H2, H3. rewrite H1, H2, H3. simpl.
    now destruct (_ || _).
  - intros status. unfold style.
    rewrite <- !toLowerCase_spells
      by (simpl; unfold code; simpl; repeat split; lia).
    set (t := toLowerCase status). clearbody t.
    repeat split.
    + intros ->. reflexivity.
    + intros [H|H]; apply String.eqb_eq in H; subst t; reflexivity.
    + intros [H|H]; apply String.eqb_eq in H; subst t; reflexivity.
    + intros -> -> ->. simpl. now destruct (_ || _).
  - repeat split; reflexivity.
Qed.

Lemma C5_witness :
  (exists c, Client.buildStatusCard (with_status (Str "CAUTION")) = Normal c /\
             Client.badgeClass c = "status-warning" /\ Client.label c = "CAUTION") /\
  (exists c, Client.buildStatusCard (with_status (Str "CLOSED")) = Normal c /\
             Client.badgeClass c = "status-danger" /\ Client.label c = "CLOSED") /\
  (exists c, Client.buildStatusCard (with_status (Str "Safe")) = Normal c /\
             Client.badgeClass c = "status-safe" /\ Client.label c = "Safe").
Proof.
  split; [|split].
  - eexists. split; [reflexivity|].
    exact (proj2 (proj1 (proj2 (C5_badge_follows_status (with_status (Str "CAUTION"))))
                    _ eq_refl)
             eq_refl).
  - eexists. split; [reflexivity|].
    destruct (proj1 (proj2 (C5_badge_follows_status (with_status (Str "CLOSED"))))
                _ eq_refl) as [(status & E & L & _ & S & _) _].
    injection E as <-. rewrite S, L. split; reflexivity.
  - eexists. split; [reflexivity|].
    destruct (proj1 (proj2 (C5_badge_follows_status (with_status (Str "Safe"))))
                _ eq_refl) as [(status & E & L & _ & S & _) _].
    injection E as <-. rewrite S, L. split; reflexivity.
Defined.

Example styles_of_statuses :
  map (fun s => option_map Client.badgeClass
                  (match Client.buildStatusCard (with_status s) with
                   | Normal c => Some c
                   | Throw _ => None
                   end))
    [Str "SAFE"; Str "Safe"; Str "Unsafe"; Str "CLOSED"; Str "Caution";
     Str "WARNING"; Str "open"; Undefined; Str ""; Num (Fin 1%Q)]
  = [Some "status-safe"; Some "status-safe"; Some "status-danger";
     Some "status-danger"; Some "status-warning"; Some "status-warning";
     Some "status-warning"; Some "status-warning"; Some "status-warning"; None].
Proof. reflexivity. Qed.

(** ** The metrics *)

(** C6, as stated, fails.  A thickness of [null] is not a number, yet it is
    rendered "0.0" and not as the placeholder; and a snow depth of 10^21 is a
    number, yet [toFixed] renders it in exponent notation, with no decimal. *)
Lemma C6_counterexample :
  exists c,
    Client.buildStatusCard
      (measured Null (Num (Fin (-3 # 2))) (Num (Fin (inject_Z (10 ^ 21)))) (Num (Fin 0)))
      = Normal c /\
    Client.avgIce c = "0.0" /\ Client.avgIce c <> Client.dash /\
    Client.maxSnow c = "1e+21".
Proof.
  eexists. split; [reflexivity|]. split; [reflexivity|].
  split; [discriminate | reflexivity].
Qed.

Lemma nearest_tenths_near a :
  (inject_Z (nearest_tenths a) - (1 # 2) <= a * inject_Z 10 /\
   a * inject_Z 10 < inject_Z (nearest_tenths a) + (1 # 2))%Q.
Proof.
  unfold nearest_tenths.
  pose proof (Qfloor_le (a * inject_Z 10 + (1 # 2))) as L.
  pose proof (Qlt_floor (a * inject_Z 10 + (1 # 2))) as U.
  rewrite inject_Z_plus in U. change (inject_Z 1) with 1%Q in U.
  split; lra.
Qed.

Lemma numOrDash_number v q :
  Number v = Fin q -> (Qabs q < inject_Z (10 ^ 21))%Q ->
  Client.numOrDash v = tenths_text (is_neg q) (nearest_tenths (Qabs q)).
Proof.
  intros E B. unfold Client.numOrDash. rewrite E. simpl isNaN. cbv iota.
  unfold toFixed1.
  apply NumberFacts.Qle_bool_false in B. rewrite B.
  assert (N : 0 <= nearest_tenths (Qabs q)).
  { unfold nearest_tenths. apply NumberFacts.floor_ge.
    pose proof (Qabs_nonneg q). change (inject_Z 0) with 0%Q.
    assert (0 <= Qabs q * inject_Z 10)%Q by (apply Qmult_le_0_compat; [auto | discriminate]).
    lra. }
  destruct (TextFacts.tenths_split _ N) as [F S]. cbv zeta in F, S.
  cbv zeta. rewrite F, S. reflexivity.
Qed.

Lemma low_tenths negative n : Forall low (chars (tenths_text negative n)).
Proof.
  unfold tenths_text, chars, text. rewrite list_ascii_of_string_of_list_ascii.
  apply Forall_app. split.
  - destruct negative; constructor; [unfold low; reflexivity | constructor].
  - apply Forall_app. split; [apply TextFacts.low_digits|].
    constructor; [unfold low; reflexivity|].
    constructor; [|constructor]. unfold low.
    pose proof (Z.mod_pos_bound n 10 ltac:(lia)) as M.
    pose proof (TextFacts.digit_char_low (n mod 10) ltac:(lia)). lia.
Qed.

(** A number is never rendered as the placeholder. *)
Lemma toFixed1_not_dash n : toFixed1 n <> Client.dash.
Proof.
  destruct n as [| | |q]; try (simpl; discriminate).
  destruct (Qlt_le_dec (Qabs q) (inject_Z (10 ^ 21))) as [B|B].
  - pose proof (numOrDash_number (Num (Fin q)) q eq_refl B) as E.
    change (Client.numOrDash (Num (Fin q))) with (toFixed1 (Fin q)) in E.
    rewrite E. intros D.
    pose proof (low_tenths (is_neg q) (nearest_tenths (Qabs q))) as L.
    rewrite D in L. inversion L as [|? ? H _]. vm_compute in H. discriminate.
  - unfold toFixed1. apply Qle_bool_iff in B. rewrite B.
    apply TextFacts.number_text_not_dash.
Qed.

(** C6, amended.  Each of the three measurements is formatted from its own
    field, through [Number].  The placeholder is rendered exactly when
    [Number] gives NaN: for an absent field and for a string that is no
    numeric literal.  Any other value is rendered as a number: null, false,
    the empty string and a blank string as "0.0", and a number, or the
    binary64 number a numeric literal denotes, of a magnitude below 10^21
    as the nearest number of tenths of that binary64 number, with one
    decimal.  The reading count is rendered as the placeholder exactly when
    it is null or absent, or is the placeholder text itself, and a count of
    zero as "0". *)
Theorem C6_metrics_are_formatted (doc : document) (c : Client.card) :
  Client.buildStatusCard doc = Normal c ->
  (Client.avgIce c = Client.numOrDash (avgIceThickness doc) /\
   Client.avgSurface c = Client.numOrDash (avgSurfaceTemperature doc) /\
   Client.maxSnow c = Client.numOrDash (maxSnowAccumulation doc)) /\
  (forall v, Client.numOrDash v = Client.dash <-> Number v = NaN) /\
  (forall v, Number v = NaN <->
             v = Undefined \/ v = Num NaN \/
             exists s, v = Str s /\ StringToNumber s = NaN) /\
  (Client.numOrDash Null = "0.0" /\ Client.numOrDash (Bool false) = "0.0" /\
   Client.numOrDash (Str "") = "0.0" /\ Client.numOrDash (Str "  ") = "0.0" /\
   Client.numOrDash (Bool true) = "1.0") /\
  (forall v q,
     Number v = Fin q -> (Qabs q < inject_Z (10 ^ 21))%Q ->
     let n := nearest_tenths (Qabs q) in
     Client.numOrDash v = tenths_text (is_neg q) n /\
     (inject_Z n - (1 # 2) <= Qabs q * inject_Z 10 < inject_Z n + (1 # 2))%Q) /\
  ((Client.readings c = Client.dash <->
    readingCount doc = Undefined \/ readingCount doc = Null \/
    readingCount doc = Str Client.dash) /\
   (readingCount doc = Num (Fin 0%Q) -> Client.readings c = "0") /\
   (forall n, readingCount doc = Num n -> Client.readings c = number_text n)).
Proof.
  intros H. destruct (buildStatusCard_inv doc c H) as (status & _ & ->). simpl.
  split. { repeat split. }
  split.
  { intros v. unfold Client.numOrDash.
    destruct (Number v) as [| | |q] eqn:E; cbn [isNaN].
    - split; reflexivity.
    - split; discriminate.
    - split; discriminate.
    - split; [|discriminate]. intros D. now apply toFixed1_not_dash in D. }
  split.
  { intros v. split.
    - destruct v as [| |[]|n|s]; simpl; try discriminate; auto.
      + intros ->. auto.
      + intros E. right. right. eauto.
    - intros [-> | [-> | (s & -> & E)]]; auto. }
  split. { repeat split; vm_compute; reflexivity. }
  split.
  { intros v q E B. split; [now apply numOrDash_number|].
    apply nearest_tenths_near. }
  split; [|split].
  - split.
    + destruct (readingCount doc) as [| |b|n|s]; simpl; auto.
      * destruct b; discriminate.
      * intros D. now apply TextFacts.number_text_not_dash in D.
      * intros ->. auto.
    + intros [E | [E | E]]; rewrite E; reflexivity.
  - intros E. rewrite E. reflexivity.
  - intros n E. rewrite E. reflexivity.
Qed.

Lemma C6_witness :
  exists c,
    Client.buildStatusCard
      (measured (Str "0.15") (Num (Fin (-3 # 2))) Undefined (Num (Fin 0)))
      = Normal c /\
    Client.avgIce c = "0.1" /\ Client.avgSurface c = "-1.5" /\
    Client.maxSnow c = Client.dash /\ Client.readings c = "0".
Proof.
  eexists. split; [reflexivity|].
  pose proof (C6_metrics_are_formatted
                (measured (Str "0.15") (Num (Fin (-3 # 2))) Undefined (Num (Fin 0)))
                _ eq_refl) as (_ & _ & _ & _ & _ & _ & Z & _).
  split; [vm_compute; reflexivity|]. split; [reflexivity|]. split; [reflexivity|].
  exact (Z eq_refl).
Defined.

(** ** The series of a chart *)

(** C8, as stated, fails.  A thickness "n/a" is not a number, yet the series
    holds NaN for it, not 0; and for a thickness [true] it holds 1. *)
Lemma C8_counterexample :
  Client.iceValues [measured (Str "n/a") Undefined Undefined Undefined] = [NaN] /\
  Client.tempValues [measured Undefined (Str "n/a") Undefined Undefined] = [NaN] /\
  NaN <> Fin 0%Q /\
  Client.iceValues [measured (Bool true) Undefined Undefined Undefined] = [Fin 1%Q].
Proof. repeat split; try reflexivity. discriminate. Qed.

(** C8, amended.  The two series hold one value per document, computed from
    the document's own field without raising an error: the field itself
    when it is a number; the number a string denotes when the field is a
    numeric literal; and 0 when the field is absent, null, false, the empty
    string or otherwise falsy. *)
Theorem C8_series_values (data : list document) :
  Client.iceValues data = map (fun doc => series (avgIceThickness doc)) data /\
  Client.tempValues data = map (fun doc => series (avgSurfaceTemperature doc)) data /\
  length (Client.iceValues data) = length data /\
  length (Client.tempValues data) = length data /\
  (forall q, exists q', series (Num (Fin q)) = Fin q' /\ (q' == q)%Q) /\
  (forall s q, StringToNumber s = Fin q -> series (Str s) = Fin q) /\
  (forall v, truthy v = false -> series v = Fin 0%Q).
Proof.
  unfold Client.iceValues, Client.tempValues, series.
  repeat split; try reflexivity; try apply length_map.
  - intros q. unfold or_else. simpl.
    destruct (is_zero q) eqn:Z; simpl.
    + exists 0%Q. split; [reflexivity|].
      unfold is_zero in Z. apply Qeq_bool_eq in Z. now symmetry.
    + exists q. split; reflexivity.
  - intros s q E. unfold or_else. simpl.
    destruct (String.eqb s "") eqn:B; simpl; [|exact E].
    apply String.eqb_eq in B. subst s. exact E.
  - intros v T. unfold or_else. now rewrite T.
Qed.

(* ================================================================== *)
(** * The order of the status cards *)
(* ================================================================== *)

Module ArrayFacts.

Section Sorted.

Context {A : Type} (cmp : A -> A -> completion Z).

Lemma insert_permutation x l r :
  Client.insert cmp x l = Normal r -> Permutation (x :: l) r.
Proof.
  revert r. induction l as [|y l IH]; simpl; intros r.
  - now intros [= <-].
  - destruct (cmp y x) as [v|e]; simpl; [|discriminate].
    destruct (v <? 0); [|now intros [= <-]].
    destruct (Client.insert cmp x l) as [r'|e]; simpl; [|discriminate].
    intros [= <-]. rewrite perm_swap. constructor. now apply IH.
Qed.

(** When [sort] returns, it returns the elements of the array. *)
Lemma sort_permutation l r : Client.sort cmp l = Normal r -> Permutation l r.
Proof.
  revert r. induction l as [|x l IH]; simpl; intros r.
  - now intros [= <-].
  - destruct (Client.sort cmp l) as [s|e]; simpl; [|discriminate].
    intros H. apply insert_permutation in H.
    rewrite <- H. constructor. now apply IH.
Qed.

End Sorted.

End ArrayFacts.

Lemma ordinal_le a b :
  ordinal a b <= 0 <-> not_gt (String.compare a b) = true.
Proof.
  unfold ordinal. destruct (String.compare a b); simpl; split; intros; try lia;
    auto; discriminate.
Qed.

Lemma ordinal_total a b : ordinal a b <= 0 \/ ordinal b a <= 0.
Proof. rewrite !ordinal_le. apply OrderFacts.string_le_total. Qed.

Lemma ordinal_transitive a b c :
  ordinal a b <= 0 -> ordinal b c <= 0 -> ordinal a c <= 0.
Proof. rewrite !ordinal_le. apply OrderFacts.string_le_trans. Qed.

Lemma ordinal_antisymmetric a b : ordinal a b < 0 <-> 0 < ordinal b a.
Proof.
  unfold ordinal. rewrite (String.compare_antisym b a).
  destruct (String.compare a b); simpl; lia.
Qed.

(** C4, as stated, fails.  The comparator reads a missing location as the
    empty text, which the collation puts first, while the card shows
    "Unknown": of documents at "Zebra" and "Bank Street" and a document
    without a location, the card "Unknown" is rendered before the card
    "Bank Street".  And documents whose locations are the numbers 5 and 7
    are not rendered at all: the comparator calls [localeCompare] on a
    number, whichever of the two it is given first, and the page shows the
    error text. *)
Lemma C4_counterexample :
  (exists cs,
     Client.fetchAndRenderLatest ordinal
       (Client.Body (Some (map (fun l => reading l Undefined)
                             [Str "Zebra"; Str "Bank Street"; Undefined])))
     = Client.Cards cs /\
     map Client.card_location cs = ["Unknown"; "Bank Street"; "Zebra"]) /\
  ordinal "Bank Street" "Unknown" < 0 /\
  (forall localeCompare,
     let five := reading (Num (Fin 5%Q)) Undefined in
     let seven := reading (Num (Fin 7%Q)) Undefined in
     (exists e, Client.compare localeCompare five seven = Throw e) /\
     (exists e, Client.compare localeCompare seven five = Throw e) /\
     Client.fetchAndRenderLatest localeCompare (Client.Body (Some [five; seven]))
     = Client.ErrorLoading).
Proof.
  split; [eexists; split; reflexivity|]. split; [reflexivity|].
  intros lc five seven. repeat split; eexists; reflexivity.
Qed.

Section CardOrder.

(** The collation of the locale: a total preorder whose sign turns with its
    arguments, whatever the locale. *)
Variable localeCompare : string -> string -> Z.
Hypothesis collation_total :
  forall a b, localeCompare a b <= 0 \/ localeCompare b a <= 0.
Hypothesis collation_transitive :
  forall a b c, localeCompare a b <= 0 -> localeCompare b c <= 0 ->
                localeCompare a c <= 0.
Hypothesis collation_antisymmetric :
  forall a b, localeCompare a b < 0 <-> 0 < localeCompare b a.

Lemma before_precedes a b :
  before localeCompare a b = true <-> precedes localeCompare a b.
Proof.
  unfold before, compared, precedes.
  destruct (priority a =? priority b) eqn:E; simpl.
  - apply Z.eqb_eq in E. rewrite Z.leb_le. split; [right; auto|].
    intros [H|[_ H]]; [lia | exact H].
  - apply Z.eqb_neq in E. rewrite Z.leb_le. split; [left; lia|].
    intros [H|[H _]]; lia.
Qed.

Lemma before_total a b :
  before localeCompare a b = true \/ before localeCompare b a = true.
Proof.
  rewrite !before_precedes. unfold precedes.
  destruct (Z.lt_trichotomy (priority a) (priority b)) as [H|[H|H]]; auto.
  destruct (collation_total (sort_key a) (sort_key b)); [left|right]; right; auto.
Qed.

Lemma before_trans a b c :
  before localeCompare a b = true -> before localeCompare b c = true ->
  before localeCompare a c = true.
Proof.
  rewrite !before_precedes. unfold precedes.
  intros [H1|[H1 L1]] [H2|[H2 L2]]; try (left; lia).
  right. split; [lia|]. eapply collation_transitive; eauto.
Qed.

(** The comparator puts the later of two documents first exactly when it
    does not put the earlier one first. *)
Lemma compared_turns a b :
  (compared localeCompare b a <? 0) = negb (before localeCompare a b).
Proof.
  unfold before, compared. rewrite (Z.eqb_sym (priority b) (priority a)).
  destruct (priority a =? priority b) eqn:E; simpl.
  - pose proof (collation_antisymmetric (sort_key b) (sort_key a)) as T.
    destruct (localeCompare (sort_key b) (sort_key a) <? 0) eqn:L;
      destruct (localeCompare (sort_key a) (sort_key b) <=? 0) eqn:G;
      try reflexivity; rewrite ?Z.ltb_lt, ?Z.ltb_ge, ?Z.leb_le, ?Z.leb_gt in *; lia.
  - apply Z.eqb_neq in E.
    destruct (priority b - priority a <? 0) eqn:L;
      destruct (priority a - priority b <=? 0) eqn:G;
      try reflexivity; rewrite ?Z.ltb_lt, ?Z.ltb_ge, ?Z.leb_le, ?Z.leb_gt in *; lia.
Qed.

(** On named documents the comparator never throws. *)
Lemma compare_named a b :
  named a -> Client.compare localeCompare a b = Normal (compared localeCompare a b).
Proof.
  intros [s Ha]. unfold Client.compare, compared, priority, sort_key.
  fold (sort_location a) (sort_location b). rewrite Ha. simpl ToString.
  now destruct (negb _).
Qed.

Lemma insert_named x l :
  Forall named l ->
  Client.insert (Client.compare localeCompare) x l
  = Normal (Cosmos.insert (before localeCompare) x l).
Proof.
  induction 1 as [|y l Hy Hl IH]; simpl; [reflexivity|].
  rewrite (compare_named y x Hy). simpl. rewrite compared_turns.
  destruct (before localeCompare x y); simpl; [reflexivity|].
  now rewrite IH.
Qed.

(** On named documents [sort] returns, and returns the stable sort by
    [before]. *)
Lemma sort_named l :
  Forall named l ->
  Client.sort (Client.compare localeCompare) l
  = Normal (Cosmos.sort (before localeCompare) l).
Proof.
  induction 1 as [|x l Hx Hl IH]; simpl; [reflexivity|].
  rewrite IH. simpl. apply insert_named.
  eapply Permutation_Forall; [apply OrderFacts.sort_perm | exact Hl].
Qed.

Lemma cards_shown l cs :
  forEach Client.buildStatusCard l = Normal cs ->
  map Client.card_location cs = map shown l.
Proof.
  revert cs. induction l as [|d l IH]; simpl; intros cs.
  - now intros [= <-].
  - destruct (Client.buildStatusCard d) as [c|e] eqn:B; simpl; [|discriminate].
    destruct (forEach Client.buildStatusCard l) as [r|e]; simpl; [|discriminate].
    intros [= <-]. simpl. rewrite (IH r eq_refl). f_equal.
    destruct (buildStatusCard_inv d c B) as (status & _ & ->). reflexivity.
Qed.

Lemma shown_named d :
  named d ->
  shown d = if String.eqb (sort_key d) "" then "Unknown" else sort_key d.
Proof.
  intros [s Hs]. unfold shown, sort_key. rewrite Hs.
  unfold sort_location, or_else in *.
  destruct (truthy (location d)) eqn:T.
  - rewrite Hs in *. destruct s; [discriminate | reflexivity].
  - injection Hs as <-. reflexivity.
Qed.

(** C4, amended.  A non-empty array of documents whose locations are
    strings, or are missing, is rendered in the order of the priority list:
    the documents located at "Dows Lake", "Fifth Avenue" and "NAC" first, by
    the index of the location in that list, and every other document after
    them, with priority 999, in the order of the locale's collation of the
    locations, where a missing location is collated as the empty text while
    its card shows "Unknown".  Documents for "NAC", "Dows Lake", "Zebra" and
    "Fifth Avenue" are rendered as "Dows Lake", "Fifth Avenue", "NAC",
    "Zebra". *)
Theorem C4_cards_follow_the_priority_list (data : list document) :
  data <> [] -> Forall named data ->
  (exists sorted,
     Client.sort (Client.compare localeCompare) data = Normal sorted /\
     Permutation data sorted /\
     StronglySorted (precedes localeCompare) sorted /\
     Client.fetchAndRenderLatest localeCompare (Client.Body (Some data)) =
     match forEach Client.buildStatusCard sorted with
     | Normal cs => Client.Cards cs
     | Throw _ => Client.ErrorLoading
     end /\
     (forall cs,
        Client.fetchAndRenderLatest localeCompare (Client.Body (Some data))
        = Client.Cards cs ->
        map Client.card_location cs = map shown sorted) /\
     (forall d, In d sorted ->
        shown d = if String.eqb (sort_key d) "" then "Unknown" else sort_key d)) /\
  (Client.order (Str "Dows Lake") = 0 /\
   Client.order (Str "Fifth Avenue") = 1 /\
   Client.order (Str "NAC") = 2 /\
   forall v, v <> Str "Dows Lake" -> v <> Str "Fifth Avenue" -> v <> Str "NAC" ->
             Client.order v = 999) /\
  (exists cs,
     Client.fetchAndRenderLatest localeCompare
       (Client.Body (Some (map (fun l => reading (Str l) Undefined)
                             ["NAC"; "Dows Lake"; "Zebra"; "Fifth Avenue"])))
     = Client.Cards cs /\
     map Client.card_location cs = ["Dows Lake"; "Fifth Avenue"; "NAC"; "Zebra"]).
Proof.
  intros Hne Hn. split; [|split].
  - exists (Cosmos.sort (before localeCompare) data).
    pose proof (sort_named data Hn) as S.
    pose proof (OrderFacts.sort_perm (before localeCompare) data) as P.
    assert (R : Client.fetchAndRenderLatest localeCompare (Client.Body (Some data)) =
                match forEach Client.buildStatusCard
                        (Cosmos.sort (before localeCompare) data) with
                | Normal cs => Client.Cards cs
                | Throw _ => Client.ErrorLoading
                end).
    { unfold Client.fetchAndRenderLatest.
      destruct data as [|d data]; [congruence|].
      rewrite S. reflexivity. }
    split; [exact S|]. split; [exact P|]. split; [|split; [exact R|split]].
    + eapply HistoryFacts.sorted_among
        with (P := fun _ => True) (R := fun a b => before localeCompare a b = true).
      * intros a b _ _. apply before_precedes.
      * apply Forall_forall. auto.
      * apply OrderFacts.sort_sorted; [exact before_total | exact before_trans].
    + intros cs E. rewrite R in E.
      destruct (forEach Client.buildStatusCard _) as [cs'|e] eqn:F; [|discriminate].
      injection E as <-. now apply cards_shown.
    + intros d Hd. apply shown_named.
      rewrite Forall_forall in Hn. apply Hn.
      eapply Permutation_in; [apply Permutation_sym, P | exact Hd].
  - repeat split; try reflexivity.
    intros v H1 H2 H3. unfold Client.order, indexOf. simpl.
    destruct v as [| | | |s]; try reflexivity. simpl.
    destruct (String.eqb s "Dows Lake") eqn:E1;
      [apply String.eqb_eq in E1; congruence|].
    destruct (String.eqb s "Fifth Avenue") eqn:E2;
      [apply String.eqb_eq in E2; congruence|].
    destruct (String.eqb s "NAC") eqn:E3;
      [apply String.eqb_eq in E3; congruence|].
    reflexivity.
  - eexists. split; reflexivity.
Qed.

End CardOrder.

Lemma C4_witness :
  exists sorted,
    Client.sort (Client.compare ordinal)
      (map (fun l => reading l Undefined)
         [Str "Zebra"; Str "NAC"; Undefined; Str "Bank Street"; Str "Dows Lake"])
    = Normal sorted /\
    map location sorted
    = [Str "Dows Lake"; Str "NAC"; Undefined; Str "Bank Street"; Str "Zebra"] /\
    StronglySorted (precedes ordinal) sorted /\
    map shown sorted = ["Dows Lake"; "NAC"; "Unknown"; "Bank Street"; "Zebra"].
Proof.
  destruct (C4_cards_follow_the_priority_list ordinal ordinal_total
              ordinal_transitive ordinal_antisymmetric
              (map (fun l => reading l Undefined)
                 [Str "Zebra"; Str "NAC"; Undefined; Str "Bank Street";
                  Str "Dows Lake"])) as [(sorted & S & _ & O & _) _].
  - discriminate.
  - repeat constructor; eexists; reflexivity.
  - exists sorted. split; [exact S|].
    assert (E : Normal sorted = Normal
              (map (fun l => reading l Undefined)
                 [Str "Dows Lake"; Str "NAC"; Undefined; Str "Bank Street";
                  Str "Zebra"])) by (rewrite <- S; reflexivity).
    injection E as ->. split; [reflexivity|]. split; [exact O | reflexivity].
Defined.

(* ================================================================== *)
(** * The charts of the history renderer *)
(* ================================================================== *)

Module ChartFacts.

Import Js Client ObjectFacts.

Lemma consistent_same p q :
  charts q = charts p -> attached q = attached p -> constructed q = constructed p ->
  consistent p -> consistent q.
Proof.
  intros Ec Ea En [R N D]. split; rewrite ?Ec, ?Ea, ?En; auto.
Qed.

Lemma initial_consistent cs : consistent (initial cs).
Proof. split; simpl; try constructor; intros ? ? []. Qed.

Lemma in_destroy h0 p h c :
  In (h, c) (attached (destroy h0 p)) <-> In (h, c) (attached p) /\ h <> h0.
Proof.
  unfold destroy. simpl. rewrite filter_In. simpl.
  rewrite negb_true_iff, Nat.eqb_neq. tauto.
Qed.

Lemma NoDup_map_filter {A B : Type} (f : A -> B) (g : A -> bool) l :
  NoDup (map f l) -> NoDup (map f (filter g l)).
Proof.
  induction l as [|a l IH]; simpl; auto.
  intros H. inversion H as [|? ? Hn Hd]; subst.
  destruct (g a); simpl; auto. constructor; auto.
  intros Hin. apply Hn. apply in_map_iff in Hin. destruct Hin as (x & Ex & Hx).
  apply filter_In in Hx. apply in_map_iff. exists x. tauto.
Qed.

(** Attaching a new chart under a key that no attached instance is
    registered under. *)
Lemma newChart_consistent key c p :
  key = canvasIdToKey (canvas c) ->
  (forall h c', In (h, c') (attached p) -> canvasIdToKey (canvas c') <> key) ->
  consistent p -> consistent (newChart key c p).
Proof.
  intros Hk Hfree [R N D]. split; simpl.
  - intros h c' [E|Hin].
    + injection E as <- <-. rewrite <- Hk. apply own_set_same.
    + rewrite own_set_other; [eauto|]. intros E. eapply Hfree; eauto.
  - intros h c' [E|Hin]; [injection E as <- <-; lia|].
    apply N in Hin. lia.
  - constructor; auto. intros Hin. apply in_map_iff in Hin.
    destruct Hin as ([h c'] & E & Hin). simpl in E. subst h.
    apply N in Hin. lia.
Qed.

Lemma destroy_consistent h0 p : consistent p -> consistent (destroy h0 p).
Proof.
  intros [R N D]. split.
  - intros h c Hin. apply in_destroy in Hin. simpl. now apply R.
  - intros h c Hin. apply in_destroy in Hin. simpl. now apply (N h c).
  - simpl. now apply NoDup_map_filter.
Qed.

Lemma step_consistent p e : consistent p -> consistent (step p e).
Proof.
  intros C. destruct e as [[location canvasId] r]. unfold step. simpl.
  unfold renderHistoryForLocation.
  destruct (negb _); [exact C|].
  destruct r as [| status | [[|d data]|]];
    try (eapply consistent_same; [| | |exact C]; reflexivity).
  set (c := {| canvas := canvasId; ice := _; temp := _ |}).
  set (key := canvasIdToKey canvasId).
  destruct (get (charts p) key) as [[h0|]| |] eqn:G;
    try (eapply consistent_same; [| | |exact C]; reflexivity).
  - apply newChart_consistent; [reflexivity| |now apply destroy_consistent].
    intros h c' Hin E. apply in_destroy in Hin. destruct Hin as [Hin Hne].
    apply (registered p C) in Hin. rewrite E in Hin.
    unfold get in G. rewrite Hin in G. congruence.
  - apply newChart_consistent; [reflexivity| |exact C].
    intros h c' Hin E. apply (registered p C) in Hin. rewrite E in Hin.
    unfold get in G. rewrite Hin in G. congruence.
  - apply newChart_consistent; [reflexivity| |exact C].
    intros h c' Hin E. apply (registered p C) in Hin. rewrite E in Hin.
    unfold get in G. rewrite Hin in G. discriminate.
Qed.

Lemma run_consistent es : forall p, consistent p -> consistent (run es p).
Proof.
  induction es as [|e es IH]; simpl; auto.
  intros p C. apply IH. now apply step_consistent.
Qed.

Lemma at_most_one {A : Type} (f : A -> bool) (l : list (nat * A)) :
  NoDup (map fst l) ->
  (forall h a h' a', In (h, a) l -> In (h', a') l ->
     f a = true -> f a' = true -> h = h') ->
  (length (filter (fun e => f (snd e)) l) <= 1)%nat.
Proof.
  induction l as [|[h a] l IH]; simpl; [lia|].
  intros Hnd Hsame. inversion Hnd as [|? ? Hn Hd]; subst.
  assert (IH' := IH Hd (fun h1 a1 h2 a2 H1 H2 =>
                           Hsame h1 a1 h2 a2 (or_intror H1) (or_intror H2))).
  destruct (f a) eqn:E; [|exact IH'].
  simpl. destruct (filter (fun e => f (snd e)) l) as [|[h' a'] rest] eqn:F;
    [simpl; lia|].
  exfalso.
  assert (Hin : In (h', a') (filter (fun e => f (snd e)) l)) by (rewrite F; now left).
  apply filter_In in Hin. destruct Hin as [Hin Hf]. simpl in Hf.
  assert (h = h') by (eapply Hsame; eauto).
  subst h'. apply Hn. change h with (fst (h, a')). now apply in_map.
Qed.

(** A consistent page has at most one instance on a canvas. *)
Lemma consistent_one p canvasId :
  consistent p -> (length (live_on canvasId p) <= 1)%nat.
Proof.
  intros [R N D]. unfold live_on. rewrite length_map.
  apply (at_most_one (fun c => String.eqb (canvas c) canvasId)); auto.
  intros h a h' a' H1 H2 E1 E2.
  apply String.eqb_eq in E1, E2.
  apply R in H1, H2. rewrite E1 in H1. rewrite E2 in H2. congruence.
Qed.

Lemma live_on_registered p canvasId h :
  consistent p -> In h (live_on canvasId p) ->
  own (charts p) (canvasIdToKey canvasId) = Some (Some h).
Proof.
  intros C Hin. unfold live_on in Hin. apply in_map_iff in Hin.
  destruct Hin as ([h' c] & E & Hin). simpl in E. subst h'.
  apply filter_In in Hin. destruct Hin as [Hin Hc].
  unfold on_canvas in Hc. simpl in Hc. apply String.eqb_eq in Hc. subst canvasId.
  now apply (registered p C).
Qed.

Lemma live_on_destroy canvasId h p :
  live_on canvasId (destroy h p) = filter (fun x => negb (Nat.eqb x h)) (live_on canvasId p).
Proof.
  unfold live_on, destroy. simpl.
  induction (attached p) as [|[h' c] l IH]; simpl; auto.
  destruct (Nat.eqb h' h) eqn:E; simpl.
  - destruct (on_canvas canvasId (h', c)); simpl; [rewrite E|]; simpl; exact IH.
  - destruct (on_canvas canvasId (h', c)); simpl; [rewrite E|]; simpl;
      now rewrite IH.
Qed.

Lemma live_on_newChart canvasId key c p :
  canvas c = canvasId ->
  live_on canvasId (newChart key c p) = constructed p :: live_on canvasId p.
Proof.
  intros E. unfold live_on, newChart. simpl. unfold on_canvas at 1. simpl.
  rewrite E, String.eqb_refl. reflexivity.
Qed.

End ChartFacts.

Import Client ChartFacts.

Lemma history_key_not_inherited location canvasId :
  In (location, canvasId) history_calls ->
  inherited (canvasIdToKey canvasId) = false.
Proof.
  intros [E|[E|[E|[]]]]; injection E as <- <-; reflexivity.
Qed.

Lemma canvas_present canvasId cs :
  In canvasId cs -> existsb (String.eqb canvasId) cs = true.
Proof.
  intros H. apply existsb_exists. exists canvasId. split; auto.
  apply String.eqb_refl.
Qed.

Lemma run_canvases es : forall p, canvases (run es p) = canvases p.
Proof.
  induction es as [|[[l c] r] es IH]; simpl; auto.
  intros p. rewrite IH. unfold step, renderHistoryForLocation. simpl.
  destruct (negb _); auto.
  destruct r as [| | [[|d data]|]]; auto.
  destruct (get _ _) as [[h|]| |]; reflexivity.
Qed.

(** What a fetch with data does to a canvas of the page whose key
    [Object.prototype] does not define. *)
Lemma data_replaces p location canvasId d data :
  consistent p -> In canvasId (canvases p) ->
  inherited (canvasIdToKey canvasId) = false ->
  let p' := step p ((location, canvasId), Body (Some (d :: data))) in
  live_on canvasId p' = [constructed p] /\
  (forall h, In h (live_on canvasId p) ->
     trace p' = trace p ++ [Destroyed h; Attached (constructed p) canvasId]) /\
  (live_on canvasId p = [] ->
     exists before, trace p' = trace p ++ before ++ [Attached (constructed p) canvasId]).
Proof.
  intros C Hc Hk p'. unfold p', step, renderHistoryForLocation. simpl.
  rewrite (canvas_present _ _ Hc). simpl.
  set (c := {| canvas := canvasId; ice := _; temp := _ |}).
  set (key := canvasIdToKey canvasId) in *.
  assert (Hreg : forall h, In h (live_on canvasId p) ->
                           own (charts p) key = Some (Some h)).
  { intros h Hin. now apply live_on_registered. }
  destruct (get (charts p) key) as [[h0|]| |] eqn:G; unfold get in G.
  - destruct (own (charts p) key) as [o|] eqn:O;
      [injection G as ->|destruct (inherited key); discriminate].
    assert (Hgone : filter (fun x => negb (Nat.eqb x h0)) (live_on canvasId p) = []).
    { destruct (filter _ _) as [|x rest] eqn:F; auto. exfalso.
      assert (Hx : In x (filter (fun x => negb (Nat.eqb x h0)) (live_on canvasId p)))
        by (rewrite F; now left).
      apply filter_In in Hx. destruct Hx as [Hx Hne].
      apply Hreg in Hx. injection Hx as ->.
      now rewrite Nat.eqb_refl in Hne. }
    split; [|split].
    + rewrite live_on_newChart by reflexivity.
      rewrite live_on_destroy, Hgone. reflexivity.
    + intros h Hin. apply Hreg in Hin. injection Hin as ->.
      simpl. now rewrite <- app_assoc.
    + intros _. exists [Destroyed h0]. simpl. now rewrite <- app_assoc.
  - destruct (own (charts p) key) as [o|] eqn:O;
      [injection G as ->|destruct (inherited key); discriminate].
    assert (Hnone : live_on canvasId p = []).
    { destruct (live_on canvasId p) as [|x rest] eqn:L; auto.
      specialize (Hreg x (or_introl eq_refl)). discriminate. }
    split; [|split].
    + rewrite live_on_newChart by reflexivity. now rewrite Hnone.
    + rewrite Hnone. intros h [].
    + intros _. exists []. reflexivity.
  - rewrite Hk in G. destruct (own (charts p) key); discriminate.
  - destruct (own (charts p) key) as [o|] eqn:O; [discriminate|].
    assert (Hnone : live_on canvasId p = []).
    { destruct (live_on canvasId p) as [|x rest] eqn:L; auto.
      specialize (Hreg x (or_introl eq_refl)). discriminate. }
    split; [|split].
    + rewrite live_on_newChart by reflexivity. now rewrite Hnone.
    + rewrite Hnone. intros h [].
    + intros _. exists []. reflexivity.
Qed.

(** C3.  However the fetches of the three calls complete, every canvas has at
    most one chart attached at any time.  A fetch that brings data leaves
    exactly one chart on its canvas, the newly constructed one: the first
    such fetch creates it, and every later one destroys the chart that was
    attached before it attaches the new one.  A failed fetch changes neither
    [charts] nor the attached instances. *)
Theorem C3_one_chart_per_canvas
    (page_canvases : list string) (events : list completion_event) :
  let p := run events (initial page_canvases) in
  (forall canvasId, (length (live_on canvasId p) <= 1)%nat) /\
  (forall location canvasId d data,
     In (location, canvasId) history_calls -> In canvasId page_canvases ->
     let p' := step p ((location, canvasId), Body (Some (d :: data))) in
     live_on canvasId p' = [constructed p] /\
     (forall h, In h (live_on canvasId p) ->
        trace p' = trace p ++ [Destroyed h; Attached (constructed p) canvasId]) /\
     (live_on canvasId p = [] ->
        exists before,
          trace p' = trace p ++ before ++ [Attached (constructed p) canvasId])) /\
  (forall location canvasId r,
     r = Rejected \/ (exists status, r = NotOk status) ->
     let p' := step p ((location, canvasId), r) in
     charts p' = charts p /\ attached p' = attached p /\
     forall c, live_on c p' = live_on c p).
Proof.
  intros p.
  assert (C : consistent p) by (apply run_consistent, initial_consistent).
  split; [|split].
  - intros canvasId. now apply consistent_one.
  - intros location canvasId d data Hcall Hc.
    apply data_replaces; auto.
    + unfold p. now rewrite run_canvases.
    + eapply history_key_not_inherited; eauto.
  - intros location canvasId r Hr p'.
    assert (E : p' = p \/ p' = log location p).
    { unfold p', step, renderHistoryForLocation. simpl.
      destruct (negb _); auto.
      destruct Hr as [->|[status ->]]; auto. }
    destruct E as [->| ->]; repeat split; reflexivity.
Qed.

(** Two fetches with data, one after the other, leave one chart on the
    canvas, and a failed fetch after them leaves that chart in place. *)
Example two_fetches_leave_one_chart :
  let data := [measured (Num (Fin 30%Q)) (Num (Fin (-5)%Q)) Undefined Undefined] in
  let p := run [ (("NAC", "chart-nac"), Body (Some data));
                 (("NAC", "chart-nac"), Body (Some data));
                 (("NAC", "chart-nac"), NotOk 500) ]
               (initial ["chart-dows"; "chart-fifth"; "chart-nac"]) in
  live_on "chart-nac" p = [1%nat] /\
  trace p = [Attached 0 "chart-nac"; Destroyed 0; Attached 1 "chart-nac"; Logged "NAC"] /\
  own (charts p) "nac" = Some (Some 1%nat).
Proof. repeat split; reflexivity. Qed.

(** A fetch that brings an empty array, or no array, clears the canvas and
    leaves [charts] and the attached instances as they were: no chart is
    constructed, and a chart drawn earlier stays registered. *)
Theorem empty_history_constructs_nothing
    (p : page) (location canvasId : string) (r : fetched) :
  r = Body None \/ r = Body (Some []) ->
  let p' := step p ((location, canvasId), r) in
  charts p' = charts p /\ attached p' = attached p /\
  constructed p' = constructed p /\
  (In canvasId (canvases p) -> trace p' = trace p ++ [Cleared canvasId]).
Proof.
  intros Hr p'. unfold p', step, renderHistoryForLocation. simpl.
  destruct (existsb (String.eqb canvasId) (canvases p)) eqn:E; simpl.
  - destruct Hr as [-> | ->]; repeat split; reflexivity.
  - repeat split; try reflexivity. intros Hin.
    rewrite (canvas_present _ _ Hin) in E. discriminate.
Qed.

Lemma empty_history_after_a_chart :
  let data := [measured (Num (Fin 30%Q)) (Num (Fin (-5)%Q)) Undefined Undefined] in
  let p := run [ (("NAC", "chart-nac"), Body (Some data));
                 (("NAC", "chart-nac"), Body (Some [])) ]
               (initial ["chart-dows"; "chart-fifth"; "chart-nac"]) in
  live_on "chart-nac" p = [0%nat] /\
  trace p = [Attached 0 "chart-nac"; Cleared "chart-nac"].
Proof.
  pose proof (empty_history_constructs_nothing
                (run [ (("NAC", "chart-nac"),
                        Body (Some [measured (Num (Fin 30%Q)) (Num (Fin (-5)%Q))
                                      Undefined Undefined])) ]
                     (initial ["chart-dows"; "chart-fifth"; "chart-nac"]))
                "NAC" "chart-nac" (Body (Some [])) (or_intror eq_refl))
    as (_ & _ & _ & T).
  split; [reflexivity|]. exact (T (or_intror (or_intror (or_introl eq_refl)))).
Defined.

(** The latest-status renderer shows the "no data" text for an empty array
    and for a body that is no array, and the error text when the fetch
    fails or the status is not ok; it shows cards in no other case than a
    non-empty array. *)
Theorem latest_placeholders (localeCompare : string -> string -> Z) :
  fetchAndRenderLatest localeCompare (Body (Some [])) = NoData /\
  fetchAndRenderLatest localeCompare (Body None) = NoData /\
  fetchAndRenderLatest localeCompare Rejected = ErrorLoading /\
  (forall status, fetchAndRenderLatest localeCompare (NotOk status) = ErrorLoading) /\
  (forall r cs, fetchAndRenderLatest localeCompare r = Cards cs ->
     exists d data, r = Body (Some (d :: data)) /\ length cs = S (length data)).
Proof.
  repeat split; try reflexivity.
  intros r cs H. destruct r as [| status | [[|d data]|]]; try discriminate.
  exists d, data. split; [reflexivity|].
  unfold fetchAndRenderLatest in H.
  destruct (Js.bind _ _) as [cs'|e] eqn:B; [|discriminate].
  injection H as ->.
  destruct (Client.sort (compare localeCompare) (d :: data)) as [sorted|e] eqn:Hs;
    [|discriminate].
  simpl in B.
  assert (L : forall l out, forEach buildStatusCard l = Normal out ->
                            length out = length l).
  { induction l as [|x l IH]; simpl; intros out.
    - now intros [= <-].
    - destruct (buildStatusCard x); simpl; [|discriminate].
      destruct (forEach buildStatusCard l) as [ys|]; simpl; [|discriminate].
      intros [= <-]. simpl. now rewrite (IH ys eq_refl). }
  rewrite (L _ _ B).
  apply ArrayFacts.sort_permutation, Permutation_length in Hs.
  now rewrite <- Hs.
Qed.


(* ================================================================== *)
(** * /api/latest: beyond the sample *)
(* ================================================================== *)

Module SampleFacts.

Import Cosmos Server.

Lemma firstn_split {A : Type} (x : A) n : forall l,
  In x (firstn n l) ->
  exists pre post, l = pre ++ x :: post /\ (length pre < n)%nat.
Proof.
  induction n as [|n IH]; intros [|y l] H; simpl in H; try contradiction.
  destruct H as [->|H].
  - exists [], l. split; [reflexivity | simpl; lia].
  - destruct (IH _ H) as (pre & post & -> & L).
    exists (y :: pre), post. split; [reflexivity | simpl; lia].
Qed.

Lemma filter_within {A : Type} (f g : A -> bool) l :
  (forall x, f x = true -> g x = true) ->
  filter f (filter g l) = filter f l.
Proof.
  intros I. induction l as [|x l IH]; simpl; auto.
  destruct (g x) eqn:G; simpl.
  - now rewrite IH.
  - destruct (f x) eqn:F; auto. apply I in F. congruence.
Qed.

Lemma later_defined d x : later_than d x = true -> defined (windowEnd x) = true.
Proof.
  unfold later_than, order_leb. destruct (windowEnd x); simpl; auto.
  destruct (windowEnd d); simpl; discriminate.
Qed.

Lemma later_irrefl d : later_than d d = false.
Proof.
  unfold later_than.
  destruct (OrderFacts.order_leb_total (windowEnd d) (windowEnd d)) as [E|E];
    now rewrite E.
Qed.

Lemma filter_none {A : Type} (f : A -> bool) l :
  (forall x, In x l -> f x = false) -> filter f l = [].
Proof.
  induction l as [|x l IH]; simpl; intros H; auto.
  rewrite (H x) by auto. auto.
Qed.

Lemma sample_is_a_prefix items :
  select latestQuery items =
  firstn 100 (sort (doc_leb (c_windowEnd, DESC))
                   (filter (fun d => defined (windowEnd d)) items)).
Proof.
  unfold select, matching.
  change (top latestQuery) with (Some 100%nat). cbv iota.
  change (orderBy latestQuery) with (c_windowEnd, DESC).
  change (where_ latestQuery) with (@nil predicate).
  f_equal. f_equal.
  rewrite filter_within; auto.
Qed.

Lemma outside_the_sample items d :
  (100 <= length (filter (later_than d) items))%nat ->
  ~ In d (select latestQuery items).
Proof.
  intros Many H. rewrite sample_is_a_prefix in H.
  set (known := filter (fun d => defined (windowEnd d)) items) in *.
  pose proof (OrderFacts.sort_sorted (doc_leb (c_windowEnd, DESC))
                (OrderFacts.doc_leb_total _) (OrderFacts.doc_leb_trans _) known) as Sorted.
  pose proof (OrderFacts.sort_perm (doc_leb (c_windowEnd, DESC)) known) as Perm.
  destruct (firstn_split _ _ _ H) as (pre & post & E & Short).
  rewrite E in Sorted, Perm.
  assert (L : length (filter (later_than d) items)
              = length (filter (later_than d) (pre ++ d :: post))).
  { rewrite <- (filter_within (later_than d) (fun d => defined (windowEnd d)))
      by apply later_defined.
    apply Permutation_length, ObjectFacts.filter_perm, Perm. }
  rewrite filter_app in L. simpl in L. rewrite later_irrefl in L.
  rewrite (filter_none (later_than d) post) in L.
  - rewrite app_nil_r in L.
    pose proof (filter_length_le (later_than d) pre). lia.
  - intros y Y. pose proof (sorted_after _ _ _ _ Sorted y Y) as R.
    simpl in R. unfold later_than. now rewrite R.
Qed.

Lemma sample_in_items items d : In d (select latestQuery items) -> In d items.
Proof.
  rewrite sample_is_a_prefix. intros H.
  apply OrderFacts.in_firstn in H.
  eapply Permutation_in in H; [|apply Permutation_sym, OrderFacts.sort_perm].
  apply filter_In in H. tauto.
Qed.

End SampleFacts.

(** A document with a hundred later documents in the container is outside
    the sample of /api/latest and is not returned; a location all of whose
    documents are in that position is absent from the answer, although the
    container holds documents of it. *)
Theorem latest_forgets_beyond_the_sample (items : list document) :
  exists body,
    Server.api_latest (Cosmos.Reachable items) = Server.json body /\
    (forall d, (100 <= length (filter (later_than d) items))%nat -> ~ In d body) /\
    (forall k,
       (forall d, In d items -> keyed k d = true ->
                  (100 <= length (filter (later_than d) items))%nat) ->
       filter (keyed k) body = []).
Proof.
  exists (Server.getLatest (Cosmos.select Server.latestQuery items)).
  split; [reflexivity|].
  assert (Out : forall d, (100 <= length (filter (later_than d) items))%nat ->
                ~ In d (Server.getLatest (Cosmos.select Server.latestQuery items))).
  { intros d Many H. apply (SampleFacts.outside_the_sample items d Many).
    apply LatestFacts.in_getLatest in H. unfold first_keyed in H.
    destruct (inherited (Server.loc d)); [discriminate|].
    apply find_some in H. tauto. }
  split; [exact Out|].
  intros k All. apply SampleFacts.filter_none. intros d H.
  destruct (keyed k d) eqn:K; auto. exfalso.
  apply (Out d); auto. apply All; auto.
  apply LatestFacts.in_getLatest in H. unfold first_keyed in H.
  destruct (inherited (Server.loc d)); [discriminate|].
  apply find_some in H. destruct H as [H _].
  now apply SampleFacts.sample_in_items.
Qed.

Lemma latest_forgets_witness :
  let recent := repeat (reading (Str "NAC") (Str "2025-01-10T11:00:00.000Z")) 100 in
  let old := reading (Str "Dows Lake") (Str "2025-01-09T13:00:00.000Z") in
  exists body,
    Server.api_latest (Cosmos.Reachable (old :: recent)) = Server.json body /\
    ~ In old body /\
    filter (keyed "Dows Lake") body = [].
Proof.
  intros recent old.
  destruct (latest_forgets_beyond_the_sample (old :: recent)) as (body & E & Out & Key).
  exists body. split; [exact E|]. split.
  - apply Out. vm_compute. apply le_n.
  - apply Key. intros d [<-|H] K.
    + vm_compute. apply le_n.
    + apply repeat_spec in H. subst d. discriminate.
Defined.

(* ================================================================== *)
(** * /api/history: the location narrows the window *)
(* ================================================================== *)

Module FilterFacts.

Import Cosmos Server.

Section FilterSort.
Context {A : Type} (leb : A -> A -> bool) (keep : A -> bool).
Hypothesis leb_total : forall a b, leb a b = true \/ leb b a = true.
Hypothesis leb_trans :
  forall a b c, leb a b = true -> leb b c = true -> leb a c = true.

Lemma insert_first x l :
  (forall y, In y l -> leb x y = true) -> insert leb x l = x :: l.
Proof.
  destruct l as [|y l]; simpl; auto.
  intros H. now rewrite (H y) by auto.
Qed.

Lemma filter_insert x l :
  StronglySorted (fun a b => leb a b = true) l ->
  filter keep (insert leb x l) =
  if keep x then insert leb x (filter keep l) else filter keep l.
Proof.
  induction 1 as [|y l Sorted IH Below]; simpl.
  - now destruct (keep x).
  - destruct (leb x y) eqn:L; simpl.
    + destruct (keep x) eqn:K; auto.
      symmetry. apply (insert_first x (filter keep (y :: l))).
      intros z Z. apply filter_In in Z. destruct Z as [[<-|Z] _]; auto.
      rewrite Forall_forall in Below. eauto.
    + rewrite IH. destruct (keep x), (keep y); simpl; auto.
      now rewrite L.
Qed.

Lemma filter_sort l : filter keep (sort leb l) = sort leb (filter keep l).
Proof.
  induction l as [|x l IH]; simpl; auto.
  rewrite filter_insert by now apply OrderFacts.sort_sorted.
  rewrite IH. now destruct (keep x).
Qed.

End FilterSort.

Lemma filter_both {A : Type} (f g : A -> bool) l :
  filter g (filter f l) = filter (fun x => f x && g x) l.
Proof.
  induction l as [|x l IH]; simpl; auto.
  destruct (f x); simpl; auto. destruct (g x); simpl; now rewrite IH.
Qed.

(** The documents the history query selects, sorted. *)
Lemma history_sorted ql since items :
  select (historyQuery (or_else (param ql) (Str "")) since) items =
  sort (doc_leb (c_windowEnd, ASC)) (filter (wanted ql since) items).
Proof.
  unfold select. change (top _) with (@None nat). cbv iota.
  rewrite HistoryFacts.matching_wanted.
  rewrite HistoryFacts.filter_implied; [reflexivity|].
  intros d. apply HistoryFacts.wanted_defined.
Qed.

Lemma select_located l since items :
  l <> "" ->
  select (historyQuery (or_else (param (Some l)) (Str "")) since) items =
  filter (located l)
    (select (historyQuery (or_else (param None) (Str "")) since) items).
Proof.
  intros N. rewrite !history_sorted.
  rewrite filter_sort by
    (try apply OrderFacts.doc_leb_total; apply OrderFacts.doc_leb_trans).
  rewrite filter_both. f_equal. apply filter_ext. intros d.
  unfold wanted. destruct l; [congruence|].
  now rewrite andb_true_r.
Qed.

End FilterFacts.

(** The answer of /api/history for a location is the answer for no
    location, narrowed to the documents of that location and in the same
    order: with the same [hours] and clock, against the same container.  A
    failure is the same failure.  An empty location is no location. *)
Theorem history_location_narrows_the_window
    (l : string) (qh : option string) (now : Z) (c : Cosmos.container) :
  l <> "" ->
  Server.api_history (Some l) qh now c =
  match Server.api_history None qh now c with
  | Server.json body => Server.json (filter (located l) body)
  | failure => failure
  end /\
  Server.api_history (Some "") qh now c = Server.api_history None qh now c.
Proof.
  intros N. split; [|reflexivity].
  unfold Server.api_history.
  destruct (Server.since_of now (Server.hours_of qh)) as [since|e]; auto.
  destruct c as [items|]; simpl Cosmos.fetchAll; cbv iota; auto.
  f_equal. now apply FilterFacts.select_located.
Qed.

Lemma history_location_witness :
  Server.api_history (Some "NAC") (Some "48") noon (Cosmos.Reachable canal) =
  Server.json [reading (Str "NAC") (Str "2025-01-10T10:00:00.000Z")] /\
  Server.api_history None (Some "48") noon (Cosmos.Reachable canal) =
  Server.json [ reading (Str "Dows Lake") (Str "2025-01-09T13:00:00.000Z");
                reading (Str "NAC") (Str "2025-01-10T10:00:00.000Z");
                reading (Str "Dows Lake") (Str "2025-01-10T11:00:00.000Z") ].
Proof.
  assert (N : "NAC" <> "") by discriminate.
  split; [|reflexivity].
  rewrite (proj1 (history_location_narrows_the_window
                    "NAC" (Some "48") noon (Cosmos.Reachable canal) N)).
  reflexivity.
Defined.

(* ================================================================== *)
(** * The charts over many refreshes *)
(* ================================================================== *)

Module RefreshFacts.

Import Client ObjectFacts ChartFacts.

Lemma step_cases p location canvasId r :
  let p' := step p ((location, canvasId), r) in
  let key := canvasIdToKey canvasId in
  (p' = p \/ p' = log location p \/ p' = clearRect canvasId p) \/
  exists data q,
    r = Body (Some data) /\
    (q = p /\ (own (charts p) key = Some None \/ own (charts p) key = None) \/
     exists h, own (charts p) key = Some (Some h) /\ q = destroy h p) /\
    p' = newChart key (chart_of canvasId data) q.
Proof.
  intros p' key. unfold p', step, renderHistoryForLocation. simpl.
  destruct (negb _); auto.
  destruct r as [| status | [[|d data]|]]; auto.
  fold key. fold (chart_of canvasId (d :: data)).
  destruct (get (charts p) key) as [[h|]| |] eqn:G; auto; unfold get in G;
    right; exists (d :: data).
  - exists (destroy h p). split; auto. split; auto. right. exists h. split; auto.
    destruct (own (charts p) key); [congruence|].
    destruct (inherited key); discriminate.
  - exists p. split; auto. split; auto. left. split; auto. left.
    destruct (own (charts p) key); [congruence|].
    destruct (inherited key); discriminate.
  - exists p. split; auto. split; auto. left. split; auto. right.
    destruct (own (charts p) key); [discriminate|auto].
Qed.

(** A fetch with data, for a canvas of the page whose key is no inherited
    name, constructs a chart. *)
Lemma step_data p location canvasId d data :
  In canvasId (canvases p) -> inherited (canvasIdToKey canvasId) = false ->
  exists q,
    (q = p \/ exists h, own (charts p) (canvasIdToKey canvasId) = Some (Some h) /\
                        q = destroy h p) /\
    step p ((location, canvasId), Body (Some (d :: data))) =
    newChart (canvasIdToKey canvasId) (chart_of canvasId (d :: data)) q.
Proof.
  intros Present Key. unfold step, renderHistoryForLocation. simpl.
  rewrite (canvas_present _ _ Present). simpl.
  fold (chart_of canvasId (d :: data)).
  destruct (get (charts p) (canvasIdToKey canvasId)) as [[h|]| |] eqn:G;
    unfold get in G; rewrite ?Key in G.
  - exists (destroy h p). split; auto. right. exists h. split; auto.
    destruct (own (charts p) _); [congruence|discriminate].
  - exists p. auto.
  - destruct (own (charts p) _); discriminate.
  - exists p. auto.
Qed.

(** A fetch that brings no data constructs nothing. *)
Lemma step_no_data p location canvasId r :
  (forall d data, r <> Body (Some (d :: data))) ->
  let p' := step p ((location, canvasId), r) in
  p' = p \/ p' = log location p \/ p' = clearRect canvasId p.
Proof.
  intros N. destruct (step_cases p location canvasId r) as [H|(data & q & -> & _ & E)];
    auto.
  unfold step, renderHistoryForLocation in *. simpl in *.
  destruct (negb _); auto. destruct data as [|d data]; auto.
  now destruct (N d data).
Qed.

Lemma one_chart_per_handle {A : Type} (l : list (nat * A)) h a b :
  NoDup (map fst l) -> In (h, a) l -> In (h, b) l -> a = b.
Proof.
  induction l as [|[h' c] l IH]; simpl; [tauto|].
  intros D. inversion D as [|? ? Hn Hd]; subst.
  intros [E1|H1] [E2|H2].
  - congruence.
  - injection E1 as -> ->. destruct Hn. change h with (fst (h, b)). now apply in_map.
  - injection E2 as -> ->. destruct Hn. change h with (fst (h, a)). now apply in_map.
  - auto.
Qed.

(** The chart that [charts] holds under a key is attached to no canvas of
    another key. *)
Lemma registered_elsewhere p key h c :
  consistent p -> backed p ->
  own (charts p) key = Some (Some h) -> In (h, c) (attached p) ->
  canvasIdToKey (canvas c) = key.
Proof.
  intros C B O H. destruct (B _ _ O) as (c' & H' & <-).
  now rewrite (one_chart_per_handle _ _ _ _ (distinct p C) H H').
Qed.

Lemma initial_backed cs : backed (initial cs).
Proof.
  intros k h O. unfold initial in O. cbn [charts own] in O.
  repeat match type of O with
         | context [String.eqb ?a k] => destruct (String.eqb a k)
         end; discriminate.
Qed.

Lemma newChart_backed key c q :
  key = canvasIdToKey (canvas c) ->
  (forall k h, k <> key -> own (charts q) k = Some (Some h) ->
     exists c', In (h, c') (attached q) /\ canvasIdToKey (canvas c') = k) ->
  backed (newChart key c q).
Proof.
  intros K B k h. simpl. destruct (String.eqb key k) eqn:E.
  - apply String.eqb_eq in E. subst k. rewrite own_set_same. intros [= <-].
    exists c. split; auto.
  - apply String.eqb_neq in E. rewrite own_set_other by auto. intros O.
    destruct (B k h) as (c' & H & Kc); auto. exists c'. auto.
Qed.

Lemma step_backed p e : consistent p -> backed p -> backed (step p e).
Proof.
  intros C B. destruct e as [[location canvasId] r].
  destruct (step_cases p location canvasId r)
    as [[->|[->| ->]]|(data & q & -> & [[-> _]|(h & O & ->)] & ->)]; auto.
  - apply newChart_backed; auto.
  - apply newChart_backed; auto. intros k h' N O'.
    destruct (B _ _ O') as (c' & H & K). exists c'. split; auto.
    apply in_destroy. split; auto. intros ->.
    apply N. rewrite <- K. eapply registered_elsewhere; eauto.
Qed.

Lemma run_sound es : forall p,
  consistent p -> backed p -> consistent (run es p) /\ backed (run es p).
Proof.
  induction es as [|e es IH]; simpl; auto.
  intros p C B. apply IH; [now apply step_consistent | now apply step_backed].
Qed.

(** ** The chart on a canvas *)

Lemma find_filter {A : Type} (f g : A -> bool) l :
  (forall x, In x l -> f x = true -> g x = true) ->
  find f (filter g l) = find f l.
Proof.
  induction l as [|x l IH]; simpl; auto. intros H.
  destruct (g x) eqn:G; simpl.
  - destruct (f x); auto.
  - destruct (f x) eqn:F; auto. rewrite H in G; auto. discriminate.
Qed.

Lemma drawn_destroy canvasId h p :
  (forall c, In (h, c) (attached p) -> canvas c <> canvasId) ->
  drawn canvasId (destroy h p) = drawn canvasId p.
Proof.
  intros H. unfold drawn, destroy. simpl. f_equal. apply find_filter.
  intros [h' c] Hin On. simpl. apply negb_true_iff, Nat.eqb_neq. intros ->.
  apply (H c Hin). unfold on_canvas in On. now apply String.eqb_eq in On.
Qed.

Lemma drawn_newChart canvasId key c q :
  drawn canvasId (newChart key c q) =
  if String.eqb (canvas c) canvasId then Some c else drawn canvasId q.
Proof.
  unfold drawn, newChart. simpl. unfold on_canvas at 1. simpl.
  now destruct (String.eqb (canvas c) canvasId).
Qed.

(** A fetch for a canvas of another key leaves the chart of a canvas as
    it is. *)
Lemma drawn_frame p location other r canvasId :
  consistent p -> backed p ->
  canvasIdToKey other <> canvasIdToKey canvasId ->
  drawn canvasId (step p ((location, other), r)) = drawn canvasId p.
Proof.
  intros C B N.
  assert (Ne : String.eqb other canvasId = false).
  { apply String.eqb_neq. intros ->. now apply N. }
  destruct (step_cases p location other r)
    as [[->|[->| ->]]|(data & q & -> & [[-> _]|(h & O & ->)] & ->)]; auto;
    rewrite drawn_newChart; simpl; rewrite Ne; auto.
  apply drawn_destroy. intros c H <-. apply N. symmetry.
  eapply registered_elsewhere; eauto.
Qed.

Lemma history_keys_differ l c l' c' :
  In (l, c) history_calls -> In (l', c') history_calls -> c <> c' ->
  canvasIdToKey c <> canvasIdToKey c'.
Proof.
  intros [E|[E|[E|[]]]] [E'|[E'|[E'|[]]]]; injection E as <- <-;
    injection E' as <- <-; intros N; try (now destruct N); discriminate.
Qed.

Lemma step_canvases p e : canvases (step p e) = canvases p.
Proof. apply (run_canvases [e]). Qed.

Lemma drawn_step p location canvasId e :
  consistent p -> backed p ->
  In (location, canvasId) history_calls -> In canvasId (canvases p) ->
  issued e ->
  drawn canvasId (step p e) =
  match last_data canvasId [e] with
  | Some data => Some (chart_of canvasId data)
  | None => drawn canvasId p
  end.
Proof.
  intros C B Call Present I. destruct e as [[l c] r]. unfold issued in I.
  cbn [fst] in I. cbn [last_data].
  destruct (String.eqb c canvasId) eqn:E.
  - apply String.eqb_eq in E. subst c.
    assert (D : (exists d data, r = Body (Some (d :: data))) \/
                forall d data, r <> Body (Some (d :: data))).
    { destruct r as [| |[[|d data]|]]; eauto; right; discriminate. }
    destruct D as [(d & data & ->)|D].
    + destruct (step_data p l canvasId d data Present) as (q & _ & ->).
      { eapply history_key_not_inherited; eauto. }
      rewrite drawn_newChart. simpl. now rewrite String.eqb_refl.
    + assert (A : attached (step p ((l, canvasId), r)) = attached p).
      { destruct (step_no_data p l canvasId r D) as [->|[->| ->]]; auto. }
      unfold drawn. rewrite A.
      destruct r as [| |[[|d data]|]]; auto. now destruct (D d data).
  - rewrite drawn_frame; auto.
    + destruct r as [| |[[|d data]|]]; auto.
    + apply String.eqb_neq in E. eapply history_keys_differ; eauto.
Qed.

Lemma drawn_run canvasId location es : forall p,
  consistent p -> backed p ->
  In (location, canvasId) history_calls -> In canvasId (canvases p) ->
  Forall issued es ->
  drawn canvasId (run es p) =
  match last_data canvasId es with
  | Some data => Some (chart_of canvasId data)
  | None => drawn canvasId p
  end.
Proof.
  induction es as [|e es IH]; intros p C B Call Present I; auto.
  inversion I as [|? ? Ie Ies]; subst.
  change (run (e :: es) p) with (run es (step p e)).
  rewrite IH; auto using step_consistent, step_backed.
  2:{ now rewrite step_canvases. }
  rewrite (drawn_step p location canvasId e); auto.
  destruct e as [[l c] r]. simpl.
  destruct (last_data canvasId es); auto.
Qed.

(** ** Counting the charts *)

Lemma destroy_length {A : Type} (l : list (nat * A)) h a :
  NoDup (map fst l) -> In (h, a) l ->
  S (length (filter (fun e => negb (Nat.eqb (fst e) h)) l)) = length l.
Proof.
  induction l as [|[h' c] l IH]; simpl; [tauto|].
  intros D. inversion D as [|? ? Hn Hd]; subst. intros [E|H].
  - injection E as -> ->. rewrite Nat.eqb_refl. simpl. f_equal.
    f_equal. clear IH D Hd.
    induction l as [|[h' c] l IH]; simpl; auto.
    destruct (Nat.eqb h' h) eqn:E; simpl.
    + apply Nat.eqb_eq in E. subst h'. destruct Hn. simpl. auto.
    + f_equal. apply IH. intros H. apply Hn. simpl. auto.
  - destruct (Nat.eqb h' h) eqn:E; simpl.
    + apply Nat.eqb_eq in E. subst h'. destruct Hn.
      change h with (fst (h, a)). now apply in_map.
    + f_equal. now apply IH.
Qed.

Lemma constructions_app t e :
  constructions (t ++ [e]) =
  (constructions t + match e with Attached _ _ => 1 | _ => 0 end)%nat.
Proof.
  unfold constructions. rewrite filter_app, length_app. now destruct e.
Qed.

Lemma destructions_app t e :
  destructions (t ++ [e]) =
  (destructions t + match e with Destroyed _ => 1 | _ => 0 end)%nat.
Proof.
  unfold destructions. rewrite filter_app, length_app. now destruct e.
Qed.

Lemma step_balanced p e :
  consistent p -> backed p -> balanced p -> balanced (step p e).
Proof.
  intros C B [Built Balance]. destruct e as [[location canvasId] r].
  destruct (step_cases p location canvasId r)
    as [[->|[->| ->]]|(data & q & -> & [[-> _]|(h & O & ->)] & ->)];
    unfold balanced; simpl;
    rewrite ?constructions_app, ?destructions_app; simpl; try lia.
  destruct (B _ _ O) as (c & H & _).
  pose proof (destroy_length _ _ _ (distinct p C) H). lia.
Qed.

Lemma run_balanced es : forall p,
  consistent p -> backed p -> balanced p -> balanced (run es p).
Proof.
  induction es as [|e es IH]; simpl; auto.
  intros p C B A. apply IH;
    [now apply step_consistent | now apply step_backed | now apply step_balanced].
Qed.

(** The charts of the three calls are attached to their canvases. *)
Lemma step_on_history_canvases p e :
  issued e ->
  Forall (fun a => In (canvas (snd a)) (map snd history_calls)) (attached p) ->
  Forall (fun a => In (canvas (snd a)) (map snd history_calls)) (attached (step p e)).
Proof.
  intros I F. destruct e as [[location canvasId] r]. unfold issued in I. cbn [fst] in I.
  assert (Here : In canvasId (map snd history_calls)).
  { change canvasId with (snd (location, canvasId)). now apply in_map. }
  assert (Less : forall h, Forall (fun a => In (canvas (snd a)) (map snd history_calls))
                             (attached (destroy h p))).
  { intros h. apply Forall_forall. intros [h' c] H. apply in_destroy in H.
    rewrite Forall_forall in F. now apply (F (h', c)). }
  destruct (step_cases p location canvasId r)
    as [[->|[->| ->]]|(data & q & -> & [[-> _]|(h & O & ->)] & ->)]; auto;
    constructor; auto.
Qed.

Lemma covered (l : list (nat * chart)) c1 c2 c3 :
  Forall (fun a => In (canvas (snd a)) [c1; c2; c3]) l ->
  (length l <= length (filter (on_canvas c1) l) + length (filter (on_canvas c2) l)
               + length (filter (on_canvas c3) l))%nat.
Proof.
  induction 1 as [|a l Ha _ IH]; simpl; [lia|].
  assert (E : on_canvas c1 a = true \/ on_canvas c2 a = true \/ on_canvas c3 a = true).
  { unfold on_canvas. destruct Ha as [<-|[<-|[<-|[]]]]; rewrite String.eqb_refl; auto. }
  destruct (on_canvas c1 a), (on_canvas c2 a), (on_canvas c3 a); simpl; lia.
Qed.

Lemma run_on_history_canvases es : forall p,
  Forall issued es ->
  Forall (fun a => In (canvas (snd a)) (map snd history_calls)) (attached p) ->
  Forall (fun a => In (canvas (snd a)) (map snd history_calls)) (attached (run es p)).
Proof.
  induction es as [|e es IH]; simpl; auto.
  intros p I F. inversion I; subst. apply IH; auto.
  now apply step_on_history_canvases.
Qed.

End RefreshFacts.


(** Whatever the order in which the fetches of the three calls complete,
    over any number of refreshes, the chart attached to a canvas is the one
    built from the data of the fetch for that canvas that completed last
    among those that brought data, and there is none when no fetch brought
    data: a late answer of an earlier refresh replaces the chart of a newer
    one.  The completion of a fetch for another canvas leaves the chart as
    it is, whatever that fetch brings. *)
Theorem last_completed_fetch_is_drawn
    (page_canvases : list string) (events : list completion_event)
    (location canvasId : string) :
  Forall issued events ->
  In (location, canvasId) history_calls -> In canvasId page_canvases ->
  let p := run events (initial page_canvases) in
  drawn canvasId p = option_map (chart_of canvasId) (last_data canvasId events) /\
  forall l c r, In (l, c) history_calls -> c <> canvasId ->
    drawn canvasId (step p ((l, c), r)) = drawn canvasId p.
Proof.
  intros I Call Present p.
  destruct (RefreshFacts.run_sound events (initial page_canvases)
              (initial_consistent _) (RefreshFacts.initial_backed _)) as [C B].
  split.
  - unfold p. rewrite (RefreshFacts.drawn_run canvasId location); auto.
    + apply initial_consistent.
    + apply RefreshFacts.initial_backed.
  - intros l c r Other N. apply RefreshFacts.drawn_frame; auto.
    eapply RefreshFacts.history_keys_differ; eauto.
Qed.

Lemma late_answer_is_drawn :
  let old := [measured (Num (Fin 30%Q)) (Num (Fin (-5)%Q)) Undefined Undefined] in
  let new := [measured (Num (Fin 12%Q)) (Num (Fin 1%Q)) Undefined Undefined] in
  drawn "chart-nac"
    (run [ (("NAC", "chart-nac"), Body (Some new));
           (("Dows Lake", "chart-dows"), NotOk 500);
           (("NAC", "chart-nac"), Body (Some old));
           (("Fifth Avenue", "chart-fifth"), Body (Some [])) ]
         (initial ["chart-dows"; "chart-fifth"; "chart-nac"]))
  = Some (chart_of "chart-nac" old).
Proof.
  intros old new.
  refine (proj1 (last_completed_fetch_is_drawn
                   ["chart-dows"; "chart-fifth"; "chart-nac"]
                   [ (("NAC", "chart-nac"), Body (Some new));
                     (("Dows Lake", "chart-dows"), NotOk 500);
                     (("NAC", "chart-nac"), Body (Some old));
                     (("Fifth Avenue", "chart-fifth"), Body (Some [])) ]
                   "NAC" "chart-nac" _ _ _)).
  - repeat (apply Forall_cons; [unfold issued; simpl; auto 6|]). apply Forall_nil.
  - simpl; auto.
  - simpl; auto.
Defined.

(** No chart is leaked.  After any sequence of completed fetches, every
    chart constructed is in the trace, and is either attached or was
    destroyed; the attached charts are exactly those that [charts] holds;
    and while the fetches are those of the three calls, at most three
    charts are attached, however many refreshes have run. *)
Theorem no_chart_is_leaked
    (page_canvases : list string) (events : list completion_event) :
  let p := run events (initial page_canvases) in
  constructions (trace p) = constructed p /\
  (length (attached p) + destructions (trace p) = constructed p)%nat /\
  (forall h, In h (map fst (attached p)) <->
             exists k, own (charts p) k = Some (Some h)) /\
  (Forall issued events -> (length (attached p) <= 3)%nat).
Proof.
  intros p.
  destruct (RefreshFacts.run_sound events (initial page_canvases)
              (initial_consistent _) (RefreshFacts.initial_backed _)) as [C B].
  destruct (RefreshFacts.run_balanced events (initial page_canvases)
              (initial_consistent _) (RefreshFacts.initial_backed _))
    as [Built Balance]; [split; reflexivity|].
  fold p in C, B, Built, Balance.
  split; [exact Built|]. split; [exact Balance|]. split.
  - intros h. split.
    + intros H. apply in_map_iff in H. destruct H as ([h' c] & <- & H).
      eexists. apply (registered p C _ _ H).
    + intros [k O]. destruct (B _ _ O) as (c & H & _).
      change h with (fst (h, c)). now apply in_map.
  - intros I.
    pose proof (RefreshFacts.run_on_history_canvases events (initial page_canvases) I
                  (Forall_nil _)) as F.
    fold p in F. apply RefreshFacts.covered in F.
    pose proof (consistent_one p "chart-dows" C) as D.
    pose proof (consistent_one p "chart-fifth" C) as A.
    pose proof (consistent_one p "chart-nac" C) as N.
    unfold live_on in D, A, N. rewrite length_map in D, A, N.
    cbn [snd] in F. lia.
Qed.

(* ================================================================== *)
(** * The cards of a malformed document *)
(* ================================================================== *)

Lemma forEach_throws {A B : Type} (f : A -> completion B) l d e :
  In d l -> f d = Throw e -> exists e', forEach f l = Throw e'.
Proof.
  intros H T. induction l as [|x l IH]; simpl in *; [tauto|].
  destruct (f x) as [y|e'] eqn:F; simpl; [|eauto].
  destruct H as [->|H]; [congruence|].
  destruct (IH H) as [e' ->]. simpl. eauto.
Qed.

Lemma bad_status_throws d :
  truthy (safetyStatus d) = true -> (forall s, safetyStatus d <> Str s) ->
  exists e, buildStatusCard d = Throw e.
Proof.
  intros T N. unfold buildStatusCard, or_else. rewrite T.
  destruct (safetyStatus d) as [| | | |s]; simpl; eauto.
  now destruct (N s).
Qed.

(** One document whose status is truthy and no string, anywhere in the
    array, makes the page show the error text in place of every card: the
    cards of the other documents are not shown either. *)
Theorem one_bad_status_blanks_the_cards
    (localeCompare : string -> string -> Z) (data : list document) (d : document) :
  In d data ->
  truthy (safetyStatus d) = true -> (forall s, safetyStatus d <> Str s) ->
  fetchAndRenderLatest localeCompare (Body (Some data)) = ErrorLoading.
Proof.
  intros H T N. destruct (bad_status_throws d T N) as [e Bad].
  destruct data as [|x rest]; [destruct H|].
  unfold fetchAndRenderLatest.
  destruct (sort (compare localeCompare) (x :: rest)) as [sorted|e'] eqn:S;
    [|reflexivity].
  apply ArrayFacts.sort_permutation in S. simpl bind.
  destruct (forEach_throws buildStatusCard sorted d e) as [e' ->]; auto.
  eapply Permutation_in; [exact S | exact H].
Qed.

Lemma one_bad_status_witness :
  fetchAndRenderLatest ordinal
    (Body (Some [ with_status (Str "Safe"); with_status (Num (Fin 1%Q));
                  with_status (Str "Closed") ]))
  = ErrorLoading.
Proof.
  apply (one_bad_status_blanks_the_cards ordinal _ (with_status (Num (Fin 1%Q)))).
  - simpl. auto.
  - reflexivity.
  - discriminate.
Defined.

(* ================================================================== *)
(** * A history chart, from the store to the canvas *)
(* ================================================================== *)

Module WireFacts.

Import Server.

Lemma a_day_before now :
  - Date.max_time + 86400000 <= now <= Date.max_time ->
  since_of now (hours_of (Some "24")) = Normal (Date.iso_text (now - 86400000)).
Proof.
  intros R.
  assert (H : hours_of (Some "24") = Fin 24%Q) by (vm_compute; reflexivity).
  assert (M : mul (mul (mul (Fin 24%Q) (Fin 60%Q)) (Fin 60%Q)) (Fin 1000%Q)
              = Fin 86400000%Q) by (vm_compute; reflexivity).
  rewrite H.
  apply (NumberFacts.since_of_whole now (Fin 24%Q) _ 86400000 M).
  - reflexivity.
  - unfold Date.max_time in *. lia.
  - unfold Date.max_time in *. lia.
Qed.

Lemma series_over_json data :
  iceValues (map Wire.over_json data) =
    map (fun d => series (Wire.json_value (avgIceThickness d))) data /\
  tempValues (map Wire.over_json data) =
    map (fun d => series (Wire.json_value (avgSurfaceTemperature d))) data.
Proof. unfold iceValues, tempValues. now rewrite !map_map. Qed.

End WireFacts.

(** The page and the server together, for one call of
    [fetchAndRenderHistory].  While the clock is a day or more after the
    earliest date, the request [hours=24] is answered.  When the store
    fails the page logs the failure and leaves the chart as it is.
    Otherwise the body holds the documents of the location whose window end
    is not before the ISO text of the time 24 hours ago, all of them, in
    ascending order; when there is none the canvas is cleared, and else the
    canvas shows a chart whose two series are [Number(field || 0)] of the
    documents as JSON carries them, in that order. *)
Theorem history_chart_shows_the_last_day
    (location canvasId : string) (now : Z) (c : Cosmos.container) (p : page) :
  In (location, canvasId) history_calls -> In canvasId (canvases p) ->
  - Date.max_time + 86400000 <= now <= Date.max_time ->
  let since := Date.iso_text (now - 86400000) in
  exists r,
    Wire.history_fetch location now c = Some r /\
    let p' := step p ((location, canvasId), r) in
    match c with
    | Cosmos.Unreachable => r = NotOk 500 /\ p' = log location p
    | Cosmos.Reachable items =>
        exists body,
          r = Body (Some (map Wire.over_json body)) /\
          Permutation (filter (wanted (Some location) since) items) body /\
          StronglySorted ascending body /\
          (body = [] -> p' = clearRect canvasId p) /\
          (body <> [] ->
           exists shown,
             drawn canvasId p' = Some shown /\
             ice shown = map (fun d => series (Wire.json_value (avgIceThickness d))) body /\
             temp shown =
               map (fun d => series (Wire.json_value (avgSurfaceTemperature d))) body)
    end.
Proof.
  intros Call Present Range since.
  pose proof (WireFacts.a_day_before now Range) as S. fold since in S.
  unfold Wire.history_fetch.
  rewrite (HistoryFacts.api_history_answer (Some location) (Some "24") now c since S).
  assert (Here : existsb (String.eqb canvasId) (canvases p) = true)
    by now apply canvas_present.
  destruct c as [items|]; simpl Wire.received.
  - set (body := Cosmos.select _ items).
    eexists. split; [reflexivity|]. exists body.
    destruct (HistoryFacts.history_select (Some location) since items) as (P & A & _).
    fold body in P, A. repeat split; auto.
    + intros ->. unfold step, renderHistoryForLocation. simpl. now rewrite Here.
    + intros N. destruct body as [|d rest] eqn:B; [now destruct N|]. rewrite <- B.
      exists (chart_of canvasId (map Wire.over_json body)).
      destruct (WireFacts.series_over_json body) as [I T].
      split; [|split; [exact I|exact T]].
      rewrite B. simpl map.
      destruct (RefreshFacts.step_data p location canvasId (Wire.over_json d)
                  (map Wire.over_json rest) Present) as (q & _ & ->).
      { eapply history_key_not_inherited; eauto. }
      rewrite RefreshFacts.drawn_newChart. simpl. now rewrite String.eqb_refl.
  - eexists. split; [reflexivity|]. split; auto.
    unfold step, renderHistoryForLocation. simpl. now rewrite Here.
Qed.

Lemma history_chart_witness :
  let at_ := fun w i t =>
    {| location := Str "NAC"; windowEnd := Str w;
       avgIceThickness := i; avgSurfaceTemperature := t;
       maxSnowAccumulation := Undefined; safetyStatus := Str "Safe";
       readingCount := Undefined |} in
  let items := [ at_ "2025-01-10T10:00:00.000Z" (Num (Fin 31%Q)) (Num (Fin (-4)%Q));
                 at_ "2025-01-09T09:00:00.000Z" (Num (Fin 28%Q)) (Num (Fin (-9)%Q));
                 at_ "2025-01-09T18:00:00.000Z" (Str "29.5") Undefined ] in
  let p := initial ["chart-dows"; "chart-fifth"; "chart-nac"] in
  exists r,
    Wire.history_fetch "NAC" noon (Cosmos.Reachable items) = Some r /\
    option_map ice (drawn "chart-nac" (step p (("NAC", "chart-nac"), r)))
      = Some [Fin (59 # 2); Fin 31%Q] /\
    option_map temp (drawn "chart-nac" (step p (("NAC", "chart-nac"), r)))
      = Some [Fin 0%Q; Fin (-4)%Q].
Proof.
  intros at_ items p.
  destruct (history_chart_shows_the_last_day "NAC" "chart-nac" noon
              (Cosmos.Reachable items) p) as (r & F & _).
  - simpl. auto.
  - simpl. auto.
  - unfold Date.max_time, noon. lia.
  - exists r. split; [exact F|].
    vm_compute in F. injection F as <-. split; reflexivity.
Defined.

(* ================================================================== *)
(** * The order of ISO texts, and the window of /api/history *)
(* ================================================================== *)

Module IsoFacts.

Import Date.

(** A property that holds from each integer to the next holds from each to
    every later one. *)
Lemma step_by_step {A : Type} (R : A -> A -> Prop) (f : Z -> A) lo hi :
  (forall a b c, R a b -> R b c -> R a c) ->
  (forall i, lo <= i < hi -> R (f i) (f (i + 1))) ->
  forall a b, lo <= a -> a < b -> b <= hi -> R (f a) (f b).
Proof.
  intros Trans Step a b La Lab Lb.
  replace b with (a + 1 + Z.of_nat (Z.to_nat (b - a - 1))) in * by lia.
  induction (Z.to_nat (b - a - 1)) as [|n IH].
  - rewrite Z.add_0_r. apply Step. lia.
  - apply Trans with (f (a + 1 + Z.of_nat n)); [apply IH; lia|].
    replace (a + 1 + Z.of_nat (S n)) with (a + 1 + Z.of_nat n + 1) by lia.
    apply Step. lia.
Qed.

(** *** The order of strings *)

Lemma ascii_compare_refl c : Ascii.compare c c = Datatypes.Eq.
Proof. unfold Ascii.compare. apply N.compare_refl. Qed.

Lemma compare_lt_trans a : forall b c,
  String.compare a b = Lt -> String.compare b c = Lt -> String.compare a c = Lt.
Proof.
  induction a as [|x a IH]; intros [|y b] [|z c]; simpl; try discriminate; auto.
  unfold Ascii.compare.
  destruct (N.compare_spec (N_of_ascii x) (N_of_ascii y)) as [E|L|G];
    try discriminate;
    destruct (N.compare_spec (N_of_ascii y) (N_of_ascii z)) as [E'|L'|G'];
    try discriminate; intros H1 H2.
  - rewrite E, E', N.compare_refl. eauto.
  - rewrite E. now apply N.compare_lt_iff in L' as ->.
  - rewrite <- E'. now apply N.compare_lt_iff in L as ->.
  - assert (L'' : (N_of_ascii x < N_of_ascii z)%N) by lia.
    now apply N.compare_lt_iff in L'' as ->.
Qed.

(** Texts with a common beginning compare as what follows it. *)
Lemma compare_after p x y :
  String.compare (text (p ++ x)) (text (p ++ y)) = String.compare (text x) (text y).
Proof.
  induction p as [|c p IH]; simpl; auto. now rewrite ascii_compare_refl.
Qed.

(** Texts that begin with two texts of one length, the first before the
    second, compare as these. *)
Lemma compare_before a : forall b x y,
  length a = length b ->
  String.compare (text a) (text b) = Lt ->
  String.compare (text (a ++ x)) (text (b ++ y)) = Lt.
Proof.
  induction a as [|c a IH]; intros [|d b] x y L; simpl in *; try discriminate.
  destruct (Ascii.compare c d); auto.
Qed.

(** *** Numbers in a fixed number of digits *)

Lemma digit_order a b :
  0 <= a -> a < b -> b < 10 ->
  String.compare (text [digit_char a]) (text [digit_char b]) = Lt.
Proof.
  intros A L B. simpl. unfold Ascii.compare, digit_char.
  rewrite !N_ascii_embedding by lia.
  assert (C : (Z.to_N (48 + a) ?= Z.to_N (48 + b))%N = Lt)
    by (apply N.compare_lt_iff; lia).
  now rewrite C.
Qed.

Lemma zeros_snoc n : zeros n ++ ["0"%char] = zeros (S n).
Proof. unfold zeros. induction n as [|n IH]; simpl; [|rewrite IH]; reflexivity. Qed.

(** The text in one more digit: the text of the tens, and the last digit. *)
Lemma padded_snoc w n :
  0 <= n -> padded (S (S w)) n = padded (S w) (n / 10) ++ [digit_char (n mod 10)].
Proof.
  intros N. unfold padded, pad_left.
  destruct (Z.lt_ge_cases n 10) as [Small|Large].
  - rewrite Z.div_small, Z.mod_small by lia.
    rewrite !TextFacts.nat_digits_small by lia. simpl length.
    replace (S (S w) - 1)%nat with (S w) by lia.
    replace (S w - 1)%nat with w by lia.
    change (digit_char 0) with "0"%char. now rewrite zeros_snoc.
  - rewrite TextFacts.nat_digits_step by lia.
    rewrite length_app. simpl length.
    replace (S (S w) - (length (nat_digits (n / 10)) + 1))%nat
      with (S w - length (nat_digits (n / 10)))%nat by lia.
    now rewrite app_assoc.
Qed.

(** In a fixed number of digits, the texts of numbers have that number of
    characters and are ordered as the numbers. *)
Lemma digits_order w :
  (forall n, 0 <= n < 10 ^ Z.of_nat (S w) -> length (padded (S w) n) = S w) /\
  (forall a b, 0 <= a -> a < b -> b < 10 ^ Z.of_nat (S w) ->
     String.compare (text (padded (S w) a)) (text (padded (S w) b)) = Lt).
Proof.
  induction w as [|w [Len Ord]].
  - assert (One : forall n, 0 <= n < 10 -> padded 1 n = [digit_char n]).
    { intros n R. unfold padded, pad_left.
      now rewrite TextFacts.nat_digits_small by lia. }
    change (10 ^ Z.of_nat 1) with 10. split.
    + intros n R. now rewrite One.
    + intros a b A L B. rewrite !One by lia. now apply digit_order.
  - assert (P : 10 ^ Z.of_nat (S (S w)) = 10 * 10 ^ Z.of_nat (S w)).
    { rewrite (Nat2Z.inj_succ (S w)). apply Z.pow_succ_r. lia. }
    rewrite P. split.
    + intros n R. rewrite padded_snoc by lia. rewrite length_app, Len; [simpl; lia|].
      split; [apply Z.div_pos; lia | apply Z.div_lt_upper_bound; lia].
    + intros a b A L B. rewrite !padded_snoc by lia.
      assert (Ra : 0 <= a / 10 < 10 ^ Z.of_nat (S w))
        by (split; [apply Z.div_pos; lia | apply Z.div_lt_upper_bound; lia]).
      assert (Rb : 0 <= b / 10 < 10 ^ Z.of_nat (S w))
        by (split; [apply Z.div_pos; lia | apply Z.div_lt_upper_bound; lia]).
      assert (Le : a / 10 <= b / 10) by (apply Z.div_le_mono; lia).
      destruct (Z.eq_dec (a / 10) (b / 10)) as [E|N].
      * rewrite E, compare_after. apply digit_order.
        -- apply Z.mod_pos_bound. lia.
        -- pose proof (Z.div_mod a 10). pose proof (Z.div_mod b 10). lia.
        -- apply Z.mod_pos_bound. lia.
      * apply compare_before; [now rewrite !Len | apply Ord; lia].
Qed.

Lemma two_digits :
  (forall n, 0 <= n <= 99 -> length (padded 2 n) = 2%nat) /\
  (forall a b, 0 <= a -> a < b -> b <= 99 ->
     String.compare (text (padded 2 a)) (text (padded 2 b)) = Lt).
Proof.
  destruct (digits_order 1) as [L O]. change (10 ^ Z.of_nat 2) with 100 in *.
  split; intros; [apply L | apply O]; lia.
Qed.

Lemma three_digits :
  (forall n, 0 <= n <= 999 -> length (padded 3 n) = 3%nat) /\
  (forall a b, 0 <= a -> a < b -> b <= 999 ->
     String.compare (text (padded 3 a)) (text (padded 3 b)) = Lt).
Proof.
  destruct (digits_order 2) as [L O]. change (10 ^ Z.of_nat 3) with 1000 in *.
  split; intros; [apply L | apply O]; lia.
Qed.

Lemma four_digits :
  (forall n, 0 <= n <= 9999 -> length (padded 4 n) = 4%nat) /\
  (forall a b, 0 <= a -> a < b -> b <= 9999 ->
     String.compare (text (padded 4 a)) (text (padded 4 b)) = Lt).
Proof.
  destruct (digits_order 3) as [L O]. change (10 ^ Z.of_nat 4) with 10000 in *.
  split; intros; [apply L | apply O]; lia.
Qed.

(** A field of a text, and what follows it. *)
Lemma field_order width top a b x y :
  (forall n, 0 <= n <= top -> length (padded width n) = width) ->
  (forall a b, 0 <= a -> a < b -> b <= top ->
     String.compare (text (padded width a)) (text (padded width b)) = Lt) ->
  0 <= a -> a <= b -> b <= top ->
  String.compare (text (padded width a ++ x)) (text (padded width b ++ y)) =
  if a =? b then String.compare (text x) (text y) else Lt.
Proof.
  intros Len Lt_ A L B. destruct (a =? b) eqn:E.
  - apply Z.eqb_eq in E. subst b. apply compare_after.
  - apply Z.eqb_neq in E. apply compare_before.
    + rewrite !Len; auto; lia.
    + apply Lt_; lia.
Qed.

(** *** The calendar *)

(** The calendar repeats every 400 years, which are 146097 days. *)
Lemma civil_era day k :
  civil_from_days (day + k * 146097) =
  let '(y, m, d) := civil_from_days day in (y + 400 * k, m, d).
Proof.
  unfold civil_from_days. cbv zeta.
  replace (day + k * 146097 + 719468) with (day + 719468 + k * 146097) by lia.
  rewrite Z.div_add by lia.
  set (era := (day + 719468) / 146097).
  replace (day + 719468 + k * 146097 - (era + k) * 146097)
    with (day + 719468 - era * 146097) by lia.
  f_equal. f_equal. lia.
Qed.

Lemma sandwich c a x b : 0 < c -> a <= x <= b -> a / c = b / c -> x / c = a / c.
Proof.
  intros C R E.
  pose proof (Z.div_le_mono a x c C). pose proof (Z.div_le_mono x b c C). lia.
Qed.

(** Between two days with the same quotients, the day of the month counts
    the days. *)
Lemma stretch_linear a b x :
  agree (quotients a) (quotients b) = true -> a <= x <= b ->
  civil_from_days x = let '(y, m, d) := civil_from_days a in (y, m, d + (x - a)).
Proof.
  intros A R. unfold agree, quotients in A. cbn [combine forallb fst snd] in A.
  repeat match goal with
         | H : _ && _ = true |- _ => apply andb_prop in H; destruct H
         end.
  repeat match goal with
         | H : (_ =? _) = true |- _ => apply Z.eqb_eq in H
         end.
  unfold civil_from_days. cbv zeta.
  set (za := a + 719468) in *. set (zb := b + 719468) in *.
  set (zx := x + 719468).
  assert (Ex : zx / 146097 = za / 146097) by (apply (sandwich _ _ _ zb); lia).
  rewrite Ex.
  set (era := za / 146097) in *.
  replace (zb / 146097) with era in * by assumption.
  set (da := za - era * 146097) in *. set (db := zb - era * 146097) in *.
  set (dx := zx - era * 146097).
  assert (Rd : da <= dx <= db) by (unfold da, dx, db, za, zx, zb; lia).
  assert (Dx : dx = da + (x - a)) by (unfold da, dx, za, zx; lia).
  assert (Q1 : dx / 1460 = da / 1460) by (apply (sandwich _ _ _ db); lia).
  assert (Q2 : dx / 36524 = da / 36524) by (apply (sandwich _ _ _ db); lia).
  assert (Q3 : dx / 146096 = da / 146096) by (apply (sandwich _ _ _ db); lia).
  rewrite Q1, Q2, Q3.
  set (q1 := da / 1460) in *. set (q2 := da / 36524) in *.
  set (q3 := da / 146096) in *.
  replace (db / 1460) with q1 in * by assumption.
  replace (db / 36524) with q2 in * by assumption.
  replace (db / 146096) with q3 in * by assumption.
  assert (Y : (dx - q1 + q2 - q3) / 365 = (da - q1 + q2 - q3) / 365)
    by (apply (sandwich _ _ _ (db - q1 + q2 - q3)); lia).
  rewrite Y.
  set (yoe := (da - q1 + q2 - q3) / 365) in *.
  replace ((db - q1 + q2 - q3) / 365) with yoe in * by assumption.
  set (off := 365 * yoe + yoe / 4 - yoe / 100) in *.
  assert (M : (5 * (dx - off) + 2) / 153 = (5 * (da - off) + 2) / 153)
    by (apply (sandwich _ _ _ (5 * (db - off) + 2)); lia).
  rewrite M. f_equal. lia.
Qed.

Lemma agree_refl q : agree q q = true.
Proof.
  unfold agree. induction q as [|x q IH]; simpl; auto.
  now rewrite Z.eqb_refl.
Qed.

Lemma stretch_spec a :
  a <= stretch a /\ agree (quotients a) (quotients (stretch a)) = true.
Proof.
  unfold stretch. cbv zeta.
  destruct (find _ _) as [k|] eqn:F.
  - apply find_some in F. destruct F as [K A]. split; [|exact A].
    simpl in K. lia.
  - split; [lia | apply agree_refl].
Qed.

Lemma in_calendar_spec day :
  in_calendar day = true <->
  let '(y, m, d) := civil_from_days day in 1 <= m <= 12 /\ 1 <= d <= 31.
Proof.
  unfold in_calendar. destruct (civil_from_days day) as [[y m] d].
  rewrite !andb_true_iff, !Z.leb_le. tauto.
Qed.

Lemma next_day_spec day :
  next_day_is_later day = true <->
  let '(y, m, d) := civil_from_days (day + 1) in
  date_key (civil_from_days day) < date_key (y, m, d) /\
  1 <= m <= 12 /\ 1 <= d <= 31.
Proof.
  unfold next_day_is_later. destruct (civil_from_days (day + 1)) as [[y m] d].
  rewrite !andb_true_iff, !Z.leb_le, Z.ltb_lt. tauto.
Qed.

(** Within a stretch, the next day has the next day of the month. *)
Lemma within_stretch a b x :
  agree (quotients a) (quotients b) = true ->
  in_calendar a = true -> in_calendar b = true ->
  a <= x < b -> next_day_is_later x = true.
Proof.
  intros A Ca Cb R. apply next_day_spec.
  apply in_calendar_spec in Ca, Cb.
  rewrite (stretch_linear a b b A) in Cb by lia.
  rewrite (stretch_linear a b x A), (stretch_linear a b (x + 1) A) by lia.
  destruct (civil_from_days a) as [[y m] d]. unfold date_key. lia.
Qed.

Lemma walk_step a n :
  walk a (S n) =
  if in_calendar (stretch a) && next_day_is_later (stretch a)
  then walk (stretch a + 1) n else None.
Proof. reflexivity. Qed.

Lemma walk_sound n : forall a e,
  in_calendar a = true -> walk a n = Some e ->
  a <= e /\ forall x, a <= x < e -> next_day_is_later x = true.
Proof.
  induction n as [|n IH]; intros a e Ca W.
  - injection W as <-. split; [lia|]. intros x R. lia.
  - rewrite walk_step in W. destruct (stretch_spec a) as [L A].
    remember (stretch a) as b eqn:Eb. clear Eb.
    destruct (in_calendar b) eqn:Cb; [|discriminate].
    destruct (next_day_is_later b) eqn:N; [|discriminate].
    cbn [andb] in W.
    assert (Cn : in_calendar (b + 1) = true).
    { apply in_calendar_spec. apply next_day_spec in N.
      destruct (civil_from_days (b + 1)) as [[y m] d]. tauto. }
    destruct (IH _ _ Cn W) as [Le After]. split; [lia|].
    intros x R.
    destruct (Z.lt_trichotomy x b) as [Lt_|[->|Gt_]].
    + apply (within_stretch a b); auto. lia.
    + exact N.
    + apply After. lia.
Qed.

Lemma one_era : walk (-719468) (Z.to_nat 5400) = Some (-564421).
Proof. vm_cast_no_check (eq_refl (Some (-564421))). Qed.

Lemma era_days day :
  -719468 <= day < -719468 + 146097 -> next_day_is_later day = true.
Proof.
  intros R.
  apply (walk_sound (Z.to_nat 5400) (-719468) (-564421) eq_refl one_era). lia.
Qed.

Lemma next_day day :
  let '(y, m, d) := civil_from_days (day + 1) in
  date_key (civil_from_days day) < date_key (y, m, d) /\
  1 <= m <= 12 /\ 1 <= d <= 31.
Proof.
  set (k := (day + 719468) / 146097).
  set (b := (day + 719468) mod 146097 - 719468).
  assert (E : day = b + k * 146097).
  { unfold b, k. pose proof (Z.div_mod (day + 719468) 146097). lia. }
  assert (R : -719468 <= b < -719468 + 146097).
  { unfold b. pose proof (Z.mod_pos_bound (day + 719468) 146097). lia. }
  pose proof (proj1 (next_day_spec b) (era_days b R)) as H.
  replace (day + 1) with (b + 1 + k * 146097) by lia.
  rewrite E, !civil_era.
  destruct (civil_from_days (b + 1)) as [[y m] d].
  destruct (civil_from_days b) as [[y' m'] d'].
  unfold date_key in *. lia.
Qed.

Lemma month_and_day day :
  let '(y, m, d) := civil_from_days day in 1 <= m <= 12 /\ 1 <= d <= 31.
Proof.
  pose proof (next_day (day - 1)) as H.
  replace (day - 1 + 1) with day in H by lia.
  destruct (civil_from_days day) as [[y m] d]. tauto.
Qed.

Lemma days_rising a b :
  a < b -> date_key (civil_from_days a) < date_key (civil_from_days b).
Proof.
  intros L.
  apply (step_by_step (fun x y => date_key x < date_key y) civil_from_days a b);
    try lia.
  intros i _. pose proof (next_day i) as H.
  destruct (civil_from_days (i + 1)) as [[y m] d]. tauto.
Qed.

Lemma year_of_day day :
  -719528 <= day <= 2932896 ->
  let '(y, m, d) := civil_from_days day in 0 <= y <= 9999.
Proof.
  intros R. pose proof (month_and_day day) as M.
  assert (Lo : date_key (civil_from_days (-719528)) <= date_key (civil_from_days day)).
  { destruct (Z.eq_dec day (-719528)) as [->|N]; [lia|].
    apply Z.lt_le_incl, days_rising. lia. }
  assert (Hi : date_key (civil_from_days day) <= date_key (civil_from_days 2932896)).
  { destruct (Z.eq_dec day 2932896) as [->|N]; [lia|].
    apply Z.lt_le_incl, days_rising. lia. }
  change (civil_from_days (-719528)) with (0, 1, 1) in Lo.
  change (civil_from_days 2932896) with (9999, 12, 31) in Hi.
  destruct (civil_from_days day) as [[y m] d]. unfold date_key in *. lia.
Qed.

(** *** The text of a time value *)

Lemma compare_skip c x y :
  String.compare (text (c :: x)) (text (c :: y)) = String.compare (text x) (text y).
Proof. simpl. now rewrite ascii_compare_refl. Qed.

Lemma year_text_padded y : 0 <= y <= 9999 -> year_text y = padded 4 y.
Proof.
  intros R. unfold year_text.
  destruct (Z.leb_spec 0 y), (Z.leb_spec y 9999); simpl; auto; lia.
Qed.

Lemma time_fields ms :
  0 <= ms < 86400000 ->
  exists h m s f,
    ms / 3600000 = h /\ ms / 60000 mod 60 = m /\ ms / 1000 mod 60 = s /\
    ms mod 1000 = f /\
    0 <= h <= 23 /\ 0 <= m <= 59 /\ 0 <= s <= 59 /\ 0 <= f <= 999 /\
    ms = h * 3600000 + m * 60000 + s * 1000 + f.
Proof.
  intros R. do 4 eexists. repeat (split; [reflexivity|]).
  Z.div_mod_to_equations. lia.
Qed.

Lemma day_of t :
  four_digit_year t ->
  exists day ms,
    t / msPerDay = day /\ t mod msPerDay = ms /\
    -719528 <= day <= 2932896 /\ 0 <= ms < 86400000 /\ t = day * 86400000 + ms.
Proof.
  unfold four_digit_year, msPerDay. intros R. do 2 eexists.
  repeat (split; [reflexivity|]). Z.div_mod_to_equations. lia.
Qed.

(** An earlier time value of a year of four digits has the earlier text. *)
Lemma iso_lt s w :
  four_digit_year s -> four_digit_year w -> s < w ->
  String.compare (iso_text s) (iso_text w) = Lt.
Proof.
  intros Rs Rw L. unfold iso_text.
  destruct (day_of s Rs) as (day1 & ms1 & -> & -> & D1 & M1 & ->).
  destruct (day_of w Rw) as (day2 & ms2 & -> & -> & D2 & M2 & ->).
  destruct (time_fields ms1 M1) as (h1 & m1 & s1 & f1 & -> & -> & -> & -> & T1).
  destruct (time_fields ms2 M2) as (h2 & m2 & s2 & f2 & -> & -> & -> & -> & T2).
  pose proof (year_of_day day1 D1) as Y1. pose proof (year_of_day day2 D2) as Y2.
  pose proof (month_and_day day1) as C1. pose proof (month_and_day day2) as C2.
  assert (K : day1 < day2 ->
              date_key (civil_from_days day1) < date_key (civil_from_days day2))
    by apply days_rising.
  assert (E : day1 = day2 -> civil_from_days day1 = civil_from_days day2)
    by now intros ->.
  destruct (civil_from_days day1) as [[y1 mo1] d1].
  destruct (civil_from_days day2) as [[y2 mo2] d2].
  rewrite !year_text_padded by lia.
  unfold date_key in K.
  assert (E' : day1 = day2 -> y1 = y2 /\ mo1 = mo2 /\ d1 = d2).
  { intros H. specialize (E H). now injection E. }
  clear E.
  destruct two_digits as [L2 O2]. destruct three_digits as [L3 O3].
  destruct four_digits as [L4 O4].
  rewrite (field_order 4 9999 y1 y2 _ _ L4 O4) by lia.
  destruct (Z.eqb_spec y1 y2) as [Ey|]; [|reflexivity]. rewrite compare_skip.
  rewrite (field_order 2 99 mo1 mo2 _ _ L2 O2) by lia.
  destruct (Z.eqb_spec mo1 mo2) as [Em|]; [|reflexivity]. rewrite compare_skip.
  rewrite (field_order 2 99 d1 d2 _ _ L2 O2) by lia.
  destruct (Z.eqb_spec d1 d2) as [Ed|]; [|reflexivity]. rewrite compare_skip.
  rewrite (field_order 2 99 h1 h2 _ _ L2 O2) by lia.
  destruct (Z.eqb_spec h1 h2) as [Eh|]; [|reflexivity]. rewrite compare_skip.
  rewrite (field_order 2 99 m1 m2 _ _ L2 O2) by lia.
  destruct (Z.eqb_spec m1 m2) as [Emi|]; [|reflexivity]. rewrite compare_skip.
  rewrite (field_order 2 99 s1 s2 _ _ L2 O2) by lia.
  destruct (Z.eqb_spec s1 s2) as [Es|]; [|reflexivity]. rewrite compare_skip.
  rewrite (field_order 3 999 f1 f2 _ _ L3 O3) by lia.
  destruct (Z.eqb_spec f1 f2) as [Ef|]; [|reflexivity]. lia.
Qed.

(** The ISO texts of the time values of the years 0000 to 9999 are ordered
    as the time values. *)
Lemma iso_compare s w :
  four_digit_year s -> four_digit_year w ->
  String.compare (iso_text s) (iso_text w) = Z.compare s w.
Proof.
  intros Rs Rw. destruct (Z.compare_spec s w) as [->|L|G].
  - apply OrderFacts.string_compare_refl.
  - now apply iso_lt.
  - rewrite String.compare_antisym, iso_lt; auto.
Qed.

Lemma iso_leb s w :
  four_digit_year s -> four_digit_year w ->
  String.leb (iso_text s) (iso_text w) = (s <=? w).
Proof.
  intros Rs Rw. unfold String.leb, Z.leb. rewrite iso_compare by auto.
  now destruct (s ?= w).
Qed.

End IsoFacts.

Module WindowFacts.

Import Date Server.

Lemma located_iff l d : located l d = true <-> location d = Str l.
Proof.
  unfold located. destruct (location d) as [| | | |x]; try (split; discriminate).
  rewrite String.eqb_eq. split; congruence.
Qed.

Lemma requested_located ql since d :
  wanted ql since d = true <-> on_or_after since d = true /\ requested ql d.
Proof.
  unfold wanted, requested. rewrite andb_true_iff.
  destruct ql as [[|c l]|]; try rewrite located_iff; tauto.
Qed.

(** The handler's date is near the start of the window. *)
Lemma since_near now h :
  Z.abs now <= max_time ->
  (0 <= h \/ window_start now h <= inject_Z max_time - 8)%Q ->
  (h <= 0 \/ - (inject_Z max_time - 8) <= window_start now h)%Q ->
  exists T,
    since_of now (Fin h) = Normal (iso_text T) /\
    Z.abs T <= max_time /\ near_start now h T /\
    ((h <= 0)%Q -> now <= T) /\ ((0 <= h)%Q -> T <= now) /\
    ((h * 3600000 <= - 2)%Q -> now < T) /\ ((2 <= h * 3600000)%Q -> T < now).
Proof. apply NumberFacts.since_within. Qed.

(** The answer of the handler for a valid date. *)
Lemma window_answer ql qh now items T :
  since_of now (hours_of qh) = Normal (iso_text T) ->
  exists body,
    api_history ql qh now (Cosmos.Reachable items) = json body /\
    Permutation (filter (wanted ql (iso_text T)) items) body /\
    StronglySorted ascending body /\
    (four_digit_year T ->
     forall d w, four_digit_year w -> windowEnd d = Str (iso_text w) ->
       (In d body <-> In d items /\ T <= w /\ requested ql d)).
Proof.
  intros S. set (since := iso_text T) in *.
  rewrite (HistoryFacts.api_history_answer ql qh now _ since S).
  eexists. split; [reflexivity|].
  destruct (HistoryFacts.history_select ql since items) as (P & A & _).
  split; [exact P|]. split; [exact A|].
  intros RT d w Rw W.
  assert (In_ : forall x, In x (Cosmos.select
                  (historyQuery (or_else (param ql) (Str "")) since) items)
                <-> In x (filter (wanted ql since) items)).
  { intros x. split; apply Permutation_in; [now apply Permutation_sym | exact P]. }
  rewrite In_, filter_In, requested_located. unfold on_or_after. rewrite W.
  unfold since. rewrite IsoFacts.iso_leb by auto.
  rewrite Z.leb_le. tauto.
Qed.

(** Whole bounds for a date near the start of the window. *)
Lemma near_between now h T lo hi :
  near_start now h T ->
  (inject_Z lo <= window_start now h - slack h)%Q ->
  (window_start now h + slack h <= inject_Z hi)%Q ->
  lo < T < hi.
Proof.
  unfold near_start. intros N L H. apply Qabs_Qlt_condition in N.
  rewrite !Zlt_Qlt. split; lra.
Qed.

End WindowFacts.

(* ================================================================== *)
(** * The window of /api/history *)
(* ================================================================== *)

(** C2, as stated, fails.  With [hours=0.0000001] the start of the window is
    0.36 ms before now.  A date holds whole milliseconds: [since] is the ISO
    text of the millisecond before now, and a document whose window end is
    that millisecond, which is before the start of the window, is
    returned. *)
Lemma C2_counterexample :
  let d := reading (Str "Dows Lake") (Str (Date.iso_text (noon - 1))) in
  exists h,
    Number (Str "0.0000001") = Fin h /\ (0 < h)%Q /\
    Server.since_of noon (Fin h) = Normal (Date.iso_text (noon - 1)) /\
    Server.api_history None (Some "0.0000001") noon (Cosmos.Reachable [d])
      = Server.json [d] /\
    (inject_Z (noon - 1) < window_start noon h)%Q.
Proof.
  intros d. eexists.
  split; [vm_compute; reflexivity|]. split; [vm_compute; reflexivity|].
  split; [vm_compute; reflexivity|]. split; vm_compute; reflexivity.
Qed.

(** C2, amended.  For hours h > 0 the handler of /api/history returns only
    documents whose window end is a string not before [since] in the order
    of strings; with a non-empty location it returns only documents of
    exactly that location; the documents are in ascending order of window
    end; and every wanted document of the container is returned, however
    many there are.  [since] is the ISO text of the date the handler
    computes for [now - h * 3600 s], in binary64 arithmetic and with the
    fraction of a millisecond dropped: a time value that is not after now
    and is within the slack of [now - h * 3600 s], less than 2 ms and 2^-51
    of [h * 3600 s].  While that time is no earlier than the first date and
    the store answers, the handler does return; and while [since] is in the
    years 0000 to 9999, a document whose window end is the ISO text of a
    time of those years is returned exactly when the container holds it,
    its window end is not before [since] in time, and its location is the
    requested one. *)
Theorem C2_history_returns_the_window
    (ql : option string) (s : string) (n : number) (now : Z) (c : Cosmos.container) :
  Number (Str s) = n -> above_zero n ->
  (forall body,
     Server.api_history ql (Some s) now c = Server.json body ->
     exists since items,
       Server.since_of now n = Normal since /\
       c = Cosmos.Reachable items /\
       (forall d, In d body ->
          exists w, windowEnd d = Str w /\ String.leb since w = true) /\
       (forall l, ql = Some l -> l <> "" ->
          forall d, In d body -> location d = Str l) /\
       StronglySorted ascending body /\
       Permutation (filter (wanted ql since) items) body /\
       length body = length (filter (wanted ql since) items)) /\
  (forall h, n = Fin h ->
     Z.abs now <= Date.max_time ->
     (- (inject_Z Date.max_time - 8) <= window_start now h)%Q ->
     exists T,
       Server.since_of now n = Normal (Date.iso_text T) /\
       T <= now /\ near_start now h T /\
       forall items, exists body,
         Server.api_history ql (Some s) now (Cosmos.Reachable items)
           = Server.json body /\
         (four_digit_year T ->
          forall d w, four_digit_year w -> windowEnd d = Str (Date.iso_text w) ->
            (In d body <-> In d items /\ T <= w /\ requested ql d))).
Proof.
  intros E Hpos.
  assert (Hh : Server.hours_of (Some s) = n).
  { unfold Server.hours_of. simpl Server.param. rewrite E.
    destruct n as [| | |h]; simpl in *; try tauto.
    destruct (is_zero h) eqn:Z; auto.
    unfold is_zero in Z. apply Qeq_bool_eq in Z. rewrite Z in Hpos. discriminate. }
  split.
  - intros body Hb. unfold Server.api_history in Hb. rewrite Hh in Hb.
    destruct (Server.since_of now n) as [since|e] eqn:S; [|discriminate].
    destruct c as [items|]; [|discriminate].
    simpl in Hb. injection Hb as <-.
    destruct (HistoryFacts.history_select ql since items) as (P & A & W).
    exists since, items. repeat split; auto.
    + intros d Hd. eapply HistoryFacts.wanted_window; eauto.
    + intros l -> Hl d Hd. eapply HistoryFacts.wanted_location; eauto.
    + symmetry. now apply Permutation_length.
  - intros h -> Hn Hw. simpl in Hpos.
    destruct (WindowFacts.since_near now h Hn) as (T & S & _ & N & _ & L & _).
    { left. now apply Qlt_le_weak. }
    { right. exact Hw. }
    exists T. split; [exact S|]. split; [apply L; now apply Qlt_le_weak|].
    split; [exact N|]. intros items.
    destruct (WindowFacts.window_answer ql (Some s) now items T) as (body & B & _ & _ & I).
    { now rewrite Hh. }
    exists body. split; [exact B | exact I].
Qed.

Lemma C2_witness :
  Server.api_history (Some "Dows Lake") (Some "24") noon (Cosmos.Reachable canal)
  = Server.json
      [ reading (Str "Dows Lake") (Str "2025-01-09T13:00:00.000Z");
        reading (Str "Dows Lake") (Str "2025-01-10T11:00:00.000Z") ] /\
  exists T, Server.since_of noon (Fin 24%Q) = Normal (Date.iso_text T) /\
            T <= noon /\ near_start noon 24 T.
Proof.
  split; [vm_compute; reflexivity|].
  destruct (C2_history_returns_the_window (Some "Dows Lake") "24" (Fin 24%Q) noon
              (Cosmos.Reachable canal)) as [_ H];
    [vm_compute; reflexivity | vm_compute; reflexivity |].
  destruct (H 24%Q eq_refl) as (T & S & L & N & _);
    [vm_compute; discriminate | vm_compute; discriminate |].
  exists T. auto.
Defined.

(** C10, as stated, fails.  [hours=-2500000000] coerces to a negative
    number, yet [now - h * 3600 s] lies beyond the last date, [toISOString]
    throws a RangeError before the [try] block, and the handler sends
    nothing.  And for [hours=-70000000] the text of [since] is that of a
    year of six digits, with a sign; the query compares texts, and a
    document whose window end is in 2025, eight thousand years before
    [since], is returned. *)
Lemma C10_counterexample :
  let d := reading (Str "Dows Lake") (Str "2025-01-10T11:00:00.000Z") in
  Number (Str "-2500000000") = Fin (-2500000000)%Q /\
  Server.api_history None (Some "-2500000000") noon (Cosmos.Reachable canal)
  = Server.unhandled (RangeError "Invalid time value") /\
  Number (Str "-70000000") = Fin (-70000000)%Q /\
  Server.since_of noon (Fin (-70000000)%Q)
  = Normal (Date.iso_text (noon + 252000000000000)) /\
  Date.iso_text (noon + 252000000000000) = "+010010-08-04T04:00:00.000Z" /\
  windowEnd d = Str (Date.iso_text (noon - 3600000)) /\
  Server.api_history None (Some "-70000000") noon (Cosmos.Reachable [d])
  = Server.json [d].
Proof. intros d. repeat split; vm_compute; reflexivity. Qed.

(** C10, amended.  For hours that coerce to a negative number h, with
    [now - h * 3600 s] no later than the last date, the handler does not fall
    back to 6 and does not fail.  [since] is the ISO text of the date the
    handler computes for [now - h * 3600 s], in binary64 arithmetic and with
    the fraction of a millisecond dropped: a time value that is not before
    now, is after now when [h * 3600 s] is two milliseconds or more, and is
    within the slack of [now - h * 3600 s].  The answer holds exactly the
    documents of the container whose window end is a string not before
    [since] in the order of strings (and whose location is the requested
    one), in ascending order; while [since] is in the years 0000 to 9999,
    a document whose window end is the ISO text of a time of those years is
    in the answer exactly when its window end is not before [since] in
    time. *)
Theorem C10_negative_hours_look_ahead
    (ql : option string) (s : string) (h : Q) (now : Z) (items : list document) :
  Number (Str s) = Fin h -> (h < 0)%Q ->
  Z.abs now <= Date.max_time ->
  (window_start now h <= inject_Z Date.max_time - 8)%Q ->
  exists T,
    Server.hours_of (Some s) = Fin h /\
    Server.since_of now (Fin h) = Normal (Date.iso_text T) /\
    now <= T /\
    ((h * 3600000 <= - 2)%Q -> now < T) /\
    near_start now h T /\
    exists body,
      Server.api_history ql (Some s) now (Cosmos.Reachable items) = Server.json body /\
      Permutation (filter (wanted ql (Date.iso_text T)) items) body /\
      StronglySorted ascending body /\
      (four_digit_year T ->
       forall d w, four_digit_year w -> windowEnd d = Str (Date.iso_text w) ->
         (In d body <-> In d items /\ T <= w /\ requested ql d)).
Proof.
  intros E Hneg Hn Hw.
  assert (Hh : Server.hours_of (Some s) = Fin h).
  { apply HistoryFacts.hours_of_number; auto. intros Z. rewrite Z in Hneg.
    discriminate. }
  destruct (WindowFacts.since_near now h Hn) as (T & S & _ & N & G & _ & G' & _).
  { right. exact Hw. }
  { left. now apply Qlt_le_weak. }
  exists T. split; [exact Hh|]. split; [exact S|].
  split; [apply G; now apply Qlt_le_weak|]. split; [exact G'|]. split; [exact N|].
  apply WindowFacts.window_answer. now rewrite Hh.
Qed.

Lemma C10_witness :
  exists T, Server.since_of noon (Fin (-1)%Q) = Normal (Date.iso_text T) /\ noon < T.
Proof.
  destruct (C10_negative_hours_look_ahead None "-1" (-1)%Q noon canal)
    as (T & _ & S & _ & L & _);
    [vm_compute; reflexivity | vm_compute; reflexivity
    | vm_compute; discriminate | vm_compute; discriminate |].
  exists T. split; [exact S|]. apply L. vm_compute. discriminate.
Defined.

(** The window of /api/history is a window of time.  For hours that coerce
    to a number other than zero, with [now - hours * 3600 s] a date, the
    handler answers, and [since] is the ISO text of a time value within the
    slack of [now - hours * 3600 s].  While that time value is in the years
    0000 to 9999, a document whose window end is the ISO text of a time
    value of those years is in the answer exactly when the container holds
    it, its window end is not before [since], and its location is the
    requested one, if one is requested: the query compares texts, and these
    texts are ordered as their times. *)
Theorem history_window_is_a_time_window
    (ql : option string) (s : string) (h : Q) (now : Z) (items : list document) :
  Number (Str s) = Fin h -> ~ (h == 0)%Q ->
  Z.abs now <= Date.max_time ->
  (Qabs (window_start now h) <= inject_Z Date.max_time - 8)%Q ->
  exists T body,
    Server.since_of now (Fin h) = Normal (Date.iso_text T) /\
    near_start now h T /\
    Server.api_history ql (Some s) now (Cosmos.Reachable items) = Server.json body /\
    (four_digit_year T ->
     forall d w, four_digit_year w -> windowEnd d = Str (Date.iso_text w) ->
       (In d body <-> In d items /\ T <= w /\ requested ql d)).
Proof.
  intros E N Hn Hw.
  pose proof (HistoryFacts.hours_of_number s h E N) as Hh.
  apply Qabs_Qle_condition in Hw. destruct Hw as [Lo Hi].
  destruct (WindowFacts.since_near now h Hn) as (T & S & _ & Near & _);
    [right; exact Hi | right; exact Lo |].
  destruct (WindowFacts.window_answer ql (Some s) now items T) as (body & B & _ & _ & I).
  { now rewrite Hh. }
  exists T, body. auto.
Qed.

Lemma history_window_witness :
  let ten := reading (Str "NAC") (Str "2025-01-10T10:00:00.000Z") in
  let old := reading (Str "NAC") (Str "2025-01-09T11:59:00.000Z") in
  exists body,
    Server.api_history (Some "NAC") (Some "24") noon (Cosmos.Reachable [old; ten])
      = Server.json body /\
    In ten body /\ ~ In old body.
Proof.
  intros ten old.
  destruct (history_window_is_a_time_window (Some "NAC") "24" 24 noon [old; ten])
    as (T & body & _ & Near & E & I);
    [vm_compute; reflexivity | discriminate | vm_compute; discriminate
    | apply Qle_bool_iff; vm_compute; reflexivity |].
  destruct (WindowFacts.near_between noon 24 T 1736423999990 1736424000010 Near)
    as [Lo Hi]; [apply Qle_bool_iff; vm_compute; reflexivity ..|].
  assert (RT : four_digit_year T) by (unfold four_digit_year; lia).
  exists body. split; [exact E|]. split.
  - apply (I RT ten 1736503200000); [unfold four_digit_year; lia | reflexivity |].
    split; [simpl; auto|]. split; [lia | reflexivity].
  - intros H. apply (I RT old 1736423940000) in H;
      [|unfold four_digit_year; lia | reflexivity].
    destruct H as (_ & H & _). lia.
Defined.

(* ================================================================== *)
(** * The order of the answer of /api/latest *)
(* ================================================================== *)

Module AnswerFacts.

Import Cosmos Server ObjectFacts.

Lemma first_of_each_ext l : forall seen seen',
  (forall k, existsb (String.eqb k) seen = existsb (String.eqb k) seen') ->
  first_of_each seen l = first_of_each seen' l.
Proof.
  induction l as [|d l IH]; simpl; intros seen seen' E; auto.
  rewrite (E (loc d)). destruct (_ || _); [now apply IH|].
  f_equal. apply IH. intros k. simpl. now rewrite E.
Qed.

Lemma existsb_keys (o : object document) k :
  existsb (String.eqb k) (keys o) = match own o k with Some _ => true | None => false end.
Proof.
  unfold keys. induction o as [|[k' v] o IH]; simpl; auto.
  rewrite (String.eqb_sym k k'). now destruct (String.eqb k' k).
Qed.

(** The object that the loop builds holds the first document of each key,
    in the order of the sample. *)
Lemma fold_keep l : forall acc,
  fold_left keep l acc =
  acc ++ map (fun d => (loc d, d)) (first_of_each (keys acc) l).
Proof.
  induction l as [|d l IH]; intros acc; simpl; [now rewrite app_nil_r|].
  rewrite IH. unfold keep, get. rewrite existsb_keys.
  destruct (own acc (loc d)) eqn:O.
  - now rewrite orb_true_r.
  - rewrite orb_false_r. destruct (inherited (loc d)); auto.
    rewrite set_fresh by auto. rewrite <- app_assoc. simpl. do 3 f_equal.
    apply first_of_each_ext. intros k. unfold keys.
    rewrite map_app, existsb_app. simpl.
    rewrite orb_false_r, orb_comm. now rewrite (String.eqb_sym k).
Qed.

Lemma latest_object sample :
  latestByLocation sample = map (fun d => (loc d, d)) (first_of_each [] sample).
Proof. unfold latestByLocation. now rewrite fold_keep. Qed.

Lemma named_keyed (l : list document) :
  Js.named (map (fun d => (loc d, d)) l) = filter (fun d => negb (index_keyed d)) l.
Proof.
  induction l as [|d l IH]; simpl; auto. unfold index_keyed at 1.
  destruct (array_index (loc d)); simpl; now rewrite IH.
Qed.

Lemma indexed_keyed (l : list document) d i :
  In (i, d) (indexed (map (fun d => (loc d, d)) l)) -> index_keyed d = true.
Proof.
  induction l as [|x l IH]; simpl; [tauto|].
  destruct (array_index (loc x)) as [j|] eqn:A; auto.
  intros H. apply (Permutation_in _ (insert_index_perm j x _)) in H.
  destruct H as [E|H]; auto. injection E as <- <-.
  unfold index_keyed. now rewrite A.
Qed.

Lemma indexed_none (l : list document) :
  (forall d, In d l -> index_keyed d = false) ->
  indexed (map (fun d => (loc d, d)) l) = [].
Proof.
  induction l as [|x l IH]; simpl; auto. intros H.
  pose proof (H x (or_introl eq_refl)) as X. unfold index_keyed in X.
  destruct (array_index (loc x)); [discriminate|]. apply IH. auto.
Qed.

Lemma filter_all {A : Type} (f : A -> bool) l :
  (forall x, In x l -> f x = true) -> filter f l = l.
Proof.
  induction l as [|x l IH]; simpl; auto. intros H.
  rewrite (H x) by auto. f_equal. auto.
Qed.

Lemma first_of_each_in l : forall seen d, In d (first_of_each seen l) -> In d l.
Proof.
  induction l as [|x l IH]; simpl; intros seen d; [tauto|].
  destruct (_ || _); [eauto|]. intros [->|H]; eauto.
Qed.

Lemma first_of_each_sorted (R : document -> document -> Prop) l : forall seen,
  StronglySorted R l -> StronglySorted R (first_of_each seen l).
Proof.
  induction l as [|x l IH]; simpl; intros seen S; [constructor|].
  inversion S as [|? ? Sl F]; subst.
  destruct (_ || _); [auto|]. constructor; auto.
  rewrite Forall_forall in *. intros d H. apply F. eapply first_of_each_in; eauto.
Qed.

End AnswerFacts.

(** The order of the answer of /api/latest.  The documents whose key is an
    array index come first, and after them the first document of every
    other key, in the order of the sample.  So when no document of the
    container has such a key, the answer is the first document of each key
    in the order of the sample: the locations are listed newest first. *)
Theorem latest_lists_newest_first (items : list document) :
  exists sample front,
    Cosmos.fetchAll Server.latestQuery (Cosmos.Reachable items) = Normal sample /\
    Server.api_latest (Cosmos.Reachable items) =
      Server.json
        (front ++ filter (fun d => negb (index_keyed d)) (first_of_each [] sample)) /\
    (forall d, In d front -> index_keyed d = true) /\
    ((forall d, In d items -> index_keyed d = false) ->
     Server.api_latest (Cosmos.Reachable items) =
       Server.json (first_of_each [] sample) /\
     StronglySorted
       (fun a b => Cosmos.order_leb (windowEnd b) (windowEnd a) = true)
       (first_of_each [] sample)).
Proof.
  set (sample := Cosmos.select Server.latestQuery items).
  exists sample, (map snd (indexed (Server.latestByLocation sample))).
  assert (E : Server.api_latest (Cosmos.Reachable items) =
              Server.json (Server.getLatest sample)) by reflexivity.
  split; [reflexivity|]. rewrite E. unfold Server.getLatest, Object_values.
  rewrite AnswerFacts.latest_object, AnswerFacts.named_keyed.
  split; [reflexivity|]. split.
  - intros d H. apply in_map_iff in H. destruct H as ([i d'] & <- & H).
    eapply AnswerFacts.indexed_keyed; eauto.
  - intros None_. 
    assert (In_ : forall d, In d (first_of_each [] sample) -> index_keyed d = false).
    { intros d H. apply None_. apply SampleFacts.sample_in_items.
      eapply AnswerFacts.first_of_each_in; eauto. }
    split.
    + rewrite AnswerFacts.indexed_none by exact In_. simpl.
      rewrite AnswerFacts.filter_all; auto.
      intros d H. now rewrite (In_ d H).
    + apply AnswerFacts.first_of_each_sorted.
      exact (OrderFacts.select_sorted Server.latestQuery items).
Qed.

(** A location named like an array index is listed first, whatever its
    window end. *)
Example an_index_key_comes_first :
  Server.getLatest [ reading (Str "NAC") (Str "2025-01-10T11:00:00.000Z");
                     reading (Str "7") (Str "2025-01-09T11:00:00.000Z") ]
  = [ reading (Str "7") (Str "2025-01-09T11:00:00.000Z");
      reading (Str "NAC") (Str "2025-01-10T11:00:00.000Z") ].
Proof. reflexivity. Qed.

(* ================================================================== *)
(** * The cards, from the store to the page *)
(* ================================================================== *)

Module CardFacts.

Import Server.

Lemma forEach_normal {A B : Type} (f : A -> completion B) l : forall r,
  forEach f l = Normal r -> Forall2 (fun x y => f x = Normal y) l r.
Proof.
  induction l as [|x l IH]; simpl; intros r.
  - intros [= <-]. constructor.
  - destruct (f x) as [y|e] eqn:F; simpl; [|discriminate].
    destruct (forEach f l) as [ys|e]; simpl; [|discriminate].
    intros [= <-]. constructor; auto.
Qed.

Lemma card_locations l cs :
  Forall2 (fun d c => buildStatusCard d = Normal c) l cs ->
  map card_location cs = map loc l.
Proof.
  induction 1 as [|d c l cs B _ IH]; simpl; auto.
  destruct (buildStatusCard_inv d c B) as (status & _ & ->). simpl.
  now rewrite IH.
Qed.

Lemma built_from l cs c :
  Forall2 (fun d c => buildStatusCard d = Normal c) l cs -> In c cs ->
  exists d, In d l /\ buildStatusCard d = Normal c.
Proof.
  induction 1 as [|d c' l cs B _ IH]; simpl; [tauto|].
  intros [<-|H]; [eauto|]. destruct (IH H) as (d' & D & B'). eauto.
Qed.

Lemma keys_of_values (o : object document) :
  well_keyed o -> map loc (map snd o) = keys o.
Proof.
  intros [_ K]. unfold keys. rewrite map_map. apply map_ext_in.
  intros [k d] H. simpl. symmetry. now apply K.
Qed.

(** The documents of the answer have different keys. *)
Lemma getLatest_keys sample : NoDup (map loc (getLatest sample)).
Proof.
  pose proof (LatestFacts.latestByLocation_well_keyed sample) as W.
  apply (Permutation_NoDup
           (Permutation_sym
              (Permutation_map loc (ObjectFacts.Object_values_perm
                                      (latestByLocation sample))))).
  rewrite keys_of_values by exact W. exact (proj1 W).
Qed.

Lemma getLatest_in_items items d :
  In d (getLatest (Cosmos.select latestQuery items)) -> In d items.
Proof.
  intros H. apply LatestFacts.in_getLatest in H. unfold first_keyed in H.
  destruct (inherited (loc d)); [discriminate|]. apply find_some in H.
  now apply SampleFacts.sample_in_items.
Qed.

End CardFacts.

(** The page never shows two cards of one location.  When /api/latest
    answers from a container of JSON documents and the page shows cards,
    the cards carry pairwise different location names, and every card is
    the card of a document of the container. *)
Theorem one_card_per_location
    (localeCompare : string -> string -> Z) (items : list document)
    (cs : list card) :
  (forall d, In d items -> Wire.over_json d = d) ->
  (exists r, Wire.latest_fetch (Cosmos.Reachable items) = Some r /\
             fetchAndRenderLatest localeCompare r = Cards cs) ->
  NoDup (map card_location cs) /\
  forall c, In c cs -> exists d, In d items /\ buildStatusCard d = Normal c.
Proof.
  intros Json (r & F & V).
  set (body := Server.getLatest (Cosmos.select Server.latestQuery items)).
  assert (Same : map Wire.over_json body = body).
  { rewrite <- (map_id body) at 2. apply map_ext_in. intros d H.
    apply Json. now apply CardFacts.getLatest_in_items. }
  assert (R : r = Body (Some body)).
  { unfold Wire.latest_fetch in F. simpl in F. fold body in F.
    rewrite Same in F. congruence. }
  subst r. unfold fetchAndRenderLatest in V.
  destruct body as [|x rest] eqn:B; [discriminate|]. rewrite <- B in *.
  destruct (sort (compare localeCompare) body) as [sorted|e] eqn:S;
    [|discriminate].
  simpl bind in V.
  destruct (forEach buildStatusCard sorted) as [cards|e] eqn:E; [|discriminate].
  injection V as ->.
  assert (P : Permutation body sorted)
    by now apply (ArrayFacts.sort_permutation (compare localeCompare)).
  apply CardFacts.forEach_normal in E. split.
  - rewrite (CardFacts.card_locations _ _ E).
    apply (Permutation_NoDup (Permutation_map Server.loc P)).
    apply CardFacts.getLatest_keys.
  - intros c H. destruct (CardFacts.built_from _ _ c E H) as (d & D & Built).
    exists d. split; [|exact Built].
    apply CardFacts.getLatest_in_items. fold body.
    eapply Permutation_in; [apply Permutation_sym, P | exact D].
Qed.

Lemma one_card_per_location_witness :
  exists cs,
    fetchAndRenderLatest ordinal (Body (Some (Server.getLatest
      (Cosmos.select Server.latestQuery canal)))) = Cards cs /\
    map card_location cs = ["Dows Lake"; "NAC"] /\
    NoDup (map card_location cs).
Proof.
  eexists. split; [reflexivity|]. split; [reflexivity|].
  apply (one_card_per_location ordinal canal).
  - intros d H. simpl in H.
    destruct H as [<-|[<-|[<-|[<-|[]]]]]; reflexivity.
  - eexists. split; reflexivity.
Defined.

(* ================================================================== *)
(** * /api/latest: the newest of the container *)
(* ================================================================== *)

Module NewestFacts.

Import Cosmos Server.

Lemma sorted_across {A : Type} (R : A -> A -> Prop) (front back : list A) x y :
  StronglySorted R (front ++ back) -> In x front -> In y back -> R x y.
Proof.
  intros S X Y. apply in_split in X. destruct X as (pre & post & ->).
  rewrite <- app_assoc in S. simpl in S.
  apply (sorted_after R pre x (post ++ back) S). apply in_or_app. now right.
Qed.

(** A document with a window end is in the sample, or is not newer than
    any document of the sample. *)
Lemma sample_or_older items n d :
  In n (select latestQuery items) -> In d items ->
  defined (windowEnd d) = true ->
  In d (select latestQuery items) \/
  order_leb (windowEnd d) (windowEnd n) = true.
Proof.
  rewrite SampleFacts.sample_is_a_prefix.
  set (known := filter (fun d => defined (windowEnd d)) items).
  set (ordered := sort (doc_leb (c_windowEnd, DESC)) known).
  intros N D W.
  assert (Sorted : StronglySorted (fun a b => doc_leb (c_windowEnd, DESC) a b = true)
                     (firstn 100 ordered ++ skipn 100 ordered)).
  { rewrite firstn_skipn. apply OrderFacts.sort_sorted.
    - apply OrderFacts.doc_leb_total.
    - apply OrderFacts.doc_leb_trans. }
  assert (Din : In d (firstn 100 ordered ++ skipn 100 ordered)).
  { rewrite firstn_skipn. apply (Permutation_in _ (OrderFacts.sort_perm _ known)).
    apply filter_In. auto. }
  apply in_app_or in Din. destruct Din as [Din|Din]; [now left|right].
  exact (sorted_across _ _ _ n d Sorted N Din).
Qed.

End NewestFacts.

(** The document that /api/latest returns for a location is the newest of
    the whole container, not of the sample only: no document of the
    container with the same key has a later window end. *)
Theorem latest_is_newest_of_the_container (items : list document) :
  exists body,
    Server.api_latest (Cosmos.Reachable items) = Server.json body /\
    forall n d,
      In n body -> In d items -> Server.loc d = Server.loc n ->
      Cosmos.defined (windowEnd d) = true ->
      Cosmos.order_leb (windowEnd d) (windowEnd n) = true.
Proof.
  set (sample := Cosmos.select Server.latestQuery items).
  exists (Server.getLatest sample). split; [reflexivity|].
  intros n d N D K W.
  apply LatestFacts.in_getLatest in N. unfold first_keyed in N.
  destruct (inherited (Server.loc n)); [discriminate|].
  assert (Sorted : StronglySorted
            (fun a b => Cosmos.order_leb (windowEnd b) (windowEnd a) = true) sample)
    by exact (OrderFacts.select_sorted Server.latestQuery items).
  destruct (NewestFacts.sample_or_older items n d) as [In_|Older]; auto.
  - apply find_some in N. tauto.
  - exact (first_is_newest (Server.loc n) sample n Sorted N d In_ K).
Qed.
